(** * Documentation pipeline: change watcher, generator and AI enhancer

    A shallow embedding of the three scripts of the repository

      - [scripts/watch-and-update.js]   (class [ContinuousDocsUpdater]),
      - [scripts/enhance-with-ai.js]    (class [AIDocumentationEnhancer]),
      - [scripts/generate-docs.js]      (the documentation generator),

    together with the properties their specification states about them.

    JavaScript strings are modelled as [string] (sequences of bytes, the
    UTF-8 encoding of the source text); sets with insertion order
    ([Set]) as duplicate-free lists; [process.env] and the documentation
    tree as [gmap string string]; calls that leave the process
    ([execAsync], the text-generation service, the clock) as replies of an
    explicit environment.

    The file system is the ideal one: a write or a [mkdir] succeeds, and a
    read fails only for a file that does not exist and for a directory.
    The module directories of the application are a tree of directories
    and files.  The timers of the watcher are left to its caller: the model
    starts at the handlers and at [processAccumulatedChanges].
    [toUpperCase], [toLowerCase] and [trim] are exact on ASCII text. *)

From Stdlib Require Import Ascii String Decimal DecimalString DecimalNat.
From stdpp Require Import gmap strings list fin_maps.

Local Open Scope stdpp_scope.

(** ** JavaScript string primitives *)

Module JS.

(** [s.startsWith(p)]. *)
Fixpoint startsWith (p s : string) : bool :=
  match p, s with
  | EmptyString, _ => true
  | String _ _, EmptyString => false
  | String a p', String b s' => if decide (a = b) then startsWith p' s' else false
  end.

(** [s.includes(sub)]: [sub] starts at some position of [s]. *)
Fixpoint includes (sub s : string) : bool :=
  startsWith sub s ||
  match s with
  | EmptyString => false
  | String _ s' => includes sub s'
  end.

(** [s.endsWith(p)]. *)
Fixpoint endsWith (p s : string) : bool :=
  if decide (s = p) then true
  else match s with
       | EmptyString => false
       | String _ s' => endsWith p s'
       end.

(** [s.split(sep)] for a non-empty separator: the text is scanned from the
    left; where [sep] starts the current piece is closed and the scan
    resumes after the separator ([skip] counts the separator's remaining
    characters).  The result is the first piece and the list of the others,
    so it is never empty, as in JavaScript. *)
Fixpoint split_go (sep : string) (skip : nat) (s : string) : string * list string :=
  match s with
  | EmptyString => (EmptyString, [])
  | String c s' =>
      match skip with
      | S k => split_go sep k s'
      | O =>
          if startsWith sep s
          then (EmptyString,
                let '(h, t) := split_go sep (String.length sep - 1) s' in h :: t)
          else let '(h, t) := split_go sep 0 s' in (String c h, t)
      end
  end.

Definition split (sep s : string) : list string :=
  let '(h, t) := split_go sep 0 s in h :: t.

(** [parts.join(sep)]. *)
Fixpoint join (sep : string) (parts : list string) : string :=
  match parts with
  | [] => EmptyString
  | [p] => p
  | p :: ps => p +:+ sep +:+ join sep ps
  end.

(** Truthiness of a string: only the empty string is falsy. *)
Definition truthy (s : string) : bool :=
  match s with
  | EmptyString => false
  | String _ _ => true
  end.

(** [Set.prototype.add] on a set kept in insertion order. *)
Definition set_add (x : string) (l : list string) : list string :=
  if decide (x ∈ l) then l else l ++ [x].

(** ASCII white space, the part of JavaScript's white space that occurs in
    the output of the tools called here. *)
Definition is_space (c : ascii) : bool :=
  match c with
  | "009" | "010" | "011" | "012" | "013" | " " => true
  | _ => false
  end%char.

Fixpoint trimStart (s : string) : string :=
  match s with
  | EmptyString => EmptyString
  | String c s' => if is_space c then trimStart s' else s
  end.

Fixpoint trimEnd (s : string) : string :=
  match s with
  | EmptyString => EmptyString
  | String c s' =>
      match trimEnd s' with
      | EmptyString => if is_space c then EmptyString else String c EmptyString
      | r => String c r
      end
  end.

(** [s.trim()]. *)
Definition trim (s : string) : string := trimEnd (trimStart s).

(** [toUpperCase] and [toLowerCase], exact on ASCII text. *)
Definition upper (c : ascii) : ascii :=
  let n := nat_of_ascii c in
  if (97 <=? n) && (n <=? 122) then ascii_of_nat (n - 32) else c.

Definition lower (c : ascii) : ascii :=
  let n := nat_of_ascii c in
  if (65 <=? n) && (n <=? 90) then ascii_of_nat (n + 32) else c.

Fixpoint toLowerCase (s : string) : string :=
  match s with
  | EmptyString => EmptyString
  | String c s' => String (lower c) (toLowerCase s')
  end.

(** [s.charAt(0).toUpperCase() + s.slice(1)]. *)
Definition capitalize (s : string) : string :=
  match s with
  | EmptyString => EmptyString
  | String c s' => String (upper c) s'
  end.

(** [s.replace(/\s/g, '')]. *)
Fixpoint remove_spaces (s : string) : string :=
  match s with
  | EmptyString => EmptyString
  | String c s' => if is_space c then remove_spaces s' else String c (remove_spaces s')
  end.

(** [String(n)] for a non-negative integer, as interpolated by a template
    literal: its decimal digits. *)
Definition String_of_nat (n : nat) : string :=
  NilEmpty.string_of_uint (Nat.to_uint n).

End JS.

(** ** Effects: state, exceptions, the console *)

(** A JavaScript computation over a mutable state [S] returns a value or
    throws, and leaves a state behind in both cases.  [Unfinished] is the
    outcome of a computation that was cut off before it did either: the
    retry of [callClaude] is a recursive call without a bound, and its model
    runs on a budget of calls. *)
Inductive Outcome (A : Type) : Type :=
| Returned (a : A)
| Thrown (error : string)
| Unfinished.
Arguments Returned {A} a.
Arguments Thrown {A} error.
Arguments Unfinished {A}.

Definition Eff (S A : Type) : Type := S → Outcome A * S.

Definition ret {S A} (a : A) : Eff S A := λ st, (Returned a, st).

Definition bind {S A B} (m : Eff S A) (k : A → Eff S B) : Eff S B :=
  λ st, match m st with
        | (Returned a, st') => k a st'
        | (Thrown e, st') => (Thrown e, st')
        | (Unfinished, st') => (Unfinished, st')
        end.

(** A computation that is still running when the observation ends (a
    recursion deeper than the fuel it was given). *)
Definition unfinished {S A} : Eff S A := λ st, (Unfinished, st).

Definition throw {S A} (e : string) : Eff S A := λ st, (Thrown e, st).

(** [try { body } catch (error) { handler }]. *)
Definition try_catch {S A} (body : Eff S A) (handler : string → Eff S A) : Eff S A :=
  λ st, match body st with
        | (Returned a, st') => (Returned a, st')
        | (Thrown e, st') => handler e st'
        | (Unfinished, st') => (Unfinished, st')
        end.

(** [try { body } finally { fin }], for a [fin] that does not throw; it
    runs once [body] has returned or thrown. *)
Definition try_finally {S A} (body : Eff S A) (fin : S → S) : Eff S A :=
  λ st, match body st with
        | (Unfinished, st') => (Unfinished, st')
        | (r, st') => (r, fin st')
        end.

Definition gets {S A} (f : S → A) : Eff S A := λ st, (Returned (f st), st).
Definition modify {S} (f : S → S) : Eff S unit := λ st, (Returned tt, f st).

Notation "'let!' x ':=' m 'in' k" := (bind m (λ x, k))
  (at level 10, x name, m at level 100, k at level 200).
Notation "m '>>' k" := (bind m (λ _, k))
  (at level 100, k at level 200, right associativity).

(** The characters that cannot be written inside a literal. *)
Definition nl : string := String "010"%char EmptyString.
Definition dq : string := String "034"%char EmptyString.

(** ** The change watcher: [ContinuousDocsUpdater] *)

Module Watcher.

(** The object returned by [analyzeChanges]. *)
Record Analysis := mkAnalysis {
  modules : list string;
  types : bool;
  components : bool;
  services : bool
}.

(** [filePath.split('/modules/')[1].split('/')[0]].  Indexing an array out
    of range gives [undefined], on which [.split] throws a [TypeError]:
    [None] stands for that exception. *)
Definition moduleNameOf (filePath : string) : option string :=
  match JS.split "/modules/" filePath !! 1 with
  | Some after => JS.split "/" after !! 0
  | None => None
  end.

(** One iteration of the [for (const filePath of filePaths)] loop. *)
Definition analyzeStep (analysis : Analysis) (filePath : string) : option Analysis :=
  let with_module :=
    if JS.includes "/modules/" filePath
    then match moduleNameOf filePath with
         | Some moduleName =>
             Some (mkAnalysis (JS.set_add moduleName (modules analysis))
                     (types analysis) (components analysis) (services analysis))
         | None => None
         end
    else Some analysis in
  match with_module with
  | None => None
  | Some a1 =>
      let a2 := if JS.includes "generated.d.ts" filePath
                then mkAnalysis (modules a1) true (components a1) (services a1)
                else a1 in
      let a3 := if JS.includes "/components/" filePath
                then mkAnalysis (modules a2) (types a2) true (services a2)
                else a2 in
      let a4 := if JS.includes "/services/" filePath
                then mkAnalysis (modules a3) (types a3) (components a3) true
                else a3 in
      Some a4
  end.

Fixpoint analyzeLoop (analysis : Analysis) (filePaths : list string) : option Analysis :=
  match filePaths with
  | [] => Some analysis
  | filePath :: rest =>
      match analyzeStep analysis filePath with
      | Some analysis' => analyzeLoop analysis' rest
      | None => None
      end
  end.

(** [analyzeChanges(filePaths)]; [None] if the body throws. *)
Definition analyzeChanges (filePaths : list string) : option Analysis :=
  analyzeLoop (mkAnalysis [] false false false) filePaths.

(** *** The world around the watcher *)

(** What the process prints and runs, in order. *)
Inductive Event : Type :=
| ConsoleLog (line : string)
| ConsoleError (label : string) (error : string)
| ExecRun (cmd : string).

(** Notifications of the file-system watcher ([change], [add], [unlink]). *)
Inductive FileEvent : Type :=
| Change (filePath : string)
| Add (filePath : string)
| Unlink (filePath : string).

(** What an [await execAsync(cmd)] meets: the command's standard output or
    the error it rejects with, and the file notifications delivered while
    the caller is suspended. *)
Inductive ExecResult : Type :=
| Resolved (stdout : string)
| Rejected (error : string).

Record ExecReply := mkExecReply {
  exec_result : ExecResult;
  exec_arrivals : list FileEvent
}.

(** The outside world: the reply to the [n]-th [execAsync] and the reading
    of [new Date().toISOString()] after [n] of them. *)
Record Outside := mkOutside {
  exec_reply : nat → string → ExecReply;
  clock_iso : nat → string
}.

(** The fields of [this], [process.env], and what was printed and run.
    The two timers only decide when [processAccumulatedChanges] is called;
    they are left to the caller. *)
Record State := mkState {
  pendingChanges : list string;
  isProcessing : bool;
  aiUpdateThreshold : nat;
  env : gmap string string;
  events : list Event;
  ticks : nat
}.

Definition set_pendingChanges (f : list string → list string) (st : State) : State :=
  mkState (f (pendingChanges st)) (isProcessing st) (aiUpdateThreshold st)
          (env st) (events st) (ticks st).
Definition set_isProcessing (b : bool) (st : State) : State :=
  mkState (pendingChanges st) b (aiUpdateThreshold st) (env st) (events st) (ticks st).
Definition set_env (f : gmap string string → gmap string string) (st : State) : State :=
  mkState (pendingChanges st) (isProcessing st) (aiUpdateThreshold st)
          (f (env st)) (events st) (ticks st).
Definition emit (e : Event) (st : State) : State :=
  mkState (pendingChanges st) (isProcessing st) (aiUpdateThreshold st)
          (env st) (events st ++ [e]) (ticks st).
Definition tick (st : State) : State :=
  mkState (pendingChanges st) (isProcessing st) (aiUpdateThreshold st)
          (env st) (events st) (S (ticks st)).

(** [new ContinuousDocsUpdater()] in a process with environment [e]. *)
Definition constructor (e : gmap string string) : State :=
  mkState [] false 3 e [] 0.

Definition console_log (line : string) : Eff State unit := modify (emit (ConsoleLog line)).
Definition console_error (label error : string) : Eff State unit :=
  modify (emit (ConsoleError label error)).

(** [process.env.NAME] used as a condition: unset and empty are falsy. *)
Definition env_truthy (name : string) (st : State) : bool :=
  match env st !! name with
  | Some v => JS.truthy v
  | None => false
  end.

(** [handleFileChange(filePath)]. *)
Definition handleFileChange (filePath : string) : Eff State unit :=
  console_log ("📝 File changed: " +:+ filePath) >>
  modify (set_pendingChanges (JS.set_add filePath)).

(** [handleFileDelete(filePath)]. *)
Definition handleFileDelete (filePath : string) : Eff State unit :=
  console_log ("🗑️ File deleted: " +:+ filePath) >>
  modify (set_pendingChanges (JS.set_add filePath)).

(** The handlers registered in [start()]. *)
Definition deliver (ev : FileEvent) : Eff State unit :=
  match ev with
  | Change filePath | Add filePath => handleFileChange filePath
  | Unlink filePath => handleFileDelete filePath
  end.

Fixpoint deliver_all (evs : list FileEvent) : Eff State unit :=
  match evs with
  | [] => ret tt
  | ev :: rest => deliver ev >> deliver_all rest
  end.

Section Updater.

Context (out : Outside).

(** [await execAsync(cmd)]: the command runs, the notifications that
    arrive meanwhile are handled, and the caller resumes with the output
    or with the rejection. *)
Definition execAsync (cmd : string) : Eff State string :=
  let! reply := gets (λ st, exec_reply out (ticks st) cmd) in
  modify (emit (ExecRun cmd)) >>
  modify tick >>
  deliver_all (exec_arrivals reply) >>
  match exec_result reply with
  | Resolved stdout => ret stdout
  | Rejected error => throw error
  end.

Definition yes_no (b : bool) : string := if b then "yes" else "no".

(** The template literal [detailedMessage] of [commitChanges]. *)
Definition detailedMessage (message : string) (analysis : Analysis) (date : string) : string :=
  message +:+ nl +:+ nl +:+
  "Modules updated: " +:+
    (let joined := JS.join ", " (modules analysis) in
     if JS.truthy joined then joined else "none") +:+ nl +:+
  "Types updated: " +:+ yes_no (types analysis) +:+ nl +:+
  "Components updated: " +:+ yes_no (components analysis) +:+ nl +:+
  "Services updated: " +:+ yes_no (services analysis) +:+ nl +:+ nl +:+
  "Auto-generated at: " +:+ date.

(** [commitChanges(message, analysis)]. *)
Definition commitChanges (message : string) (analysis : Analysis) : Eff State unit :=
  try_catch
    (let! stdout := execAsync "git status --porcelain" in
     if JS.truthy (JS.trim stdout) then
       let! date := gets (λ st, clock_iso out (ticks st)) in
       execAsync "git add ." >>
       execAsync ("git commit -m " +:+ dq +:+ detailedMessage message analysis date +:+ dq) >>
       (let! push := gets (λ st, bool_decide (env st !! "AUTO_PUSH" = Some "true")) in
        if push then execAsync "git push" >> ret tt else ret tt) >>
       console_log "📤 Changes committed successfully"
     else ret tt)
    (λ error, console_error "❌ Commit failed:" error).

(** [quickUpdate(analysis)]. *)
Definition quickUpdate (analysis : Analysis) : Eff State unit :=
  console_log "⚡ Running quick documentation update..." >>
  try_catch
    ((if types analysis then execAsync "npm run sync:types" >> ret tt else ret tt) >>
     execAsync "node scripts/generate-docs.js" >>
     commitChanges "📝 Quick docs update" analysis)
    (λ error, console_error "❌ Quick update failed:" error).

(** [aiEnhancedUpdate(analysis)]. *)
Definition aiEnhancedUpdate (analysis : Analysis) : Eff State unit :=
  console_log "🤖 Running AI-enhanced documentation update..." >>
  try_catch
    (let! anthropic := gets (env_truthy "ANTHROPIC_API_KEY") in
     let! openai := gets (env_truthy "OPENAI_API_KEY") in
     if negb anthropic && negb openai then
       console_log "⚠️ No AI API keys found, skipping AI enhancement"
     else
       modify (set_env (insert "CHANGED_MODULES" (JS.join nl (modules analysis)))) >>
       modify (set_env (insert "TYPES_CHANGED"
                          (if types analysis then "true" else EmptyString))) >>
       execAsync "node scripts/enhance-with-ai.js" >>
       commitChanges "🤖 AI-enhanced docs update" analysis)
    (λ error, console_error "❌ AI enhancement failed:" error).

(** The body of the [try] block of [processAccumulatedChanges]. *)
Definition processBatch : Eff State unit :=
  let! changes := gets pendingChanges in
  modify (set_pendingChanges (λ _, [])) >>
  console_log ("🔄 Processing " +:+ JS.String_of_nat (length changes) +:+
               " accumulated changes...") >>
  let! changeAnalysis :=
    match analyzeChanges changes with
    | Some a => ret a
    | None => throw "TypeError"
    end in
  quickUpdate changeAnalysis >>
  (let! threshold := gets aiUpdateThreshold in
   if threshold <=? length changes
   then aiEnhancedUpdate changeAnalysis
   else ret tt) >>
  console_log "✅ Documentation updated successfully".

(** [processAccumulatedChanges()]. *)
Definition processAccumulatedChanges : Eff State unit :=
  let! processing := gets isProcessing in
  let! size := gets (λ st, length (pendingChanges st)) in
  if processing || (size =? 0) then ret tt
  else
    modify (set_isProcessing true) >>
    try_finally
      (try_catch processBatch
         (λ error, console_error "❌ Error processing changes:" error))
      (set_isProcessing false).

End Updater.

End Watcher.

(** ** JSON values *)

(** The values [JSON.stringify] prints and [JSON.parse] builds.  A number
    is kept as the digits [JSON.stringify] prints for it; the members of an
    object are in property order. *)
#[local] Unset Elimination Schemes.
Inductive json : Type :=
| JNull
| JBool (b : bool)
| JNumber (digits : string)
| JString (s : string)
| JArray (items : list json)
| JObject (members : list (string * json)).
#[local] Set Elimination Schemes.

(** ** The AI enhancer: [AIDocumentationEnhancer] *)

Module Enhancer.

(** The argument of [anthropic.messages.create]. *)
Record Request := mkRequest {
  model : string;
  max_tokens : nat;
  temperature : option string;
  content : string
}.

(** Its result: a message whose [content] is a list of text blocks, or a
    rejection with an optional HTTP [status]. *)
Inductive ApiReply : Type :=
| ApiMessage (blocks : list string)
| ApiError (status : option nat) (message : string).

(** An entry of a directory of the application's sources: a file with
    its content, or a directory with its entries in the order in which
    [readdirSync] lists them. *)
#[local] Unset Elimination Schemes.
Inductive Entry : Type :=
| File (content : string)
| Dir (entries : list (string * Entry)).
#[local] Set Elimination Schemes.

(** The application's source tree as the scripts read it: the entries of
    [src/modules], and the file names of three shared directories.  [None]
    is a directory that cannot be listed (it is missing, or not a
    directory). *)
Record AppSource := mkAppSource {
  src_modules : option (list (string * Entry));
  src_components : option (list string);
  src_hooks : option (list string);
  src_services : option (list string)
}.

(** The outside world of one run: the reply to the [n]-th request, the
    source tree, the readings of [process.version] and of the clock, the
    message of a failed [readdirSync] of [src/modules], and the message of
    [readdirSync] on the [entities] of a module when that is a file (the
    message tells the absolute path). *)
Record Outside := mkOutside {
  api_reply : nat → Request → ApiReply;
  app : AppSource;
  node_version : string;
  iso_date : string;
  locale_date : string;
  enoent_message : string;
  enotdir_message : string → string
}.

Inductive Event : Type :=
| ConsoleLog (line : string)
| ConsoleError (label : string) (error : string)
| ApiCall (request : Request)
| Sleep (milliseconds : N)
| WriteFile (path : string) (data : string).

(** The documentation tree (pages by path relative to its root, which is
    [path.join(__dirname, '..')], and the listings of its directories),
    what happened so far and the number of requests sent. *)
Record State := mkState {
  docs : gmap string string;
  doc_dirs : gmap string (list string);
  events : list Event;
  calls : nat
}.

Definition emit (e : Event) (st : State) : State :=
  mkState (docs st) (doc_dirs st) (events st ++ [e]) (calls st).
Definition set_docs (f : gmap string string → gmap string string) (st : State) : State :=
  mkState (f (docs st)) (doc_dirs st) (events st) (calls st).
Definition count_call (st : State) : State :=
  mkState (docs st) (doc_dirs st) (events st) (S (calls st)).

Definition console_log (line : string) : Eff State unit := modify (emit (ConsoleLog line)).
Definition console_error (label error : string) : Eff State unit :=
  modify (emit (ConsoleError label error)).

(** [fs.existsSync], [fs.readFileSync(p, 'utf8')] and [fs.writeFileSync]
    on the pages of the documentation tree. *)
Definition existsSync (p : string) : Eff State bool :=
  gets (λ st, bool_decide (is_Some (docs st !! p))).

Definition readFileSync (p : string) : Eff State string :=
  let! found := gets (λ st, docs st !! p) in
  match found with
  | Some data => ret data
  | None => throw ("ENOENT: no such file or directory, open '" +:+ p +:+ "'")
  end.

Definition writeFileSync (p data : string) : Eff State unit :=
  modify (emit (WriteFile p data)) >>
  modify (set_docs (insert p data)).

(** The fields of the enhancer object. *)
Record Enhancer := mkEnhancer {
  changedModules : list string;
  typesChanged : bool
}.

(** [Boolean(process.env.NAME)]: [undefined] and the empty string are
    falsy, every other string is truthy. *)
Definition Boolean_env (v : option string) : bool :=
  match v with
  | Some s => JS.truthy s
  | None => false
  end.

(** [process.env.CHANGED_MODULES?.split('\n').filter(Boolean) || []]. *)
Definition changedModules_of (v : option string) : list string :=
  match v with
  | Some s => filter (λ m, JS.truthy m = true) (JS.split nl s)
  | None => []
  end.

(** The entry of a directory that has the given name. *)
Fixpoint assoc {A} (name : string) (entries : list (string * A)) : option A :=
  match entries with
  | [] => None
  | (n, a) :: rest => if decide (n = name) then Some a else assoc name rest
  end.

(** A name that is one segment of a path: [path.join] (of POSIX) leaves
    such a name as it is, where it resolves [.], [..], an empty name and
    every [/]. *)
Definition is_segment (name : string) : bool :=
  negb (JS.includes "/" name) &&
  negb (bool_decide (name = EmptyString ∨ name = "." ∨ name = "..")).

(** A pure computation inside an effectful one. *)
Definition outcome {S A} (r : Outcome A) : Eff S A := λ st, (r, st).

(** [array.map(f)] for an [f] that may throw: the elements are mapped from
    left to right, up to the first one on which [f] throws. *)
Fixpoint map_outcome {A B} (f : A → Outcome B) (l : list A) : Outcome (list B) :=
  match l with
  | [] => Returned []
  | x :: rest =>
      match f x with
      | Returned y =>
          match map_outcome f rest with
          | Returned ys => Returned (y :: ys)
          | Thrown e => Thrown e
          | Unfinished => Unfinished
          end
      | Thrown e => Thrown e
      | Unfinished => Unfinished
      end
  end.

Section Run.

Context (out : Outside).
(** [JSON.stringify(value, null, 2)] of the JavaScript runtime. *)
Context (JSON_stringify : json → string).

(** [new AIDocumentationEnhancer()] in a process with environment [env]. *)
Definition constructor (env : gmap string string) : Eff State Enhancer :=
  if Boolean_env (env !! "ANTHROPIC_API_KEY") then
    console_log "🤖 AI Documentation Enhancer initialized" >>
    console_log "📊 Plan: Anthropic Pro (June 2025)" >>
    console_log ("🚀 Node.js: " +:+ node_version out) >>
    ret (mkEnhancer (changedModules_of (env !! "CHANGED_MODULES"))
                    (Boolean_env (env !! "TYPES_CHANGED")))
  else
    throw "ANTHROPIC_API_KEY is required. Get it from https://console.anthropic.com/settings/keys".

(** [await this.anthropic.messages.create(request)]. *)
Definition messages_create (request : Request) : Eff State (list string) :=
  let! n := gets calls in
  modify (emit (ApiCall request)) >>
  modify count_call >>
  match api_reply out n request with
  | ApiMessage blocks => ret blocks
  | ApiError _ message => throw message
  end.

(** The [status] property of the error thrown by the [n]-th request. *)
Definition status_of (n : nat) (request : Request) : option nat :=
  match api_reply out n request with
  | ApiMessage _ => None
  | ApiError status _ => status
  end.

(** [testConnection()]. *)
Definition testConnection : Eff State unit :=
  try_catch
    (console_log "🔌 Testing Anthropic API connection..." >>
     let! blocks := messages_create
       (mkRequest "claude-3-5-sonnet-20241022" 100 None
          ("Hello! Just testing the connection. Respond with " +:+ dq +:+
           "Connection successful!" +:+ dq)) in
     console_log "✅ Anthropic API connection successful!" >>
     match blocks with
     | text :: _ => console_log ("🤖 Claude response: " +:+ text)
     | [] => throw "Cannot read properties of undefined (reading 'text')"
     end)
    (λ error,
       console_error "❌ Anthropic API connection failed:" error >>
       throw "Unable to connect to Anthropic API. Check your API key.").

(** [callClaude(prompt)].  The method calls itself after a rate-limit
    error; [fuel] bounds the depth of that recursion, and a run that needs
    more is [Unfinished]. *)
Fixpoint callClaude (fuel : nat) (prompt : string) : Eff State (option string) :=
  match fuel with
  | O => unfinished
  | S fuel' =>
      let request := mkRequest "claude-3-5-sonnet-20241022" 4000 (Some "0.3") prompt in
      let! n := gets calls in
      try_catch
        (let! blocks := messages_create request in
         match blocks with
         | text :: _ => ret (Some text)
         | [] => throw "Cannot read properties of undefined (reading 'text')"
         end)
        (λ error,
           console_error "❌ Claude API call failed:" error >>
           if bool_decide (status_of n request = Some 429) then
             console_log "⏸️ Rate limited, waiting 60 seconds..." >>
             modify (emit (Sleep 60000%N)) >>
             callClaude fuel' prompt
           else ret None)
  end.

(** [readTypesFile()], [readModuleDoc(moduleName)] and
    [writeModuleDoc(moduleName, content)]. *)
Definition readTypesFile : Eff State string :=
  let! found := existsSync "types/generated.d.ts" in
  if found then readFileSync "types/generated.d.ts" else ret EmptyString.

(** [path.join(__dirname, `../modules/${moduleName}.mdx`)] within the
    documentation tree, for a module name without [/]: the page of the
    module.  ([path.join] resolves the segments of a name with [/]; such a
    name is outside of this model.) *)
Definition moduleDocPath (moduleName : string) : string :=
  "modules/" +:+ moduleName +:+ ".mdx".

Definition readModuleDoc (moduleName : string) : Eff State string :=
  let! found := existsSync (moduleDocPath moduleName) in
  if found then readFileSync (moduleDocPath moduleName) else ret EmptyString.

Definition writeModuleDoc (moduleName content : string) : Eff State unit :=
  writeFileSync (moduleDocPath moduleName) content.

(** [content.match(/fields:\s*\{([^}]+)\}/s)]: the first position where
    [fields:], white space, an opening brace, at least one character other
    than a closing brace, and a closing brace follow each other; the
    result is the text between the braces. *)
Fixpoint until_close (s : string) : option string :=
  match s with
  | EmptyString => None
  | String c s' =>
      if decide (c = "}"%char) then Some EmptyString
      else String c <$> until_close s'
  end.

Fixpoint drop_string (n : nat) (s : string) : string :=
  match n, s with
  | S k, String _ s' => drop_string k s'
  | _, _ => s
  end.

Definition fields_at (s : string) : option string :=
  if JS.startsWith "fields:" s then
    match JS.trimStart (drop_string 7 s) with
    | String "{"%char rest =>
        match until_close rest with
        | Some (String c g) => Some (String c g)
        | _ => None
        end
    | _ => None
    end
  else None.

Fixpoint fields_match (s : string) : option string :=
  match fields_at s with
  | Some g => Some g
  | None =>
      match s with
      | EmptyString => None
      | String _ s' => fields_match s'
      end
  end.

(** [extractFieldCount(content)]. *)
Definition extractFieldCount (content : string) : nat :=
  match fields_match content with
  | Some g => length (JS.split "," g)
  | None => 0
  end.

(** [file.replace('.tsx', '')]: the first occurrence of [pat] is removed. *)
Fixpoint remove_first (pat s : string) : string :=
  if JS.startsWith pat s then drop_string (String.length pat) s
  else match s with
       | EmptyString => EmptyString
       | String c s' => String c (remove_first pat s')
       end.

(** The object that the [map] of [analyzeModuleCode] builds for the entry
    [file] of the [entities] directory with the content [content]. *)
Definition entitySummary (file content : string) : json :=
  JObject [ ("name", JString (remove_first ".tsx" file));
            ("hasRelationships", JBool (JS.includes "relationships:" content));
            ("fieldCount", JNumber (JS.String_of_nat (extractFieldCount content))) ].

(** The callback of that [map]: [fs.readFileSync] reads a file and throws
    on a directory. *)
Definition readEntity (file : string * Entry) : Outcome json :=
  match file.2 with
  | File content => Returned (entitySummary file.1 content)
  | Dir _ => Thrown "EISDIR: illegal operation on a directory, read"
  end.

(** What is at [path.join(__dirname, `../../agves_app/src/modules/${moduleName}`)],
    for a module name that is one segment: the entry of that name in
    [src/modules]. *)
Definition lookup_module (moduleName : string) : option Entry :=
  match src_modules (app out) with
  | Some ms => assoc moduleName ms
  | None => None
  end.

(** [analyzeModuleCode(moduleName)]: the object it returns, or the error
    it throws.  [existsSync] is true of a file and of a directory, and
    false of a path that leads through a file; [readdirSync] throws on a
    file, [readFileSync] on a directory. *)
Definition analyzeModuleCode (moduleName : string) : Outcome json :=
  match lookup_module moduleName with
  | None => Returned (JObject [ ("error", JString "Module not found") ])
  | Some module =>
      let entities :=
        match module with
        | Dir entries =>
            match assoc "entities" entries with
            | Some (Dir files) =>
                map_outcome readEntity (filter (λ f, JS.endsWith ".tsx" f.1 = true) files)
            | Some (File _) => Thrown (enotdir_message out moduleName)
            | None => Returned []
            end
        | File _ => Returned []
        end in
      match entities with
      | Returned summaries =>
          Returned (JObject [ ("entities", JArray summaries); ("services", JArray []);
                              ("tests", JArray []); ("i18n", JArray []) ])
      | Thrown e => Thrown e
      | Unfinished => Unfinished
      end
  end.

(** [countFiles(dirPath)], on the listing of the directory. *)
Definition countFiles (listing : option (list string)) : nat :=
  match listing with
  | Some names =>
      length (filter (λ f, JS.endsWith ".ts" f || JS.endsWith ".tsx" f = true) names)
  | None => 0
  end.

(** [analyzeFullCodebase()]. *)
Definition analyzeFullCodebase : json :=
  match src_modules (app out) with
  | Some ms =>
      JObject [ ("modules", JArray (JString <$> (fst <$> ms)));
                ("components", JNumber (JS.String_of_nat (countFiles (src_components (app out)))));
                ("hooks", JNumber (JS.String_of_nat (countFiles (src_hooks (app out)))));
                ("services", JNumber (JS.String_of_nat (countFiles (src_services (app out)))));
                ("nodeVersion", JString (node_version out));
                ("timestamp", JString (iso_date out)) ]
  | None => JObject [ ("error", JString (enoent_message out)) ]
  end.

(** [extractTypeChanges(typesContent)]: the names matched by
    [/declare namespace Modules\.Contracts\.Contracts\.(\w+)/g], from left
    to right, each search resuming where the previous match ended. *)
Definition is_word (c : ascii) : bool :=
  let n := nat_of_ascii c in
  (48 <=? n) && (n <=? 57) || (65 <=? n) && (n <=? 90) ||
  (97 <=? n) && (n <=? 122) || (n =? 95).

Fixpoint take_word (s : string) : string :=
  match s with
  | EmptyString => EmptyString
  | String c s' => if is_word c then String c (take_word s') else EmptyString
  end.

Definition namespace_prefix : string := "declare namespace Modules.Contracts.Contracts.".

Fixpoint namespace_matches (skip : nat) (s : string) : list string :=
  match s with
  | EmptyString => []
  | String _ s' =>
      match skip with
      | S k => namespace_matches k s'
      | O =>
          if JS.startsWith namespace_prefix s then
            match take_word (drop_string (String.length namespace_prefix) s) with
            | EmptyString => namespace_matches 0 s'
            | w => w :: namespace_matches (String.length namespace_prefix + String.length w - 1) s'
            end
          else namespace_matches 0 s'
      end
  end.

(** A change has a [module] and a [content]. *)
Definition extractTypeChanges (typesContent : string) : list (string * string) :=
  (λ w, (JS.toLowerCase w, "Module " +:+ w +:+ " detected")) <$> namespace_matches 0 typesContent.

(** [enhanceApiPage(change)]. *)
Definition enhanceApiPage (change : string * string) : Eff State unit :=
  let! listing := gets (λ st, doc_dirs st !! ("api-reference/" +:+ change.1)) in
  match listing with
  | None => ret tt
  | Some names =>
      let files := filter (λ f, JS.endsWith ".mdx" f = true) names in
      console_log ("📄 Enhancing " +:+ JS.String_of_nat (length files) +:+
                   " API pages for " +:+ change.1 +:+ "...")
  end.

Fixpoint for_each {A} (f : A → Eff State unit) (l : list A) : Eff State unit :=
  match l with
  | [] => ret tt
  | x :: rest => f x >> for_each f rest
  end.

(** [updateApiDocumentation()]. *)
Definition updateApiDocumentation : Eff State unit :=
  console_log "📡 Updating API documentation based on type changes..." >>
  let! typesContent := readTypesFile in
  for_each enhanceApiPage (extractTypeChanges typesContent).

(** The prompt of [enhanceModuleDocumentation]. *)
Definition modulePrompt (moduleName : string) (moduleCode : json) (currentDoc : string) : string :=
  JS.join nl
      [ EmptyString;
        "Améliore cette documentation de module AGVES (Next.js + Laravel) en tant qu'expert technique.";
        EmptyString;
        "CONTEXTE:";
        "- Application: AGVES (entity-driven architecture)";
        "- Stack: Next.js 15 + Laravel backend";
        "- Date: Juin 2025";
        "- Module: " +:+ moduleName;
        EmptyString;
        "ANALYSE DU CODE:";
        JSON_stringify moduleCode;
        EmptyString;
        "DOCUMENTATION ACTUELLE:";
        currentDoc;
        EmptyString;
        "TÂCHE:";
        "Améliore la documentation en ajoutant:";
        EmptyString;
        "1. **Exemples d'usage avancés** avec du code TypeScript/React réaliste";
        "2. **Cas d'usage métier concrets** pour ce module";
        "3. **Patterns d'architecture** spécifiques à ce module";
        "4. **Conseils de performance** et optimisations";
        "5. **Bonnes pratiques** de développement";
        "6. **Exemples d'intégration** avec les autres modules";
        EmptyString;
        "CONTRAINTES:";
        "- Garde le style Laravel Documentation (clair, structuré)";
        "- Utilise des exemples concrets et réalistes";
        "- Focus sur la valeur métier";
        "- Reste cohérent avec l'architecture entity-driven";
        EmptyString;
        "Retourne UNIQUEMENT le contenu Markdown amélioré, sans explications.";
        "    " ].

(** [enhanceModuleDocumentation(moduleName)]. *)
Definition enhanceModuleDocumentation (fuel : nat) (moduleName : string) : Eff State unit :=
  console_log ("🔧 Enhancing " +:+ moduleName +:+ " module documentation...") >>
  let! moduleCode := outcome (analyzeModuleCode moduleName) in
  let! currentDoc := readModuleDoc moduleName in
  if negb (JS.truthy currentDoc) then
    console_log ("⚠️ No existing documentation found for " +:+ moduleName +:+ ", skipping...")
  else
    let! enhancedDoc := callClaude fuel (modulePrompt moduleName moduleCode currentDoc) in
    match enhancedDoc with
    | Some (String c text) =>
        writeModuleDoc moduleName (String c text) >>
        console_log ("✅ Enhanced " +:+ moduleName +:+ " module documentation")
    | _ => ret tt
    end.

(** [generateArchitectureInsights()]. *)
Definition insightsPrompt (codebaseAnalysis : json) : string :=
  JS.join nl
      [ EmptyString;
        "En tant qu'architecte logiciel expert, génère des insights architecturaux pour l'application AGVES.";
        EmptyString;
        "ANALYSE DE LA CODEBASE:";
        JSON_stringify codebaseAnalysis;
        EmptyString;
        "CONTEXTE:";
        "- Application: Entity-driven architecture";
        "- Stack: Next.js 15 + Laravel 11";
        "- Date: Juin 2025";
        "- Philosophie: Laravel-confident development";
        EmptyString;
        "GÉNÈRE:";
        "1. **Patterns architecturaux émergents** identifiés";
        "2. **Opportunités d'amélioration** concrètes";
        "3. **Bonnes pratiques observées** dans le code";
        "4. **Recommandations d'évolution** pour 2025-2026";
        "5. **Points d'attention** pour la scalabilité";
        EmptyString;
        "FORMAT: Markdown style Laravel docs, avec des exemples de code quand pertinent.";
        EmptyString;
        "Focus sur la VALEUR BUSINESS et les décisions techniques pragmatiques.";
        "    " ].

Definition generateArchitectureInsights (fuel : nat) : Eff State (option string) :=
  callClaude fuel (insightsPrompt analyzeFullCodebase).

(** [generatePerformanceRecommendations()]. *)
Definition performancePrompt : string :=
  JS.join nl
      [ EmptyString;
        "En tant qu'expert performance, génère des recommandations pour optimiser l'application AGVES.";
        EmptyString;
        "STACK TECHNIQUE:";
        "- Frontend: Next.js 15, React 19, TypeScript strict";
        "- State: React Query, InversifyJS DI";
        "- UI: Material-UI, TailwindCSS  ";
        "- Backend: Laravel API";
        "- Architecture: Entity-driven";
        EmptyString;
        "CONTEXTE 2025:";
        "- Node.js 22 disponible";
        "- React 19 avec nouveaux hooks";
        "- Next.js 15 avec App Router stable";
        EmptyString;
        "GÉNÈRE des recommandations pour:";
        EmptyString;
        "1. **Optimisations Frontend**";
        "   - Bundle optimization avec Next.js 15";
        "   - Lazy loading intelligent";
        "   - React 19 specific optimizations";
        EmptyString;
        "2. **Patterns de Cache Efficaces**";
        "   - React Query advanced patterns";
        "   - API caching strategies";
        "   - Static generation optimizations";
        EmptyString;
        "3. **Optimisations de Requêtes**";
        "   - Entity relationship loading";
        "   - API response optimization";
        "   - Database query patterns";
        EmptyString;
        "4. **Monitoring et Observabilité**";
        "   - Performance metrics";
        "   - Error tracking";
        "   - User experience monitoring";
        EmptyString;
        "FORMAT: Style Laravel docs, avec du code TypeScript/React concret et moderne.";
        "    " ].

Definition generatePerformanceRecommendations (fuel : nat) : Eff State (option string) :=
  callClaude fuel performancePrompt.

(** [enhanceArchitectureOverview(insights)]; [None] is [null]. *)
Definition enhanceArchitectureOverview (insights : option string) : Eff State unit :=
  match insights with
  | Some (String c text) =>
      let overviewPath := "architecture/overview.mdx" in
      let! found := existsSync overviewPath in
      if found then
        let! currentContent := readFileSync overviewPath in
        let enhancedContent :=
          currentContent +:+ (nl +:+ nl +:+ "## AI-Generated Insights" +:+ nl +:+ nl) +:+
          String c text in
        writeFileSync overviewPath enhancedContent >>
        console_log "✅ Enhanced architecture overview with AI insights"
      else ret tt
  | _ => ret tt
  end.

(** [addPerformanceSection(recommendations)]. *)
Definition perfContent (date recommendations : string) : string :=
  JS.join nl
      [ "---";
        "title: " +:+ dq +:+ "Performance Recommendations" +:+ dq;
        "description: " +:+ dq +:+ "AI-generated performance optimization recommendations for AGVES" +:+ dq;
        "---";
        EmptyString;
        "# Performance Optimization Guide";
        EmptyString;
        "*AI-generated recommendations based on codebase analysis - " +:+ date +:+ "*";
        EmptyString;
        recommendations;
        EmptyString ].

Definition addPerformanceSection (recommendations : option string) : Eff State unit :=
  match recommendations with
  | Some (String c text) =>
      writeFileSync "architecture/performance.mdx"
        (perfContent (locale_date out) (String c text)) >>
      console_log "✅ Created AI-generated performance recommendations"
  | _ => ret tt
  end.

(** [updateOverviewPages()]. *)
Definition updateOverviewPages (fuel : nat) : Eff State unit :=
  console_log "📊 Updating overview pages with AI insights..." >>
  let! insights := generateArchitectureInsights fuel in
  (match insights with
   | Some (String c text) => enhanceArchitectureOverview insights
   | _ => ret tt
   end) >>
  let! recommendations := generatePerformanceRecommendations fuel in
  match recommendations with
  | Some (String c text) => addPerformanceSection recommendations
  | _ => ret tt
  end.

(** [enhanceDocumentation()]. *)
Definition enhanceDocumentation (fuel : nat) (this : Enhancer) : Eff State unit :=
  console_log "🎯 Starting AI-powered documentation enhancement..." >>
  try_catch
    (testConnection >>
     (if typesChanged this then updateApiDocumentation else ret tt) >>
     for_each (enhanceModuleDocumentation fuel) (changedModules this) >>
     updateOverviewPages fuel >>
     console_log "✅ AI enhancement completed successfully!")
    (λ error,
       console_error "❌ AI enhancement failed:" error >>
       throw error).

(** [main()] without [--test]; the caller prints what it rejects with. *)
Definition main (fuel : nat) (env : gmap string string) : Eff State unit :=
  try_catch
    (let! enhancer := constructor env in
     enhanceDocumentation fuel enhancer)
    (λ error, console_error EmptyString error).

End Run.

End Enhancer.

(** ** The documentation generator *)

Module Generator.

(** An element of [config.modules]. *)
Record ModuleDescriptor := mkModule {
  name : string;
  entities : list string;
  hasServices : bool;
  hasTests : bool
}.

Record Config := mkConfig {
  srcPath : string;
  docsPath : string;
  modules : list ModuleDescriptor
}.

(** The constant [config] of the script. *)
Definition default_config : Config :=
  mkConfig "../../agves_app/src" "."
    [ mkModule "authorization" ["permission"; "role"] true true;
      mkModule "financial" ["account"; "transaction"] false false;
      mkModule "identity"
        ["identity"; "identity-phone"; "identity-street"; "identity-property"] false false;
      mkModule "sales"
        ["attribute"; "attribute-category"; "attribute-value";
         "cart"; "cart-item"; "customer"; "order";
         "product"; "service"; "shop"; "shop-item"; "shop-item-category"] false false;
      mkModule "school" ["school-class"; "student"] false false ].

Inductive Event : Type :=
| ConsoleLog (line : string)
| ConsoleError (label : string) (error : string).

(** The documentation tree (files and directories by path), the console
    and the exit code once [process.exit] was called.  Writing a file and
    creating a directory always succeed. *)
Record State := mkState {
  files : gmap string string;
  dirs : gset string;
  events : list Event;
  exitCode : option nat
}.

Definition emit (e : Event) (st : State) : State :=
  mkState (files st) (dirs st) (events st ++ [e]) (exitCode st).
Definition set_files (f : gmap string string → gmap string string) (st : State) : State :=
  mkState (f (files st)) (dirs st) (events st) (exitCode st).
Definition set_dirs (f : gset string → gset string) (st : State) : State :=
  mkState (files st) (f (dirs st)) (events st) (exitCode st).
Definition set_exitCode (c : nat) (st : State) : State :=
  mkState (files st) (dirs st) (events st) (Some c).

Definition console_log (line : string) : Eff State unit := modify (emit (ConsoleLog line)).
Definition console_error (label error : string) : Eff State unit :=
  modify (emit (ConsoleError label error)).

(** [path.join(base, rel)] for the base ['.'] of the script and for a
    plain directory name. *)
Definition path_join (base rel : string) : string :=
  if decide (base = ".") then rel else base +:+ "/" +:+ rel.

Definition existsSync (p : string) : Eff State bool :=
  gets (λ st, bool_decide (p ∈ dirs st ∨ is_Some (files st !! p))).

(** The directories above [p]: what [mkdirSync(p, {recursive: true})]
    creates on the way. *)
Fixpoint prefixes (above : option string) (segments : list string) : list string :=
  match segments with
  | [] | [_] => []
  | s :: rest =>
      let here := match above with
                  | Some a => a +:+ "/" +:+ s
                  | None => s
                  end in
      here :: prefixes (Some here) rest
  end.

Definition ancestors (p : string) : list string :=
  filter (λ a, JS.truthy a = true) (prefixes None (JS.split "/" p)).

Definition mkdirSync_recursive (p : string) : Eff State unit :=
  modify (set_dirs (λ d, d ∪ list_to_set (ancestors p) ∪ {[ p ]})).

Definition writeFileSync (p data : string) : Eff State unit :=
  modify (set_files (insert p data)).

Fixpoint for_each {A} (f : A → Eff State unit) (l : list A) : Eff State unit :=
  match l with
  | [] => ret tt
  | x :: rest => f x >> for_each f rest
  end.

(** [entities[0]] inside a template literal: [undefined] prints as such. *)
Definition entity0 (module : ModuleDescriptor) : string :=
  match entities module with
  | e :: _ => e
  | [] => "undefined"
  end.

(** [entity.split('-').map(word => word.charAt(0).toUpperCase() +
    word.slice(1)).join(' ')]. *)
Definition displayName (entity : string) : string :=
  JS.join " " (JS.capitalize <$> JS.split "-" entity).

(** [getModuleIcon(moduleName)], for module names that are not properties
    of [Object.prototype]. *)
Definition getModuleIcon (moduleName : string) : string :=
  if decide (moduleName = "authorization") then "lock"
  else if decide (moduleName = "financial") then "credit-card"
  else if decide (moduleName = "identity") then "user"
  else if decide (moduleName = "sales") then "shopping-cart"
  else if decide (moduleName = "school") then "graduation-cap"
  else "puzzle-piece".

(** *** The pages that do not depend on the configuration *)

Definition architectureOverview : string :=
  JS.join nl
      [ "---";
        "title: " +:+ dq +:+ "Architecture Overview" +:+ dq;
        "description: " +:+ dq +:+ "High-level overview of the AGVES application architecture and design principles" +:+ dq;
        "---";
        EmptyString;
        "## Architecture Philosophy";
        EmptyString;
        "AGVES follows an **entity-driven architecture** that prioritizes:";
        EmptyString;
        "- **Business Logic Clarity**: Each entity encapsulates its domain logic";
        "- **Type Safety**: End-to-end TypeScript with Laravel-generated types";
        "- **Loose Coupling**: Dependency injection for service management";
        "- **Event-Driven Communication**: Reactive updates across the system";
        EmptyString;
        "## System Components";
        EmptyString;
        "<CardGroup cols={2}>";
        "  <Card title=" +:+ dq +:+ "Frontend (Next.js 15)" +:+ dq +:+ " icon=" +:+ dq +:+ "react" +:+ dq +:+ ">";
        "    - App Router with dynamic routing";
        "    - Entity-aware components";
        "    - Real-time form validation";
        "    - Multi-language support";
        "  </Card>";
        "  <Card title=" +:+ dq +:+ "Backend (Laravel)" +:+ dq +:+ " icon=" +:+ dq +:+ "server" +:+ dq +:+ ">";
        "    - RESTful API endpoints";
        "    - Type generation for frontend";
        "    - Role-based authorization";
        "    - Event broadcasting";
        "  </Card>";
        "</CardGroup>";
        EmptyString;
        "## Key Design Patterns";
        EmptyString;
        "### Entity-Driven Development";
        "Every business concept is modeled as an entity with:";
        "- Standardized CRUD operations";
        "- Automatic form generation";
        "- Relationship management";
        "- Internationalization support";
        EmptyString;
        "### Dependency Injection";
        "Services are managed through InversifyJS container for:";
        "- Testability and mocking";
        "- Environment-specific implementations";
        "- Loose coupling between components";
        EmptyString;
        "### Event-Driven Architecture";
        "Events flow through the system to:";
        "- Maintain data consistency";
        "- Enable reactive UI updates";
        "- Decouple business logic";
        EmptyString;
        "## Module Structure";
        EmptyString;
        "Each business module follows a consistent pattern:";
        EmptyString;
        "```";
        "modules/[module]/";
        "├── [module].tsx           # Module configuration";
        "├── index.tsx              # Exports";
        "├── entities/              # Entity definitions";
        "├── i18n/                  # Translations";
        "├── services/              # Business logic (optional)";
        "└── __tests__/             # Tests (optional)";
        "```";
        EmptyString;
        "## Next Steps";
        EmptyString;
        "Explore specific architectural components:";
        "- [Entity System](/architecture/entity-system)";
        "- [Dependency Injection](/architecture/dependency-injection)";
        "- [Event System](/architecture/event-system)";
        "- [Internationalization](/architecture/internationalization)";
        EmptyString ].

Definition diDoc : string :=
  JS.join nl
      [ "---";
        "title: " +:+ dq +:+ "Dependency Injection" +:+ dq;
        "description: " +:+ dq +:+ "InversifyJS container setup for service management and loose coupling" +:+ dq;
        "---";
        EmptyString;
        "## Overview";
        EmptyString;
        "The application uses **InversifyJS** for dependency injection, providing a clean way to manage services and maintain loose coupling between components.";
        EmptyString;
        "## Container Setup";
        EmptyString;
        "The DI container is configured in `/lib/implementations/next/container/`:";
        EmptyString;
        "```typescript";
        "// lib/implementations/next/container/container-singleton.ts";
        "import { Container } from 'inversify';";
        EmptyString;
        "const container = new Container();";
        EmptyString;
        "// Service registrations";
        "container.bind('ApiService').to(ApiService);";
        "container.bind('EventService').to(EventService);";
        "container.bind('AuthorizationService').to(AuthorizationService);";
        EmptyString;
        "export { container };";
        "```";
        EmptyString;
        "## Using Services";
        EmptyString;
        "Services are accessed through custom hooks:";
        EmptyString;
        "```typescript";
        "import { useContainer } from '@/lib/implementations/next/hooks/container/container';";
        EmptyString;
        "export const useAuthorizationService = () => {";
        "  const container = useContainer();";
        "  return container.get<AuthorizationService>('AuthorizationService');";
        "};";
        "```";
        EmptyString;
        "## Benefits";
        EmptyString;
        "- **Testability**: Easy mocking for tests";
        "- **Flexibility**: Environment-specific implementations";
        "- **Loose Coupling**: Interface-based dependencies";
        EmptyString ].

Definition componentsOverview : string :=
  JS.join nl
      [ "---";
        "title: " +:+ dq +:+ "Components Overview" +:+ dq;
        "description: " +:+ dq +:+ "Reusable UI components and their usage patterns" +:+ dq;
        "---";
        EmptyString;
        "## Component Architecture";
        EmptyString;
        "The application uses a layered component architecture:";
        EmptyString;
        "```";
        "components/                           # Shared components";
        "lib/implementations/next/components/  # Next.js specific components";
        "app/[locale]/components/             # App-specific components";
        "```";
        EmptyString;
        "## Core Component Categories";
        EmptyString;
        "### Entity Components";
        "Specialized components for entity operations:";
        EmptyString;
        "```typescript";
        "// Auto-generated forms";
        "<EntityFormComponent ";
        "  entityName=" +:+ dq +:+ "permission" +:+ dq +:+ " ";
        "  moduleName=" +:+ dq +:+ "authorization" +:+ dq +:+ " ";
        "/>";
        EmptyString;
        "// Data tables with pagination";
        "<EntityDataTable ";
        "  entityName=" +:+ dq +:+ "role" +:+ dq +:+ " ";
        "  moduleName=" +:+ dq +:+ "authorization" +:+ dq +:+ " ";
        "/>";
        EmptyString;
        "// Field displays with proper formatting";
        "<EntityFieldsDisplay ";
        "  entity={roleData}";
        "  entityName=" +:+ dq +:+ "role" +:+ dq;
        "  moduleName=" +:+ dq +:+ "authorization" +:+ dq;
        "/>";
        "```";
        EmptyString;
        "### Form Components";
        "Located in `/lib/implementations/next/components/fields/` and `/inputs/`";
        EmptyString;
        "<CardGroup cols={2}>";
        "  <Card title=" +:+ dq +:+ "Field Components" +:+ dq +:+ ">";
        "    Display-only components for showing data with proper formatting";
        "  </Card>";
        "  <Card title=" +:+ dq +:+ "Input Components" +:+ dq +:+ ">";
        "    Interactive form input components with validation";
        "  </Card>";
        "</CardGroup>";
        EmptyString;
        "### Select Components";
        "Advanced select components with API integration:";
        EmptyString;
        "```typescript";
        "<Select";
        "  entityName=" +:+ dq +:+ "role" +:+ dq;
        "  moduleName=" +:+ dq +:+ "authorization" +:+ dq;
        "  multiple={false}";
        "  searchable={true}";
        "  placeholder=" +:+ dq +:+ "Select a role..." +:+ dq;
        "/>";
        "```";
        EmptyString;
        "## Best Practices";
        EmptyString;
        "### Component Naming";
        "- **Fields**: `[Type]Field.tsx` (e.g., `TextField.tsx`)";
        "- **Inputs**: `[Type]Input.tsx` (e.g., `TextInput.tsx`) ";
        "- **Entity Components**: `Entity[Purpose]Component.tsx`";
        EmptyString;
        "### Styling";
        "- Use **TailwindCSS** for utility-first styling";
        "- **Material-UI** components for complex interactions";
        "- Custom styles in `style.ts` files when needed";
        EmptyString ].

(** [generateEntityApiDoc(moduleName, entityName)]. *)
Definition generateEntityApiDoc (moduleName entityName : string) : string :=
  JS.join nl
      [ "---";
        "title: " +:+ dq +:+ displayName entityName +:+ dq;
        "api: " +:+ dq +:+ "GET /api/" +:+ moduleName +:+ "/" +:+ entityName +:+ dq;
        "description: " +:+ dq +:+ "Manage " +:+ JS.toLowerCase (displayName entityName) +:+ " in the " +:+ JS.capitalize moduleName +:+ " module" +:+ dq;
        "---";
        EmptyString;
        "## Overview";
        EmptyString;
        "The " +:+ displayName entityName +:+ " API provides full CRUD operations for managing " +:+ JS.toLowerCase (displayName entityName) +:+ " entities within the " +:+ JS.capitalize moduleName +:+ " module.";
        EmptyString;
        "## List " +:+ displayName entityName;
        EmptyString;
        "<ParamField query=" +:+ dq +:+ "page" +:+ dq +:+ " type=" +:+ dq +:+ "integer" +:+ dq +:+ " default=" +:+ dq +:+ "1" +:+ dq +:+ ">";
        "  Page number for pagination";
        "</ParamField>";
        EmptyString;
        "<ParamField query=" +:+ dq +:+ "per_page" +:+ dq +:+ " type=" +:+ dq +:+ "integer" +:+ dq +:+ " default=" +:+ dq +:+ "15" +:+ dq +:+ ">";
        "  Number of items per page (max 100)";
        "</ParamField>";
        EmptyString;
        "<ParamField query=" +:+ dq +:+ "search" +:+ dq +:+ " type=" +:+ dq +:+ "string" +:+ dq +:+ ">";
        "  Search term to filter results";
        "</ParamField>";
        EmptyString;
        "<RequestExample>";
        EmptyString;
        "```bash cURL";
        "curl -X GET " +:+ dq +:+ "http://localhost:80/api/" +:+ moduleName +:+ "/" +:+ entityName +:+ dq +:+ " \";
        "  -H " +:+ dq +:+ "Authorization: Bearer {token}" +:+ dq +:+ " \";
        "  -H " +:+ dq +:+ "Accept: application/json" +:+ dq;
        "```";
        EmptyString;
        "```typescript React Hook";
        "import { useEntityQuery } from '@/lib/implementations/next/api/hooks/entity/query';";
        EmptyString;
        "function " +:+ JS.remove_spaces (displayName entityName) +:+ "List() {";
        "  const { data, isLoading, error } = useEntityQuery('" +:+ entityName +:+ "', '" +:+ moduleName +:+ "');";
        "  ";
        "  if (isLoading) return <div>Loading...</div>;";
        "  if (error) return <div>Error: {error.message}</div>;";
        "  ";
        "  return (";
        "    <div>";
        "      {data?.map(item => (";
        "        <div key={item.id}>{item.name}</div>";
        "      ))}";
        "    </div>";
        "  );";
        "}";
        "```";
        EmptyString;
        "</RequestExample>";
        EmptyString;
        "## Create " +:+ displayName entityName;
        EmptyString;
        "<ParamField body=" +:+ dq +:+ "name" +:+ dq +:+ " type=" +:+ dq +:+ "string" +:+ dq +:+ " required>";
        "  The name of the " +:+ JS.toLowerCase (displayName entityName);
        "</ParamField>";
        EmptyString;
        "<RequestExample>";
        EmptyString;
        "```typescript React Component";
        "import { EntityFormComponent } from '@/lib/implementations/next/components/entity';";
        EmptyString;
        "function Create" +:+ JS.remove_spaces (displayName entityName) +:+ "() {";
        "  return (";
        "    <EntityFormComponent ";
        "      entityName=" +:+ dq +:+ entityName +:+ dq +:+ " ";
        "      moduleName=" +:+ dq +:+ moduleName +:+ dq;
        "      mode=" +:+ dq +:+ "create" +:+ dq;
        "      onSuccess={(data) => console.log('Created:', data)}";
        "    />";
        "  );";
        "}";
        "```";
        EmptyString;
        "</RequestExample>";
        EmptyString;
        "## Frontend Components";
        EmptyString;
        "```typescript";
        "// Data table with pagination";
        "<EntityDataTable ";
        "  entityName=" +:+ dq +:+ entityName +:+ dq +:+ " ";
        "  moduleName=" +:+ dq +:+ moduleName +:+ dq +:+ " ";
        "/>";
        EmptyString;
        "// Form component";
        "<EntityFormComponent ";
        "  entityName=" +:+ dq +:+ entityName +:+ dq +:+ " ";
        "  moduleName=" +:+ dq +:+ moduleName +:+ dq;
        "  mode=" +:+ dq +:+ "create" +:+ dq;
        "/>";
        "```";
        EmptyString ].

(** *** The pages of one module *)

Definition entitySystemCard (module : ModuleDescriptor) : string :=
  JS.join nl
      [ "  <Card";
        "    title=" +:+ dq +:+ JS.capitalize (name module) +:+ dq;
        "    href=" +:+ dq +:+ "/modules/" +:+ name module +:+ dq;
        "  >";
        "    " +:+ JS.String_of_nat (length (entities module)) +:+ " entities: " +:+ JS.join ", " (take 3 (entities module)) +:+ (if 3 <? length (entities module) then "..." else EmptyString);
        "  </Card>" ].

Definition modulesOverviewCard (module : ModuleDescriptor) : string :=
  JS.join nl
      [ "  <Card";
        "    title=" +:+ dq +:+ JS.capitalize (name module) +:+ " Module" +:+ dq;
        "    href=" +:+ dq +:+ "/modules/" +:+ name module +:+ dq;
        "    icon=" +:+ dq +:+ getModuleIcon (name module) +:+ dq;
        "  >";
        "    " +:+ JS.String_of_nat (length (entities module)) +:+ " entities • " +:+ (if hasServices module then "Has services" else "No services") +:+ " • " +:+ (if hasTests module then "Has tests" else "No tests");
        "  </Card>" ].

Definition apiIntroductionCard (module : ModuleDescriptor) : string :=
  JS.join nl
      [ "  <Card";
        "    title=" +:+ dq +:+ JS.capitalize (name module) +:+ dq;
        "    href=" +:+ dq +:+ "/api-reference/" +:+ name module +:+ "/" +:+ entity0 module +:+ dq;
        "  >";
        "    " +:+ JS.String_of_nat (length (entities module)) +:+ " entities available";
        "  </Card>" ].

Definition moduleEntityCard (module : ModuleDescriptor) (entity : string) : string :=
  JS.join nl
      [ "  <Card";
        "    title=" +:+ dq +:+ displayName entity +:+ dq;
        "    href=" +:+ dq +:+ "/api-reference/" +:+ name module +:+ "/" +:+ entity +:+ dq;
        "  >";
        "    Manage " +:+ JS.toLowerCase (displayName entity) +:+ " operations";
        "  </Card>" ].

Definition servicesTree (module : ModuleDescriptor) : string :=
  JS.join nl
      [ EmptyString;
        "└── services/                  # Business logic services";
        "    └── " +:+ name module +:+ "-service.ts" ].

Definition testsTree : string :=
  JS.join nl
      [ EmptyString;
        "└── __tests__/                 # Module tests";
        "    └── service/" ].

Definition moduleDoc (module : ModuleDescriptor) : string :=
  JS.join nl
      [ "---";
        "title: " +:+ dq +:+ JS.capitalize (name module) +:+ " Module" +:+ dq;
        "description: " +:+ dq +:+ "Business logic and entities for " +:+ name module +:+ " management" +:+ dq;
        "---";
        EmptyString;
        "## Overview";
        EmptyString;
        "The " +:+ name module +:+ " module handles all " +:+ name module +:+ "-related business logic and provides the following entities:";
        EmptyString;
        "<CardGroup cols={2}>";
        JS.join nl (moduleEntityCard module <$> entities module);
        "</CardGroup>";
        EmptyString;
        "## Module Structure";
        EmptyString;
        "```";
        "modules/" +:+ name module +:+ "/";
        "├── " +:+ name module +:+ ".tsx              # Module configuration";
        "├── index.tsx                   # Module exports";
        "├── entities/                   # Entity definitions";
        JS.join nl ((λ entity, "│   ├── " +:+ entity +:+ ".tsx") <$> entities module);
        "├── i18n/                      # Internationalization";
        "│   ├── translations.ts        # Module translations";
        "│   └── entities/              # Entity translations";
        JS.join nl ((λ entity, "│       ├── " +:+ entity +:+ ".ts") <$> entities module) +:+ (if hasServices module then servicesTree module else EmptyString) +:+ (if hasTests module then testsTree else EmptyString);
        "```";
        EmptyString;
        "## Usage Examples";
        EmptyString;
        "### Querying Entities";
        "```typescript";
        "import { useEntityQuery } from '@/lib/implementations/next/api/hooks/entity/query';";
        EmptyString;
        "function " +:+ JS.capitalize (name module) +:+ "List() {";
        "  const { data: entities } = useEntityQuery('" +:+ entity0 module +:+ "', '" +:+ name module +:+ "');";
        "  ";
        "  return (";
        "    <div>";
        "      {entities?.map(entity => (";
        "        <div key={entity.id}>{entity.name}</div>";
        "      ))}";
        "    </div>";
        "  );";
        "}";
        "```";
        EmptyString;
        "### Creating Entities";
        "```typescript";
        "import { EntityFormComponent } from '@/lib/implementations/next/components/entity';";
        EmptyString;
        "function Create" +:+ JS.capitalize (name module) +:+ "() {";
        "  return (";
        "    <EntityFormComponent ";
        "      entityName=" +:+ dq +:+ entity0 module +:+ dq +:+ " ";
        "      moduleName=" +:+ dq +:+ name module +:+ dq;
        "      mode=" +:+ dq +:+ "create" +:+ dq;
        "    />";
        "  );";
        "}";
        "```";
        EmptyString;
        "## API Endpoints";
        EmptyString;
        "All entities in this module are available through RESTful endpoints:";
        EmptyString;
        "```bash";
        "GET    /api/" +:+ name module +:+ "/{entity}           # List entities";
        "POST   /api/" +:+ name module +:+ "/{entity}           # Create entity";
        "GET    /api/" +:+ name module +:+ "/{entity}/{id}      # Show entity";
        "PUT    /api/" +:+ name module +:+ "/{entity}/{id}      # Update entity";
        "DELETE /api/" +:+ name module +:+ "/{entity}/{id}      # Delete entity";
        "```";
        EmptyString;
        "## Related Documentation";
        EmptyString;
        "- [Entity System Architecture](/architecture/entity-system)";
        "- [API Reference](/api-reference/" +:+ name module +:+ "/" +:+ entity0 module +:+ ")";
        "- [Frontend Components](/components/overview)";
        EmptyString ].

(** *** Reading and updating [docs.json] *)

Fixpoint member (key : string) (members : list (string * json)) : option json :=
  match members with
  | [] => None
  | (k, v) :: rest => if decide (k = key) then Some v else member key rest
  end.

(** [object[key] = v]: an existing property keeps its place, a new one
    comes last. *)
Fixpoint set_member (key : string) (v : json) (members : list (string * json))
  : list (string * json) :=
  match members with
  | [] => [(key, v)]
  | (k, x) :: rest =>
      if decide (k = key) then (k, v) :: rest else (k, x) :: set_member key v rest
  end.

(** [tabs.find(tab => tab.tab === 'API Reference')]: the index of the
    first such element; reading [.tab] of [null] throws. *)
Fixpoint findApiTab (tabs : list json) : Outcome (option nat) :=
  match tabs with
  | [] => Returned None
  | JNull :: _ => Thrown "Cannot read properties of null (reading 'tab')"
  | tab :: rest =>
      let found :=
        match tab with
        | JObject ms =>
            match member "tab" ms with
            | Some (JString s) => bool_decide (s = "API Reference")
            | _ => false
            end
        | _ => false
        end in
      if found then Returned (Some 0)
      else match findApiTab rest with
           | Returned (Some i) => Returned (Some (S i))
           | r => r
           end
  end.

Section Generate.

Context (config : Config).
(** [JSON.parse(text)], [None] when it throws, and
    [JSON.stringify(value, null, 2)], of the JavaScript runtime. *)
Context (JSON_parse : string → option json).
Context (JSON_stringify : json → string).

(** [createDirectoryStructure()]. *)
Definition directories : list string :=
  ["architecture"; "frontend"; "backend"; "modules"; "components"; "testing";
   "api-reference"] ++
  concat ((λ module, ["modules/" +:+ name module; "api-reference/" +:+ name module])
            <$> modules config).

Definition createDirectoryStructure : Eff State unit :=
  for_each
    (λ dir,
       let fullPath := path_join (docsPath config) dir in
       let! found := existsSync fullPath in
       if found then ret tt else mkdirSync_recursive fullPath)
    directories.

(** *** The pages that list the modules *)

Definition entitySystemDoc : string :=
  JS.join nl
      [ "---";
        "title: " +:+ dq +:+ "Entity System" +:+ dq;
        "description: " +:+ dq +:+ "Understanding the entity-driven architecture and how entities are managed across the application" +:+ dq;
        "---";
        EmptyString;
        "## Overview";
        EmptyString;
        "The AGVES application is built around an **entity-driven architecture** where business logic is organized around entities with standardized patterns for CRUD operations, relationships, and event handling.";
        EmptyString;
        "## Entity Structure";
        EmptyString;
        "Every entity in the system follows a consistent pattern:";
        EmptyString;
        "```";
        "modules/[module]/";
        "├── entities/";
        "│   └── [entity-name].tsx     # Entity definition with fields, relationships";
        "├── i18n/";
        "│   └── entities/";
        "│       └── [entity-name].ts  # Translations for the entity";
        "└── services/                 # Optional business logic services";
        "```";
        EmptyString;
        "## Entity Definition Pattern";
        EmptyString;
        "```typescript";
        "// modules/authorization/entities/permission.tsx";
        "import { Entity } from '@/lib/entity/entity';";
        EmptyString;
        "export const PermissionEntity = Entity.create('permission', {";
        "  module: 'authorization',";
        "  fields: {";
        "    id: { type: 'number', primary: true },";
        "    name: { type: 'string', required: true },";
        "    description: { type: 'string', nullable: true },";
        "    module: { type: 'string', nullable: true }";
        "  },";
        "  relationships: {";
        "    roles: {";
        "      type: 'belongsToMany',";
        "      entity: 'role',";
        "      module: 'authorization'";
        "    }";
        "  }";
        "});";
        "```";
        EmptyString;
        "## Available Modules";
        EmptyString;
        "<CardGroup cols={2}>";
        JS.join nl (entitySystemCard <$> modules config);
        "</CardGroup>";
        EmptyString;
        "## Entity Features";
        EmptyString;
        "### Automatic API Integration";
        "All entities automatically get CRUD operations through the API service layer:";
        EmptyString;
        "```typescript";
        "const { data: permissions } = useEntityQuery('permission', 'authorization');";
        "```";
        EmptyString;
        "### Relationship Management";
        "Entities can define relationships that are automatically resolved:";
        EmptyString;
        "```typescript";
        "relationships: {";
        "  roles: {";
        "    type: 'belongsToMany',";
        "    entity: 'role',";
        "    module: 'authorization'";
        "  }";
        "}";
        "```";
        EmptyString;
        "### Form Generation";
        "Forms are automatically generated based on entity field definitions:";
        EmptyString;
        "```typescript";
        "<EntityFormComponent ";
        "  entityName=" +:+ dq +:+ "permission" +:+ dq +:+ " ";
        "  moduleName=" +:+ dq +:+ "authorization" +:+ dq +:+ " ";
        "/>";
        "```";
        EmptyString;
        "### Internationalization";
        "All entity fields and labels are automatically translated:";
        EmptyString;
        "```typescript";
        "// i18n/entities/permission.ts";
        "export default {";
        "  fields: {";
        "    name: 'Nom',";
        "    description: 'Description'";
        "  }";
        "};";
        "```";
        EmptyString;
        "## Next Steps";
        EmptyString;
        "- Learn about [Dependency Injection](/architecture/dependency-injection)";
        "- Explore [Event System](/architecture/event-system)";
        "- See [Module Examples](/modules/overview)";
        EmptyString ].

Definition modulesOverview : string :=
  JS.join nl
      [ "---";
        "title: " +:+ dq +:+ "Business Modules Overview" +:+ dq;
        "description: " +:+ dq +:+ "Overview of the business modules that make up the AGVES application" +:+ dq;
        "---";
        EmptyString;
        "## Module Architecture";
        EmptyString;
        "The AGVES application is organized into **" +:+ JS.String_of_nat (length (modules config)) +:+ " core business modules**, each handling specific domain logic:";
        EmptyString;
        "<CardGroup cols={2}>";
        JS.join nl (modulesOverviewCard <$> modules config);
        "</CardGroup>";
        EmptyString;
        "## Common Module Patterns";
        EmptyString;
        "All modules follow a consistent structure that promotes:";
        EmptyString;
        "### Standardized Organization";
        "```";
        "modules/[module]/";
        "├── [module].tsx           # Module configuration";
        "├── index.tsx              # Module exports";
        "├── entities/              # Entity definitions";
        "├── i18n/                  # Internationalization";
        "├── services/              # Business logic (optional)";
        "└── __tests__/             # Module tests (optional)";
        "```";
        EmptyString;
        "### Automatic API Integration";
        "Each module automatically exposes RESTful endpoints:";
        "- **GET** `/api/{module}/{entity}` - List entities";
        "- **POST** `/api/{module}/{entity}` - Create entity";
        "- **GET** `/api/{module}/{entity}/{id}` - Show specific entity";
        "- **PUT** `/api/{module}/{entity}/{id}` - Update entity";
        "- **DELETE** `/api/{module}/{entity}/{id}` - Delete entity";
        EmptyString;
        "### Entity Relationships";
        "Modules can define relationships between entities:";
        "- Within the same module";
        "- Cross-module relationships";
        "- Many-to-many associations";
        "- Polymorphic relationships";
        EmptyString;
        "## Module Details";
        EmptyString;
        "Click on any module above to see:";
        "- Complete entity documentation";
        "- API reference with examples";
        "- Usage patterns and best practices";
        "- Type definitions and relationships";
        EmptyString;
        "## Development Workflow";
        EmptyString;
        "### Adding New Modules";
        "1. Create module structure in `/src/modules/[name]/`";
        "2. Define entities with fields and relationships";
        "3. Add internationalization files";
        "4. Register module in the application";
        "5. Generate documentation with `npm run generate:docs`";
        EmptyString;
        "### Cross-Module Integration";
        "Modules can interact through:";
        "- **Shared services** via dependency injection";
        "- **Event system** for reactive updates";
        "- **Entity relationships** for data modeling";
        "- **Authorization** for access control";
        EmptyString ].

Definition apiIntroduction : string :=
  JS.join nl
      [ "---";
        "title: " +:+ dq +:+ "API Introduction" +:+ dq;
        "description: " +:+ dq +:+ "Introduction to the AGVES API and authentication" +:+ dq;
        "---";
        EmptyString;
        "## Overview";
        EmptyString;
        "The AGVES API provides RESTful endpoints for all business entities across " +:+ JS.String_of_nat (length (modules config)) +:+ " modules. All endpoints follow consistent patterns for CRUD operations, pagination, and relationship loading.";
        EmptyString;
        "## Base URL";
        EmptyString;
        "```";
        "http://localhost:80/api";
        "```";
        EmptyString;
        "## Authentication";
        EmptyString;
        "All API endpoints require authentication via Bearer token:";
        EmptyString;
        "```bash";
        "Authorization: Bearer {your-token}";
        "```";
        EmptyString;
        "## Common Patterns";
        EmptyString;
        "### List Endpoints";
        "All list endpoints support:";
        "- **Pagination**: `?page=1&per_page=15`";
        "- **Search**: `?search=term`";
        "- **Relationships**: `?include=relationship1,relationship2`";
        EmptyString;
        "### Response Format";
        "All responses follow a consistent format:";
        EmptyString;
        "```json";
        "{";
        "  " +:+ dq +:+ "data" +:+ dq +:+ ": [...],";
        "  " +:+ dq +:+ "meta" +:+ dq +:+ ": {";
        "    " +:+ dq +:+ "current_page" +:+ dq +:+ ": 1,";
        "    " +:+ dq +:+ "per_page" +:+ dq +:+ ": 15,";
        "    " +:+ dq +:+ "total" +:+ dq +:+ ": 100";
        "  }";
        "}";
        "```";
        EmptyString;
        "## Available Modules";
        EmptyString;
        "<CardGroup cols={2}>";
        JS.join nl (apiIntroductionCard <$> modules config);
        "</CardGroup>";
        EmptyString ].

(** [generateArchitectureDocs()]. *)
Definition generateArchitectureDocs : Eff State unit :=
  writeFileSync (path_join (docsPath config) "architecture/overview.mdx")
                architectureOverview >>
  writeFileSync (path_join (docsPath config) "architecture/entity-system.mdx")
                entitySystemDoc >>
  writeFileSync (path_join (docsPath config) "architecture/dependency-injection.mdx")
                diDoc.

(** [generateModuleDocs()]. *)
Definition generateModuleDocs : Eff State unit :=
  writeFileSync (path_join (docsPath config) "modules/overview.mdx") modulesOverview >>
  for_each
    (λ module,
       writeFileSync (path_join (docsPath config) ("modules/" +:+ name module +:+ ".mdx"))
                     (moduleDoc module))
    (modules config).

(** [generateComponentDocs()]. *)
Definition generateComponentDocs : Eff State unit :=
  writeFileSync (path_join (docsPath config) "components/overview.mdx") componentsOverview.

(** [generateApiReference()]. *)
Definition generateApiReference : Eff State unit :=
  writeFileSync (path_join (docsPath config) "api-reference/introduction.mdx")
                apiIntroduction >>
  for_each
    (λ module,
       for_each
         (λ entity,
            let apiDoc := generateEntityApiDoc (name module) entity in
            let filePath :=
              path_join (docsPath config)
                ("api-reference/" +:+ name module +:+ "/" +:+ entity +:+ ".mdx") in
            writeFileSync filePath apiDoc)
         (entities module))
    (modules config).

(** The value assigned to [apiTab.groups]. *)
Definition apiGroups : json :=
  JArray
    (JObject [ ("group", JString "API Documentation");
               ("pages", JArray [ JString "api-reference/introduction";
                                  JString "api-reference/authentication" ]) ]
     :: ((λ module,
            JObject [ ("group", JString (JS.capitalize (name module)));
                      ("pages",
                       JArray ((λ entity,
                                  JString ("api-reference/" +:+ name module +:+ "/" +:+ entity))
                               <$> entities module)) ])
         <$> modules config)).

(** The effect of [docsConfig.navigation.tabs.find(...)] followed by
    [apiTab.groups = ...] on the parsed [docsConfig]: the configuration
    with the groups of its first API Reference tab replaced, [None] when
    there is no such tab; a [TypeError] when [docsConfig.navigation] or
    its [tabs] cannot be read or [tabs] is not an array. *)
Definition updateNavigation (docsConfig : json) : Outcome (option json) :=
  match docsConfig with
  | JObject ms =>
      match member "navigation" ms with
      | Some (JObject nav) =>
          match member "tabs" nav with
          | Some (JArray tabs) =>
              match findApiTab tabs with
              | Returned (Some i) =>
                  match tabs !! i with
                  | Some (JObject tab) =>
                      let tab' := JObject (set_member "groups" apiGroups tab) in
                      let nav' := set_member "tabs" (JArray (<[i := tab']> tabs)) nav in
                      Returned (Some (JObject (set_member "navigation" (JObject nav') ms)))
                  | _ => Returned None
                  end
              | Returned None => Returned None
              | Thrown e => Thrown e
              | Unfinished => Unfinished
              end
          | Some JNull => Thrown "Cannot read properties of null (reading 'find')"
          | Some _ => Thrown "docsConfig.navigation.tabs.find is not a function"
          | None => Thrown "Cannot read properties of undefined (reading 'find')"
          end
      | Some JNull => Thrown "Cannot read properties of null (reading 'tabs')"
      | Some _ => Thrown "Cannot read properties of undefined (reading 'find')"
      | None => Thrown "Cannot read properties of undefined (reading 'tabs')"
      end
  | JNull => Thrown "Cannot read properties of null (reading 'navigation')"
  | _ => Thrown "Cannot read properties of undefined (reading 'tabs')"
  end.

(** [updateDocsConfig()]. *)
Definition updateDocsConfig : Eff State unit :=
  let docsConfigPath := path_join (docsPath config) "docs.json" in
  let! text := gets (λ st, files st !! docsConfigPath) in
  match text ≫= JSON_parse with
  | None => console_log "⚠️ Could not read docs.json, skipping navigation update"
  | Some docsConfig =>
      match updateNavigation docsConfig with
      | Returned (Some docsConfig') =>
          writeFileSync docsConfigPath (JSON_stringify docsConfig') >>
          console_log "✅ Updated docs.json navigation with generated API pages"
      | Returned None => console_log "⚠️ API Reference tab not found in docs.json"
      | Thrown e => throw e
      | Unfinished => unfinished
      end
  end.

(** [generateAllDocs()]. *)
Definition generateAllDocs : Eff State unit :=
  console_log "🚀 Starting documentation generation..." >>
  try_catch
    (createDirectoryStructure >>
     generateArchitectureDocs >>
     generateModuleDocs >>
     generateComponentDocs >>
     generateApiReference >>
     updateDocsConfig >>
     console_log "✅ Documentation generation completed successfully!" >>
     console_log "📚 Run `mintlify dev` to preview your documentation")
    (λ error,
       console_error "❌ Error generating documentation:" error >>
       modify (set_exitCode 1)).

End Generate.

End Generator.

(** ** Notions used in the statements *)

(** No occurrence of [sep] starts inside [pre] when [s] follows it. *)
Definition starts_nowhere (sep pre s : string) : Prop :=
  ∀ a b, pre = a +:+ b → b ≠ EmptyString → JS.startsWith sep (b +:+ s) = false.

(** *** The change watcher *)

Module WatcherSpec.
Import Watcher.

#[global] Instance Event_eq_dec : EqDecision Event.
Proof. solve_decision. Defined.

(** The modules of [filePaths]: the names cut out of the paths that contain
    [/modules/]. *)
Definition from_module (filePaths : list string) (m : string) : Prop :=
  ∃ p, p ∈ filePaths ∧ JS.includes "/modules/" p = true ∧ moduleNameOf p = Some m.

(** The first lines printed by [quickUpdate] and [aiEnhancedUpdate], and
    the commands that regenerate and that enhance. *)
Definition quick_line : string := "⚡ Running quick documentation update...".
Definition ai_line : string := "🤖 Running AI-enhanced documentation update...".
Definition generate_cmd : string := "node scripts/generate-docs.js".
Definition enhance_cmd : string := "node scripts/enhance-with-ai.js".

Definition quick_marker : Event := ConsoleLog quick_line.
Definition ai_marker : Event := ConsoleLog ai_line.
Definition generate_run : Event := ExecRun generate_cmd.
Definition enhance_run : Event := ExecRun enhance_cmd.

(** An event that belongs to neither the start nor the command of the AI
    step. *)
Definition not_ai (e : Event) : Prop := e ≠ ai_marker ∧ e ≠ enhance_run.

(** The lines that open and close a batch. *)
Definition processing_line (n : nat) : string :=
  "🔄 Processing " +:+ JS.String_of_nat n +:+ " accumulated changes...".
Definition success_line : string := "✅ Documentation updated successfully".

(** The state in which the steps of a batch start, and the state a batch
    ends in when its steps end in [st]. *)
Definition batch_start (st : State) : State :=
  emit (ConsoleLog (processing_line (length (pendingChanges st))))
       (set_pendingChanges (λ _, []) (set_isProcessing true st)).

Definition batch_end (st : State) : State :=
  set_isProcessing false (emit (ConsoleLog success_line) st).

(** A notification for [p] was handled among [evs]. *)
Definition delivered (p : string) (evs : list Event) : Prop :=
  ConsoleLog ("📝 File changed: " +:+ p) ∈ evs ∨
  ConsoleLog ("🗑️ File deleted: " +:+ p) ∈ evs.

(** What one or more steps of the updater may do to its state: print and
    run things that satisfy [E], and add to the pending set the paths whose
    notifications were handled. *)
Record frame (E : Event → Prop) (st st' : State) : Prop := mkFrame {
  frame_events :
    ∃ evs, events st' = events st ++ evs ∧ Forall E evs ∧
           ∀ p, p ∈ pendingChanges st' → p ∈ pendingChanges st ∨ delivered p evs;
  frame_threshold : aiUpdateThreshold st' = aiUpdateThreshold st;
  frame_processing : isProcessing st' = isProcessing st;
  frame_env : env st' = env st
}.

(** A computation that finishes (returns or throws) within a frame, and
    one that returns within a frame. *)
Definition safe (E : Event → Prop) {A} (m : Eff State A) : Prop :=
  ∀ st, ∃ r st', m st = (r, st') ∧ r ≠ Unfinished ∧ frame E st st'.

Definition total (E : Event → Prop) (m : Eff State unit) : Prop :=
  ∀ st, ∃ st', m st = (Returned tt, st') ∧ frame E st st'.

(** The [try] statements of [quickUpdate] and [aiEnhancedUpdate], which
    follow their first line. *)
Definition quickUpdate_try (out : Outside) (analysis : Analysis) : Eff State unit :=
  try_catch
    ((if types analysis then execAsync out "npm run sync:types" >> ret tt else ret tt) >>
     execAsync out "node scripts/generate-docs.js" >>
     commitChanges out "📝 Quick docs update" analysis)
    (λ error, console_error "❌ Quick update failed:" error).

Definition aiEnhancedUpdate_try (out : Outside) (analysis : Analysis) : Eff State unit :=
  try_catch
    (let! anthropic := gets (env_truthy "ANTHROPIC_API_KEY") in
     let! openai := gets (env_truthy "OPENAI_API_KEY") in
     if negb anthropic && negb openai then
       console_log "⚠️ No AI API keys found, skipping AI enhancement"
     else
       modify (set_env (insert "CHANGED_MODULES" (JS.join nl (modules analysis)))) >>
       modify (set_env (insert "TYPES_CHANGED"
                          (if types analysis then "true" else EmptyString))) >>
       execAsync out "node scripts/enhance-with-ai.js" >>
       commitChanges out "🤖 AI-enhanced docs update" analysis)
    (λ error, console_error "❌ AI enhancement failed:" error).

(** What [aiEnhancedUpdate] does once it has found a key and set the two
    variables, and the environment it has set then. *)
Definition enhance_and_commit (out : Outside) (analysis : Analysis) : Eff State unit :=
  try_catch
    (execAsync out "node scripts/enhance-with-ai.js" >>
     commitChanges out "🤖 AI-enhanced docs update" analysis)
    (λ error, console_error "❌ AI enhancement failed:" error).

Definition enhancer_env (analysis : Analysis) (e : gmap string string) : gmap string string :=
  <["TYPES_CHANGED" := if types analysis then "true" else EmptyString]>
    (<["CHANGED_MODULES" := JS.join nl (modules analysis)]> e).

Definition no_api_key (st : State) : bool :=
  negb (env_truthy "ANTHROPIC_API_KEY" st) && negb (env_truthy "OPENAI_API_KEY" st).

(** Two states of the updater that differ in their pending sets only. *)
Definition same_but_pending (st1 st2 : State) : Prop :=
  isProcessing st1 = isProcessing st2 ∧ aiUpdateThreshold st1 = aiUpdateThreshold st2 ∧
  env st1 = env st2 ∧ events st1 = events st2 ∧ ticks st1 = ticks st2.

(** The text of an event, as the console or the shell shows it. *)
Definition event_text (e : Event) : string :=
  match e with
  | ConsoleLog line => line
  | ConsoleError label error => label +:+ " " +:+ error
  | ExecRun cmd => cmd
  end.

(** A message printed by [console.error]. *)
Definition is_error (e : Event) : bool :=
  match e with
  | ConsoleError _ _ => true
  | _ => false
  end.

(** *** Concrete runs *)

(** A world in which the regeneration command fails and every other
    command succeeds with an empty output, and one in which every command
    succeeds and [git status] reports a change. *)
Definition failing_outside : Outside :=
  mkOutside
    (λ _ cmd, mkExecReply (if decide (cmd = generate_cmd)
                           then Rejected "boom" else Resolved EmptyString) [])
    (λ _, "2025-06-01T00:00:00.000Z").

Definition working_outside : Outside :=
  mkOutside (λ _ cmd, mkExecReply (Resolved " M modules/sales.mdx") [])
            (λ _, "2025-06-01T00:00:00.000Z").

(** An updater with an API key and one, two or three pending paths. *)
Definition with_pending (paths : list string) : State :=
  mkState paths false 3 {[ "ANTHROPIC_API_KEY" := "sk-test" ]} [] 0.

Definition one_change : State := with_pending ["src/lib/api.ts"].
Definition two_changes : State :=
  with_pending ["src/lib/api.ts"; "src/modules/sales/entities/order.tsx"].
Definition three_changes : State :=
  with_pending ["src/lib/api.ts"; "src/modules/sales/entities/order.tsx";
                "src/components/Button.tsx"].

End WatcherSpec.

(** *** The AI enhancer *)

Module EnhancerSpec.
Import Enhancer.

#[global] Instance Request_eq_dec : EqDecision Request.
Proof. solve_decision. Defined.

(** The request [callClaude] sends for a prompt. *)
Definition claude_request (prompt : string) : Request :=
  mkRequest "claude-3-5-sonnet-20241022" 4000 (Some "0.3") prompt.

(** [response.content[0].text] of a reply, [None] where [callClaude]
    returns [null]. *)
Definition reply_text (reply : ApiReply) : option string :=
  match reply with
  | ApiMessage (text :: _) => Some text
  | _ => None
  end.

(** The requests sent, the waits and the files written among some events. *)
Definition requests_of (evs : list Event) : list Request :=
  omap (λ e, match e with ApiCall r => Some r | _ => None end) evs.

Definition sleeps_of (evs : list Event) : list N :=
  omap (λ e, match e with Sleep ms => Some ms | _ => None end) evs.

Definition writes_of (evs : list Event) : list (string * string) :=
  omap (λ e, match e with WriteFile p data => Some (p, data) | _ => None end) evs.

(** The [n]-th request is answered by a rate-limit error. *)
Definition rate_limited (out : Outside) (n : nat) (request : Request) : Prop :=
  status_of out n request = Some 429.

(** The state in which [callClaude] calls itself after a rate-limit error
    with the given message. *)
Definition after_rate_limit (request : Request) (message : string) (st : State) : State :=
  emit (Sleep 60000%N)
    (emit (ConsoleLog "⏸️ Rate limited, waiting 60 seconds...")
       (emit (ConsoleError "❌ Claude API call failed:" message)
          (count_call (emit (ApiCall request) st)))).

(** The state after a request that was answered, and after one that failed
    otherwise. *)
Definition after_answer (request : Request) (st : State) : State :=
  count_call (emit (ApiCall request) st).

Definition after_failure (request : Request) (message : string) (st : State) : State :=
  emit (ConsoleError "❌ Claude API call failed:" message)
       (count_call (emit (ApiCall request) st)).

(** The first line of [enhanceModuleDocumentation]. *)
Definition announced (moduleName : string) (st : State) : State :=
  emit (ConsoleLog ("🔧 Enhancing " +:+ moduleName +:+ " module documentation...")) st.

(** The sources of a module can be read: its [entities], where there is
    one, is a directory, and the entries of it that end in [.tsx] are
    files.  This is the layout of a module directory with its entity
    definition files. *)
Definition is_file (entry : Entry) : bool :=
  match entry with
  | File _ => true
  | Dir _ => false
  end.



(** The error of [readFileSync] on a directory. *)
Definition eisdir : string := "EISDIR: illegal operation on a directory, read".

(** The object [analyzeModuleCode] returns for the given summaries. *)
Definition analysis_of (summaries : list json) : json :=
  JObject [ ("entities", JArray summaries); ("services", JArray []);
            ("tests", JArray []); ("i18n", JArray []) ].

(** A source tree with the module [sales] and its entity [order]; a world
    whose service answers the first two requests with a rate-limit error
    and the third with a text, and one that always answers so. *)
Definition plain_app : AppSource :=
  mkAppSource
    (Some [("sales",
            Dir [("entities", Dir [("order.tsx", File "fields: { id: 1, total: 2 }")])])])
    None None None.


(** The content of an entry that is a file. *)
Definition content_of (entry : Entry) : string :=
  match entry with
  | File content => content
  | Dir _ => EmptyString
  end.

Definition enotdir (moduleName : string) : string :=
  "ENOTDIR: not a directory, scandir '/app/src/modules/" +:+ moduleName +:+ "/entities'".

Definition twice_limited : Outside :=
  mkOutside
    (λ n _, match n with
            | 0 | 1 => ApiError (Some 429) "rate_limit_error"
            | _ => ApiMessage ["# Sales, enhanced"]
            end)
    plain_app "v18.0.0" "2025-06-01T00:00:00.000Z" "6/1/2025" "ENOENT" enotdir.

Definition always_limited : Outside :=
  mkOutside (λ _ _, ApiError (Some 429) "rate_limit_error")
            plain_app "v18.0.0" "2025-06-01T00:00:00.000Z" "6/1/2025" "ENOENT" enotdir.

(** A stand-in for [JSON.stringify] in concrete runs. *)
Definition stringify_stub (_ : json) : string := "{}".

(** A documentation tree with the page of [sales] and the overview. *)
Definition two_pages : State :=
  mkState {[ "modules/sales.mdx" := "# Sales";
             "architecture/overview.mdx" := "# Overview" ]} ∅ [] 0.

(** The text appended to the overview in front of the insights. *)
Definition insights_heading : string :=
  nl +:+ nl +:+ "## AI-Generated Insights" +:+ nl +:+ nl.

End EnhancerSpec.

(** *** The documentation generator *)

Module GeneratorSpec.
Import Generator.


(** What [find] returns is an object whose [tab] is the API Reference. *)
Definition is_api_tab (tab : json) : bool :=
  match tab with
  | JObject ms =>
      match member "tab" ms with
      | Some (JString s) => bool_decide (s = "API Reference")
      | _ => false
      end
  | _ => false
  end.

(** Writing files one after the other. *)
Definition write_all (writes : list (string * string)) (f : gmap string string)
  : gmap string string :=
  foldl (λ f w, <[w.1 := w.2]> f) f writes.

(** A computation that returns after writing the given files, in order,
    and doing nothing else. *)
Definition writes (m : Eff State unit) (ws : list (string * string)) : Prop :=
  ∀ st, ∃ st', m st = (Returned tt, st') ∧
               files st' = write_all ws (files st) ∧ dirs st' = dirs st ∧
               events st' = events st ∧ exitCode st' = exitCode st.

(** The tree a later run of the generator starts from: the files and
    directories the earlier run has left. *)
Definition next_run (st : State) : State := mkState (files st) (dirs st) [] None.

Section Pages.
Context (config : Config).

Definition in_docs (rel : string) : string := path_join (docsPath config) rel.

(** The files written by the four page generators, in the order of the
    calls. *)
Definition architecture_writes : list (string * string) :=
  [ (in_docs "architecture/overview.mdx", architectureOverview);
    (in_docs "architecture/entity-system.mdx", entitySystemDoc config);
    (in_docs "architecture/dependency-injection.mdx", diDoc) ].

Definition module_writes : list (string * string) :=
  (in_docs "modules/overview.mdx", modulesOverview config) ::
  ((λ module, (in_docs ("modules/" +:+ name module +:+ ".mdx"), moduleDoc module))
     <$> modules config).

Definition component_writes : list (string * string) :=
  [ (in_docs "components/overview.mdx", componentsOverview) ].

Definition entity_writes (module : ModuleDescriptor) : list (string * string) :=
  (λ entity,
     (in_docs ("api-reference/" +:+ name module +:+ "/" +:+ entity +:+ ".mdx"),
      generateEntityApiDoc (name module) entity)) <$> entities module.

Definition api_writes : list (string * string) :=
  (in_docs "api-reference/introduction.mdx", apiIntroduction config) ::
  concat (entity_writes <$> modules config).

Definition page_writes : list (string * string) :=
  architecture_writes ++ module_writes ++ component_writes ++ api_writes.

(** The path of the navigation manifest and what [updateDocsConfig] does
    to the files. *)
Definition docs_json : string := in_docs "docs.json".

Definition update_docs_json
    (JSON_parse : string → option json) (JSON_stringify : json → string)
    (f : gmap string string) : gmap string string :=
  match f !! docs_json ≫= JSON_parse with
  | Some docsConfig =>
      match updateNavigation config docsConfig with
      | Returned (Some docsConfig') => <[docs_json := JSON_stringify docsConfig']> f
      | _ => f
      end
  | None => f
  end.

(** A path at which something exists, and what [createDirectoryStructure]
    does to the directories. *)
Definition covered (f : gmap string string) (ds : gset string) (p : string) : Prop :=
  p ∈ ds ∨ is_Some (f !! p).

Definition make_dir (f : gmap string string) (ds : gset string) (dir : string)
  : gset string :=
  if bool_decide (covered f ds (in_docs dir)) then ds
  else ds ∪ list_to_set (ancestors (in_docs dir)) ∪ {[ in_docs dir ]}.

Definition make_dirs (f : gmap string string) (ds : gset string) : gset string :=
  foldl (make_dir f) ds (directories config).

End Pages.

(** *** Concrete runs *)

(** A manifest with an API Reference tab, and stand-ins for [JSON.parse]
    and [JSON.stringify] that read and print it (any other text does not
    parse). *)
Definition small_config : Config :=
  mkConfig "../../agves_app/src" "."
    [ mkModule "sales" ["cart-item"; "order"] false false;
      mkModule "school" ["student"] true true ].

Definition manifest : json :=
  JObject
    [ ("name", JString "AGVES App");
      ("navigation",
       JObject
         [ ("tabs",
            JArray
              [ JObject [ ("tab", JString "Documentation"); ("groups", JArray []) ];
                JObject [ ("tab", JString "API Reference"); ("groups", JArray []) ] ]) ]) ].

Definition manifest_updated : json :=
  match updateNavigation small_config manifest with
  | Returned (Some v) => v
  | _ => JNull
  end.

Definition parse_stub (text : string) : option json :=
  if decide (text = "manifest") then Some manifest
  else if decide (text = "manifest, updated") then Some manifest_updated
  else None.

Definition stringify_stub (v : json) : string :=
  match v with
  | JObject (_ :: (_, JObject ((_, JArray (_ :: JObject (_ :: (_, JArray (_ :: _)) :: _) :: _)) :: _)) :: _) =>
      "manifest, updated"
  | _ => "manifest"
  end.


(** A tree that holds the manifest only. *)
Definition manifest_only : State := mkState {[ "docs.json" := "manifest" ]} ∅ [] None.

End GeneratorSpec.

(** ** Notions used in the statements about the rest of the scripts *)

(** A computation that keeps its state within a relation, however it
    ends. *)
Definition keeps {S A} (R : S → S → Prop) (m : Eff S A) : Prop :=
  ∀ st, R st (m st).2.

(** *** The change watcher: commands and notifications *)

Module WatcherTrace.
Import Watcher WatcherSpec.

(** The path a notification is about. *)
Definition path_of (ev : FileEvent) : string :=
  match ev with
  | Change filePath | Add filePath | Unlink filePath => filePath
  end.

(** The line a handler prints for it. *)
Definition notification_line (ev : FileEvent) : string :=
  match ev with
  | Change filePath | Add filePath => "📝 File changed: " +:+ filePath
  | Unlink filePath => "🗑️ File deleted: " +:+ filePath
  end.

(** The commands run among some events, in order. *)
Definition commands_of (evs : list Event) : list string :=
  omap (λ e, match e with ExecRun cmd => Some cmd | _ => None end) evs.

(** What the caller of [execAsync] resumes with, and the state it resumes
    in. *)
Definition result_of (r : ExecResult) : Outcome string :=
  match r with
  | Resolved stdout => Returned stdout
  | Rejected error => Thrown error
  end.

Definition after_exec (out : Outside) (cmd : string) (st : State) : State :=
  (execAsync out cmd st).2.

(** A line that one of the two handlers prints. *)
Definition is_notification (line : string) : bool :=
  JS.startsWith "📝 File changed: " line || JS.startsWith "🗑️ File deleted: " line.

(** What a step of the updater does while it runs the commands [cmds]:
    each command takes one reply of the outside world, the fields of the
    updater other than the pending set stay as they are, no pending path
    is dropped, and every path whose notification was printed meanwhile is
    pending afterwards. *)
Record runs (cmds : list string) (st st' : State) : Prop := mkRuns {
  runs_commands : commands_of (events st') = commands_of (events st) ++ cmds;
  runs_ticks : ticks st' = ticks st + length cmds;
  runs_threshold : aiUpdateThreshold st' = aiUpdateThreshold st;
  runs_processing : isProcessing st' = isProcessing st;
  runs_pending : ∀ p, p ∈ pendingChanges st → p ∈ pendingChanges st';
  runs_events :
    ∃ evs, events st' = events st ++ evs ∧ ∀ p, delivered p evs → p ∈ pendingChanges st'
}.

(** The commands of [commitChanges], for a commit message dated by the
    clock after [n] commands. *)
Definition commit_command
    (out : Outside) (message : string) (analysis : Analysis) (n : nat) : string :=
  "git commit -m " +:+ dq +:+ detailedMessage message analysis (clock_iso out n) +:+ dq.

Definition commit_commands
    (out : Outside) (message : string) (analysis : Analysis) (n : nat) : list string :=
  [ "git status --porcelain"; "git add ."; commit_command out message analysis n; "git push" ].

(** The commands of [quickUpdate] that come before the commit. *)
Definition sync_cmd : string := "npm run sync:types".

Definition sync_commands (analysis : Analysis) : list string :=
  if types analysis then [sync_cmd] else [].

Definition sync_run : Event := ExecRun sync_cmd.

(** The labels under which the steps of a batch print an error. *)
Definition error_labels : list string :=
  [ "❌ Quick update failed:"; "❌ Commit failed:"; "❌ AI enhancement failed:" ].

(** The [n]-th command of the process, [cmd], is rejected with [error]. *)
Definition rejected (out : Outside) (n : nat) (cmd error : string) : Prop :=
  exec_result (exec_reply out n cmd) = Rejected error.

(** One of the commands run among [evs], the first of which is the [n]-th
    command of the process, is rejected with [error]. *)
Definition fails_among (out : Outside) (n : nat) (evs : list Event) (error : string) : Prop :=
  ∃ k cmd, commands_of evs !! k = Some cmd ∧ rejected out (n + k) cmd error.

(** What a step that ends with [r] in [st'] has printed about its
    commands: every command that was rejected has its error printed under
    one of the labels, or is the one whose error the step throws; and every
    error printed, and the error thrown, is the error of such a command. *)
Definition logged (out : Outside) {A} (st : State) (r : Outcome A) (st' : State) : Prop :=
  ∃ evs,
    events st' = events st ++ evs ∧
    ticks st' = ticks st + length (commands_of evs) ∧
    (∀ error, fails_among out (ticks st) evs error →
       (∃ label, label ∈ error_labels ∧ ConsoleError label error ∈ evs) ∨
       r = Thrown error) ∧
    (∀ label error, ConsoleError label error ∈ evs →
       label ∈ error_labels ∧ fails_among out (ticks st) evs error) ∧
    (∀ error, r = Thrown error → fails_among out (ticks st) evs error).

Definition logs (out : Outside) {A} (m : Eff State A) : Prop :=
  ∀ st, logged out st (m st).1 (m st).2.

(** The synchronisation of the types, where the analysis asks for it,
    succeeds when it is run as the [n]-th command. *)
Definition sync_succeeds (out : Outside) (analysis : Analysis) (n : nat) : Prop :=
  types analysis = true → ∃ stdout, exec_result (exec_reply out n sync_cmd) = Resolved stdout.

(** The updater of a process that was started with a key, after the
    given notifications; after one, two and three changes. *)
Definition notified (evs : list FileEvent) : State :=
  (deliver_all evs (constructor {[ "ANTHROPIC_API_KEY" := "sk-test" ]})).2.

Definition one_notified : State := notified [Change "src/lib/api.ts"].
Definition two_notified : State :=
  notified [Change "src/lib/api.ts"; Change "src/modules/sales/entities/order.tsx"].
Definition three_notified : State :=
  notified [Change "src/lib/api.ts"; Change "src/modules/sales/entities/order.tsx";
            Add "src/components/Button.tsx"].

(** The same after three changes, in a process without any key. *)
Definition three_notified_no_key : State :=
  (deliver_all [Change "src/lib/api.ts"; Change "src/modules/sales/entities/order.tsx";
                Add "src/components/Button.tsx"] (constructor ∅)).2.

(** Three notifications about two paths, and an updater that has only a
    key of another service. *)
Definition three_notifications : list FileEvent :=
  [ Change "src/lib/api.ts"; Add "src/modules/sales/entities/order.tsx";
    Unlink "src/lib/api.ts" ].

Definition openai_only : State :=
  mkState [] false 3 {[ "OPENAI_API_KEY" := "sk-other" ]} [] 0.

(** A world in which a file changes while the documentation is
    regenerated; every command succeeds with an empty output. *)
Definition notifying_outside : Outside :=
  mkOutside
    (λ _ cmd, mkExecReply (Resolved EmptyString)
                (if decide (cmd = generate_cmd) then [Change "src/lib/late.ts"] else []))
    (λ _, "2025-06-01T00:00:00.000Z").

End WatcherTrace.

(** *** The AI enhancer: the pages it touches *)

Module EnhancerFrame.
Import Enhancer EnhancerSpec.

Definition overviewPath : string := "architecture/overview.mdx".
Definition performancePath : string := "architecture/performance.mdx".

(** The request of the connection test. *)
Definition test_request : Request :=
  mkRequest "claude-3-5-sonnet-20241022" 100 None
    ("Hello! Just testing the connection. Respond with " +:+ dq +:+
     "Connection successful!" +:+ dq).

(** What is thrown when the connection test fails, and when the key is
    missing. *)
Definition connection_error : string :=
  "Unable to connect to Anthropic API. Check your API key.".

Definition key_error : string :=
  "ANTHROPIC_API_KEY is required. Get it from https://console.anthropic.com/settings/keys".

(** A step that changes pages only among those that satisfy [P]: every
    other page is as before, no page is removed, the only page that may be
    created is the performance page, every write goes to a page of [P],
    and the listings of the directories are as before. *)
Record touches (P : string → Prop) (st st' : State) : Prop := mkTouches {
  touches_others : ∀ p, ¬ P p → docs st' !! p = docs st !! p;
  touches_kept : ∀ p, is_Some (docs st !! p) → is_Some (docs st' !! p);
  touches_created :
    ∀ p, docs st !! p = None → is_Some (docs st' !! p) → p = performancePath;
  touches_dirs : doc_dirs st' = doc_dirs st;
  touches_calls : calls st ≤ calls st';
  touches_writes :
    ∃ evs, events st' = events st ++ evs ∧ ∀ w, w ∈ writes_of evs → P w.1
}.

(** A step that adds to the trace only events that satisfy [E]. *)
Definition prints (E : Event → Prop) (st st' : State) : Prop :=
  ∃ evs, events st' = events st ++ evs ∧ Forall E evs.

(** The first line of [updateApiDocumentation]. *)
Definition api_update_line : string :=
  "📡 Updating API documentation based on type changes...".

Definition not_api_update (e : Event) : Prop := e ≠ ConsoleLog api_update_line.

(** No page at all. *)
Definition nothing (p : string) : Prop := False.

(** The pages of a run of the enhancer [this]. *)
Definition owned (this : Enhancer) (p : string) : Prop :=
  p = overviewPath ∨ p = performancePath ∨
  ∃ m, m ∈ changedModules this ∧ p = moduleDocPath m.

(** How often a character occurs in a text. *)
Fixpoint occurrences (d : ascii) (s : string) : nat :=
  match s with
  | EmptyString => 0
  | String c s' => (if decide (c = d) then 1 else 0) + occurrences d s'
  end.

(** A world whose service refuses every request for a reason other than
    the rate limit. *)
Definition refusing : Outside :=
  mkOutside (λ _ _, ApiError (Some 401) "invalid x-api-key")
            plain_app "v18.0.0" "2025-06-01T00:00:00.000Z" "6/1/2025" "ENOENT" enotdir.

(** A source tree in which the [entities] of the module [legacy] holds a
    directory whose name ends in [.tsx], between two entity files; and a
    world with that tree whose service answers every request. *)
Definition legacy_entities : list (string * Entry) :=
  [ ("invoice.tsx", File "fields: { id: 1 }");
    ("archive.tsx", Dir [("old.tsx", File "fields: { id: 1 }")]);
    ("payment.tsx", File "relationships: {}");
    ("README.md", Dir []) ].

Definition nested_app : AppSource :=
  mkAppSource (Some [("legacy", Dir [("entities", Dir legacy_entities)])]) None None None.

Definition answering : Outside :=
  mkOutside (λ _ _, ApiMessage ["# Enhanced"])
            nested_app "v18.0.0" "2025-06-01T00:00:00.000Z" "6/1/2025" "ENOENT" enotdir.

(** A documentation tree with the page of [legacy], and the environment
    of a run for the modules [sales] and [legacy]. *)
Definition legacy_page : State :=
  mkState {[ "modules/legacy.mdx" := "# Legacy" ]} ∅ [] 0.

Definition legacy_env : gmap string string :=
  {[ "ANTHROPIC_API_KEY" := "sk-test"; "CHANGED_MODULES" := "sales" +:+ nl +:+ "legacy" ]}.

End EnhancerFrame.

(** *** The documentation generator: pages and navigation *)

Module GeneratorPages.
Import Generator GeneratorSpec.








(** A tree with a file where the directory [frontend] is to be. *)
Definition file_in_place : State := mkState {[ "frontend" := "notes" ]} ∅ [] None.



End GeneratorPages.

(** * Properties *)

(** ** Strings *)

Section StringFacts.

Lemma append_nil_l (s : string) : EmptyString +:+ s = s.
Proof. reflexivity. Qed.

Lemma append_cons (c : ascii) (s t : string) : String c s +:+ t = String c (s +:+ t).
Proof. reflexivity. Qed.

Lemma append_nil_r (s : string) : s +:+ EmptyString = s.
Proof. induction s as [|c s IH]; [done|]. by rewrite append_cons, IH. Qed.

Lemma append_assoc (a b c : string) : (a +:+ b) +:+ c = a +:+ b +:+ c.
Proof. induction a as [|x a IH]; [done|]. by rewrite !append_cons, IH. Qed.

Lemma length_append (a b : string) :
  String.length (a +:+ b) = String.length a + String.length b.
Proof. induction a as [|x a IH]; [done|]. rewrite append_cons. simpl. by rewrite IH. Qed.

Lemma startsWith_append (p s : string) : JS.startsWith p (p +:+ s) = true.
Proof.
  induction p as [|c p IH]; [done|].
  rewrite append_cons. simpl. by destruct (decide (c = c)).
Qed.

Lemma startsWith_inv (p s : string) :
  JS.startsWith p s = true → ∃ t, s = p +:+ t.
Proof.
  revert s. induction p as [|c p IH]; intros s H.
  - by exists s.
  - destruct s as [|d s]; [done|]. simpl in H.
    destruct (decide (c = d)) as [->|]; [|done].
    destruct (IH _ H) as [t ->]. by exists t.
Qed.

(** Only the first [length p] characters matter. *)
Lemma startsWith_append_long (p x y : string) :
  String.length p ≤ String.length x →
  JS.startsWith p (x +:+ y) = JS.startsWith p x.
Proof.
  revert x. induction p as [|c p IH]; intros x Hlen; [by destruct x|].
  destruct x as [|d x]; simpl in Hlen; [lia|].
  rewrite append_cons. simpl. destruct (decide (c = d)); [|done].
  apply IH. lia.
Qed.

Lemma includes_cons (sub : string) (c : ascii) (s : string) :
  JS.includes sub (String c s) = JS.startsWith sub (String c s) || JS.includes sub s.
Proof. reflexivity. Qed.

Lemma includes_intro (sub a b : string) : JS.includes sub (a +:+ sub +:+ b) = true.
Proof.
  induction a as [|c a IH].
  - rewrite append_nil_l. destruct (sub +:+ b) eqn:E; simpl.
    + apply orb_true_iff. left. rewrite <- E. apply startsWith_append.
    + apply orb_true_iff. left. rewrite <- E. apply startsWith_append.
  - rewrite append_cons, includes_cons, IH. apply orb_true_r.
Qed.


End StringFacts.

Section SplitFacts.

Lemma split_go_skip (sep t b : string) :
  JS.split_go sep (String.length t) (t +:+ b) = JS.split_go sep 0 b.
Proof. induction t as [|c t IH]; [done|]. rewrite append_cons. simpl. exact IH. Qed.

Lemma split_go_sep (sep b : string) :
  sep ≠ EmptyString →
  JS.split_go sep 0 (sep +:+ b) =
  (EmptyString, let '(h, t) := JS.split_go sep 0 b in h :: t).
Proof.
  intros Hne. destruct sep as [|c sep]; [done|].
  pose proof (startsWith_append (String c sep) b) as Hs.
  rewrite append_cons in *. cbn [JS.split_go]. rewrite Hs.
  cbn [String.length]. rewrite Nat.sub_1_r. cbn [Nat.pred].
  by rewrite split_go_skip.
Qed.

Lemma split_go_other (sep : string) (c : ascii) (s : string) :
  JS.startsWith sep (String c s) = false →
  JS.split_go sep 0 (String c s) =
  let '(h, t) := JS.split_go sep 0 s in (String c h, t).
Proof. intros H. cbn [JS.split_go]. by rewrite H. Qed.

Lemma split_go_pre (sep pre s : string) :
  starts_nowhere sep pre s →
  JS.split_go sep 0 (pre +:+ s) =
  let '(h, t) := JS.split_go sep 0 s in (pre +:+ h, t).
Proof.
  induction pre as [|c pre IH]; intros H.
  - rewrite append_nil_l. by destruct (JS.split_go sep 0 s).
  - rewrite append_cons, split_go_other.
    + rewrite IH.
      * by destruct (JS.split_go sep 0 s).
      * intros a b Hab Hb. unfold starts_nowhere in H.
        apply (H (String c a) b); [rewrite Hab; reflexivity|exact Hb].
    + change (String c (pre +:+ s)) with (String c pre +:+ s).
      apply (H EmptyString (String c pre)); [reflexivity|discriminate].
Qed.

Lemma split_includes (sep s : string) :
  sep ≠ EmptyString → JS.includes sep s = true →
  (JS.split_go sep 0 s).2 ≠ [].
Proof.
  intros Hne. induction s as [|c s IH]; intros H.
  - simpl in H. destruct sep; [done|]. simpl in H. done.
  - rewrite includes_cons in H. cbn [JS.split_go].
    destruct (JS.startsWith sep (String c s)) eqn:E.
    + clear IH. destruct (JS.split_go sep (String.length sep - 1) s) as [h t].
      simpl. discriminate.
    + simpl in H. specialize (IH H). destruct (JS.split_go sep 0 s) as [h t]. exact IH.
Qed.

(** A character that is not the separator's first does not start it. *)
Lemma startsWith_head (sep : string) (c d : ascii) (sep' s : string) :
  sep = String d sep' → c ≠ d → JS.startsWith sep (String c s) = false.
Proof. intros -> H. simpl. destruct (decide (d = c)); [congruence|done]. Qed.

Lemma includes_char_false (d c : ascii) (s : string) :
  JS.includes (String d EmptyString) (String c s) = false →
  c ≠ d ∧ JS.includes (String d EmptyString) s = false.
Proof.
  rewrite includes_cons. intros H. apply orb_false_iff in H as [H1 H2].
  split; [|done]. simpl in H1. destruct (decide (d = c)); [done|congruence].
Qed.

(** A piece without the separator's first character holds no start of it. *)
Lemma starts_nowhere_char (sep : string) (d : ascii) (sep' pre s : string) :
  sep = String d sep' →
  JS.includes (String d EmptyString) pre = false →
  starts_nowhere sep pre s.
Proof.
  intros Hsep. unfold starts_nowhere.
  induction pre as [|c pre IH]; intros H a b Hab Hb.
  - destruct a, b; done.
  - apply includes_char_false in H as [Hc H].
    destruct a as [|x a].
    + rewrite append_nil_l in Hab. subst b. rewrite append_cons.
      by eapply startsWith_head.
    + rewrite append_cons in Hab. injection Hab as -> ->. by eapply IH.
Qed.

End SplitFacts.

Section ModuleName.
Import Watcher WatcherSpec.

Lemma includes_false_suffix (sub a s : string) :
  JS.includes sub (a +:+ s) = false → JS.startsWith sub s = false.
Proof.
  intros H. destruct (JS.startsWith sub s) eqn:E; [|done].
  apply startsWith_inv in E as [t ->]. by rewrite includes_intro in H.
Qed.

Lemma split_first_piece (sep : string) (d : ascii) (sep' nm tail : string) :
  sep = String d sep' →
  JS.includes (String d EmptyString) nm = false →
  (JS.split_go sep 0 (nm +:+ tail)).1 = nm +:+ (JS.split_go sep 0 tail).1.
Proof.
  intros Hsep Hnm. rewrite split_go_pre by (by eapply starts_nowhere_char).
  by destruct (JS.split_go sep 0 tail).
Qed.

(** The first piece of a text that is empty or starts with the separator's
    first character is empty or starts with that character. *)
Lemma first_piece_head (sep : string) (d : ascii) (sep' tail : string) :
  sep = String d sep' →
  (tail = EmptyString ∨ ∃ rest, tail = String d rest) →
  (JS.split_go sep 0 tail).1 = EmptyString ∨
  ∃ rest, (JS.split_go sep 0 tail).1 = String d rest.
Proof.
  intros Hsep [->|[rest ->]]; [by left|].
  cbn [JS.split_go]. destruct (JS.startsWith sep (String d rest)); [by left|].
  right. destruct (JS.split_go sep 0 rest) as [h t]. by exists h.
Qed.

Lemma moduleNameOf_total (filePath : string) :
  JS.includes "/modules/" filePath = true → is_Some (moduleNameOf filePath).
Proof.
  intros H. apply split_includes in H; [|done].
  unfold moduleNameOf, JS.split.
  destruct (JS.split_go "/modules/" 0 filePath) as [h [|after t]]; [done|].
  simpl. destruct (JS.split_go "/" 0 after) as [h' t']. by eexists.
Qed.

Lemma moduleNameOf_segment (pre nm tail : string) :
  JS.includes "/modules/" (pre +:+ "/modules") = false →
  JS.includes "/" nm = false →
  (tail = EmptyString ∨ ∃ rest, tail = "/" +:+ rest) →
  moduleNameOf (pre +:+ "/modules/" +:+ nm +:+ tail) = Some nm.
Proof.
  intros Hpre Hnm Htail.
  assert (Hnow : starts_nowhere "/modules/" pre ("/modules/" +:+ nm +:+ tail)).
  { intros a b -> Hb.
    change ("/modules/" +:+ nm +:+ tail) with ("/modules" +:+ ("/" +:+ nm +:+ tail)).
    rewrite <- append_assoc, startsWith_append_long.
    - rewrite append_assoc in Hpre. by eapply includes_false_suffix.
    - rewrite length_append. destruct b; [done|]. simpl. lia. }
  unfold moduleNameOf, JS.split.
  rewrite split_go_pre, split_go_sep by done.
  pose proof (split_first_piece "/modules/" "/" "modules/" nm tail eq_refl Hnm) as H1.
  destruct (JS.split_go "/modules/" 0 (nm +:+ tail)) as [h2 t2]. simpl in H1. subst h2.
  simpl.
  assert (Hhead : (JS.split_go "/modules/" 0 tail).1 = EmptyString ∨
                  ∃ rest, (JS.split_go "/modules/" 0 tail).1 = String "/" rest).
  { eapply first_piece_head; [done|]. destruct Htail as [->|[rest ->]]; eauto. }
  pose proof (split_first_piece "/" "/" EmptyString nm
                (JS.split_go "/modules/" 0 tail).1 eq_refl Hnm) as H2.
  destruct (JS.split_go "/" 0 (nm +:+ (JS.split_go "/modules/" 0 tail).1)) as [h3 t3].
  simpl in H2. subst h3. simpl. f_equal.
  destruct Hhead as [->|[rest ->]]; [apply append_nil_r|].
  cbn. apply append_nil_r.
Qed.

End ModuleName.

Section AnalyzeChanges.
Import Watcher WatcherSpec.

Lemma elem_of_set_add (m x : string) (l : list string) :
  m ∈ JS.set_add x l ↔ m = x ∨ m ∈ l.
Proof.
  unfold JS.set_add. destruct (decide (x ∈ l)).
  - split; [by right|]. intros [->|]; done.
  - rewrite elem_of_app, list_elem_of_singleton. tauto.
Qed.

Lemma NoDup_set_add (x : string) (l : list string) : NoDup l → NoDup (JS.set_add x l).
Proof.
  intros H. unfold JS.set_add. destruct (decide (x ∈ l)); [done|].
  apply NoDup_app. split_and!; [done| |apply NoDup_singleton].
  intros y Hy ->%list_elem_of_singleton. done.
Qed.

(** What one iteration does to each field. *)
Lemma analyzeStep_fields (a : Analysis) (filePath : string) :
  ∃ a', analyzeStep a filePath = Some a' ∧
    modules a' =
      (if JS.includes "/modules/" filePath
       then match moduleNameOf filePath with
            | Some m => JS.set_add m (modules a)
            | None => modules a
            end
       else modules a) ∧
    types a' = types a || JS.includes "generated.d.ts" filePath ∧
    components a' = components a || JS.includes "/components/" filePath ∧
    services a' = services a || JS.includes "/services/" filePath.
Proof.
  unfold analyzeStep.
  destruct (JS.includes "/modules/" filePath) eqn:Em.
  - destruct (moduleNameOf_total _ Em) as [m ->].
    eexists. split; [reflexivity|].
    destruct a as [ms t c s]; simpl.
    destruct (JS.includes "generated.d.ts" filePath),
             (JS.includes "/components/" filePath),
             (JS.includes "/services/" filePath); simpl;
      rewrite ?orb_true_r, ?orb_false_r; done.
  - eexists. split; [reflexivity|].
    destruct a as [ms t c s]; simpl.
    destruct (JS.includes "generated.d.ts" filePath),
             (JS.includes "/components/" filePath),
             (JS.includes "/services/" filePath); simpl;
      rewrite ?orb_true_r, ?orb_false_r; done.
Qed.

(** A path that matches none of the four patterns leaves the analysis as
    it is. *)
Lemma analyzeStep_unrecognized (a : Analysis) (filePath : string) :
  JS.includes "/modules/" filePath = false →
  JS.includes "generated.d.ts" filePath = false →
  JS.includes "/components/" filePath = false →
  JS.includes "/services/" filePath = false →
  analyzeStep a filePath = Some a.
Proof. intros H1 H2 H3 H4. unfold analyzeStep. by rewrite H1, H2, H3, H4. Qed.

Lemma analyzeLoop_app (a : Analysis) (l1 l2 : list string) :
  analyzeLoop a (l1 ++ l2) = analyzeLoop a l1 ≫= λ a', analyzeLoop a' l2.
Proof.
  revert a. induction l1 as [|p l1 IH]; intros a; [done|].
  simpl. destruct (analyzeStep a p); [apply IH|done].
Qed.

Lemma analyzeLoop_fields (l : list string) (a : Analysis) :
  ∃ a', analyzeLoop a l = Some a' ∧
    (∀ m, m ∈ modules a' ↔ m ∈ modules a ∨ from_module l m) ∧
    (NoDup (modules a) → NoDup (modules a')) ∧
    types a' = types a || existsb (JS.includes "generated.d.ts") l ∧
    components a' = components a || existsb (JS.includes "/components/") l ∧
    services a' = services a || existsb (JS.includes "/services/") l.
Proof.
  revert a. induction l as [|p l IH]; intros a.
  - exists a. rewrite !orb_false_r. split_and!; try done.
    intros m. split; [by left|]. intros [?|(p & Hp & _)]; [done|].
    by apply elem_of_nil in Hp.
  - destruct (analyzeStep_fields a p) as (a1 & E1 & Hm1 & Ht1 & Hc1 & Hs1).
    destruct (IH a1) as (a' & E' & Hm & Hd & Ht & Hc & Hs).
    exists a'. simpl. rewrite E1. split; [done|].
    rewrite Ht, Hc, Hs, Ht1, Hc1, Hs1, !orb_assoc. split_and!; try done.
    + intros m. rewrite Hm, Hm1. unfold from_module. split.
      * intros [H|(q & Hq & Hi & Hn)].
        -- destruct (JS.includes "/modules/" p) eqn:Ei; [|by left].
           destruct (moduleNameOf p) as [x|] eqn:En; [|by left].
           apply elem_of_set_add in H as [->|H]; [|by left].
           right. exists p. split_and!; [apply list_elem_of_here|done..].
        -- right. exists q. split_and!; [by apply list_elem_of_further|done..].
      * intros [H|(q & Hq & Hi & Hn)].
        -- left. destruct (JS.includes "/modules/" p); [|done].
           destruct (moduleNameOf p); [|done]. apply elem_of_set_add. by right.
        -- apply elem_of_cons in Hq as [->|Hq].
           ++ left. rewrite Hi, Hn. apply elem_of_set_add. by left.
           ++ right. by exists q.
    + intros Hnd. apply Hd. rewrite Hm1.
      destruct (JS.includes "/modules/" p); [|done].
      destruct (moduleNameOf p); [|done]. by apply NoDup_set_add.
Qed.

Lemma existsb_includes (sub : string) (l : list string) :
  existsb (JS.includes sub) l = true ↔ ∃ p, p ∈ l ∧ JS.includes sub p = true.
Proof.
  rewrite existsb_exists. split; intros (p & Hp & H); exists p.
  - by rewrite list_elem_of_In.
  - by rewrite <- list_elem_of_In.
Qed.

End AnalyzeChanges.

(** ** The change detector *)

Section ChangeDetector.
Import Watcher WatcherSpec.

Lemma analyzeChanges_total (filePaths : list string) :
  ∃ analysis, analyzeChanges filePaths = Some analysis.
Proof.
  destruct (analyzeLoop_fields filePaths (mkAnalysis [] false false false))
    as (a & H & _). by exists a.
Qed.

(** C5. [analyzeChanges] is a total function of its list of paths.  Its
    [modules] are, without repetition, the names cut out of the paths that
    contain [/modules/]; [types], [components] and [services] are set
    exactly when some path contains [generated.d.ts], [/components/] and
    [/services/].  The name cut out of a path is the segment that follows
    the first [/modules/].  A path that matches no pattern changes nothing
    and raises nothing.  The two paths of the specification's example give
    modules [sales], types changed, components unchanged. *)
Theorem analyzeChanges_classifies :
  (∀ filePaths : list string,
     ∃ analysis,
       analyzeChanges filePaths = Some analysis ∧
       NoDup (modules analysis) ∧
       (∀ m, m ∈ modules analysis ↔ from_module filePaths m) ∧
       (types analysis = true ↔
          ∃ p, p ∈ filePaths ∧ JS.includes "generated.d.ts" p = true) ∧
       (components analysis = true ↔
          ∃ p, p ∈ filePaths ∧ JS.includes "/components/" p = true) ∧
       (services analysis = true ↔
          ∃ p, p ∈ filePaths ∧ JS.includes "/services/" p = true)) ∧
  (∀ pre nm tail : string,
     JS.includes "/modules/" (pre +:+ "/modules") = false →
     JS.includes "/" nm = false →
     (tail = EmptyString ∨ ∃ rest, tail = "/" +:+ rest) →
     moduleNameOf (pre +:+ "/modules/" +:+ nm +:+ tail) = Some nm) ∧
  (∀ (before after : list string) (filePath : string),
     JS.includes "/modules/" filePath = false →
     JS.includes "generated.d.ts" filePath = false →
     JS.includes "/components/" filePath = false →
     JS.includes "/services/" filePath = false →
     analyzeChanges (before ++ filePath :: after) = analyzeChanges (before ++ after)) ∧
  analyzeChanges ["root/modules/sales/entities/order.x"; "root/generated.d.ts"] =
    Some (mkAnalysis ["sales"] true false false).
Proof.
  split_and!.
  - intros filePaths.
    destruct (analyzeLoop_fields filePaths (mkAnalysis [] false false false))
      as (a & H & Hm & Hd & Ht & Hc & Hs).
    exists a. simpl in *. split_and!.
    + exact H.
    + apply Hd, NoDup_nil_2.
    + intros m. rewrite Hm. split; [|by right]. intros [H0|H0]; [|done].
      by apply elem_of_nil in H0.
    + by rewrite Ht, existsb_includes.
    + by rewrite Hc, existsb_includes.
    + by rewrite Hs, existsb_includes.
  - apply moduleNameOf_segment.
  - intros before after filePath H1 H2 H3 H4. unfold analyzeChanges.
    rewrite !analyzeLoop_app. destruct (analyzeLoop _ before) as [a|]; [|done].
    simpl. by rewrite analyzeStep_unrecognized.
  - reflexivity.
Qed.

Lemma analyzeChanges_classifies_witness :
  moduleNameOf ("src" +:+ "/modules/" +:+ "sales" +:+ "/entities/order.tsx") = Some "sales" ∧
  analyzeChanges (["src/lib/a.ts"] ++ "README.md" :: ["src/modules/sales/x.tsx"]) =
  analyzeChanges (["src/lib/a.ts"] ++ ["src/modules/sales/x.tsx"]).
Proof.
  destruct analyzeChanges_classifies as (_ & Hsegment & Hignored & _). split.
  - apply Hsegment; [reflexivity|reflexivity|]. right. by exists "entities/order.tsx".
  - apply Hignored; reflexivity.
Defined.

End ChangeDetector.

(** ** The change aggregator *)

Section Frames.
Import Watcher WatcherSpec.
Context (E : Event → Prop).

Lemma delivered_app_l (p : string) (e1 e2 : list Event) :
  delivered p e1 → delivered p (e1 ++ e2).
Proof. intros [H|H]; [left|right]; apply elem_of_app; by left. Qed.

Lemma delivered_app_r (p : string) (e1 e2 : list Event) :
  delivered p e2 → delivered p (e1 ++ e2).
Proof. intros [H|H]; [left|right]; apply elem_of_app; by right. Qed.

Lemma frame_refl (st : State) : frame E st st.
Proof.
  split; try done. exists []. rewrite app_nil_r. split_and!; [done..|].
  intros p Hp. by left.
Qed.

Lemma frame_trans (st1 st2 st3 : State) :
  frame E st1 st2 → frame E st2 st3 → frame E st1 st3.
Proof.
  intros [(e1 & H1 & F1 & D1) T1 P1 V1] [(e2 & H2 & F2 & D2) T2 P2 V2]. split.
  - exists (e1 ++ e2). rewrite H2, H1, app_assoc. split_and!; [done| |].
    + by apply Forall_app.
    + intros p Hp. destruct (D2 p Hp) as [Hp2|Hd].
      * destruct (D1 p Hp2) as [?|Hd]; [by left|]. right. by apply delivered_app_l.
      * right. by apply delivered_app_r.
  - congruence.
  - congruence.
  - congruence.
Qed.

(** A step that prints or runs nothing and leaves the fields of the
    updater alone. *)
Lemma frame_silent (st st' : State) :
  events st' = events st → pendingChanges st' = pendingChanges st →
  aiUpdateThreshold st' = aiUpdateThreshold st → isProcessing st' = isProcessing st →
  env st' = env st →
  frame E st st'.
Proof.
  intros He Hp Ht Hi Hv. split; try done. exists []. rewrite app_nil_r.
  split_and!; [done..|]. intros p. rewrite Hp. by left.
Qed.

Lemma total_safe (m : Eff State unit) : total E m → safe E m.
Proof. intros H st. destruct (H st) as (st' & -> & F). by eexists _, _. Qed.

Lemma safe_ret {A} (a : A) : safe E (ret a).
Proof. intros st. eexists _, _. split_and!; [done..|apply frame_refl]. Qed.

Lemma total_ret : total E (ret tt).
Proof. intros st. eexists. split; [done|apply frame_refl]. Qed.

Lemma safe_throw {A} (e : string) : safe E (throw e : Eff State A).
Proof. intros st. eexists _, _. split_and!; [done..|apply frame_refl]. Qed.

Lemma safe_gets {A} (f : State → A) : safe E (gets f).
Proof. intros st. eexists _, _. split_and!; [done..|apply frame_refl]. Qed.

Lemma safe_bind {A B} (m : Eff State A) (k : A → Eff State B) :
  safe E m → (∀ a, safe E (k a)) → safe E (bind m k).
Proof.
  intros Hm Hk st. unfold bind.
  destruct (Hm st) as (r & st1 & -> & Hr & F1).
  destruct r as [a|e|]; [|by eexists _, _|done].
  destruct (Hk a st1) as (r' & st2 & -> & Hr' & F2).
  eexists _, _. split_and!; [done..|by eapply frame_trans].
Qed.

Lemma total_seq (m k : Eff State unit) : total E m → total E k → total E (m >> k).
Proof.
  intros Hm Hk st. unfold bind.
  destruct (Hm st) as (st1 & -> & F1). destruct (Hk st1) as (st2 & -> & F2).
  eexists. split; [done|by eapply frame_trans].
Qed.

Lemma safe_try_catch {A} (body : Eff State A) (handler : string → Eff State A) :
  safe E body → (∀ e, safe E (handler e)) → safe E (try_catch body handler).
Proof.
  intros Hb Hh st. unfold try_catch.
  destruct (Hb st) as (r & st1 & -> & Hr & F1).
  destruct r as [a|e|]; [by eexists _, _| |done].
  destruct (Hh e st1) as (r' & st2 & -> & Hr' & F2).
  eexists _, _. split_and!; [done..|by eapply frame_trans].
Qed.

(** A [try] whose handler returns, returns. *)
Lemma total_try_catch (body : Eff State unit) (handler : string → Eff State unit) :
  safe E body → (∀ e, total E (handler e)) → total E (try_catch body handler).
Proof.
  intros Hb Hh st. unfold try_catch.
  destruct (Hb st) as (r & st1 & -> & Hr & F1).
  destruct r as [[]|e|]; [by eexists| |done].
  destruct (Hh e st1) as (st2 & -> & F2).
  eexists. split; [done|by eapply frame_trans].
Qed.

Lemma total_emit (e : Event) : E e → total E (modify (emit e)).
Proof.
  intros He st. eexists. split; [done|]. split; try done.
  exists [e]. split_and!; [done|by apply Forall_singleton|]. intros p Hp. by left.
Qed.

Lemma total_console_log (line : string) : E (ConsoleLog line) → total E (console_log line).
Proof. apply total_emit. Qed.

Lemma total_console_error (label error : string) :
  E (ConsoleError label error) → total E (console_error label error).
Proof. apply total_emit. Qed.

Lemma total_tick : total E (modify tick).
Proof. intros st. eexists. split; [done|]. by apply frame_silent. Qed.

End Frames.

Section UpdaterSteps.
Import Watcher WatcherSpec.
Context (out : Outside).
Context (E : Event → Prop).
Context (E_exec : ∀ cmd, cmd ≠ enhance_cmd → E (ExecRun cmd)).
Context (E_error : ∀ label error, E (ConsoleError label error)).
Context (E_log : ∀ line, line ≠ ai_line → E (ConsoleLog line)).

Lemma neq_by_prefix (pre s t : string) :
  JS.startsWith pre s = true → JS.startsWith pre t = false → s ≠ t.
Proof. intros H1 H2 ->. congruence. Qed.

(** Handling one notification prints its line and adds its path. *)
Lemma deliver_total (ev : FileEvent) : total E (deliver ev).
Proof.
  intros st.
  destruct ev as [p|p|p]; (eexists; split; [reflexivity|]); (split; [|done..]);
    eexists [_]; (split_and!; [reflexivity| |]).
  - apply Forall_singleton, E_log.
    eapply neq_by_prefix; [apply startsWith_append|reflexivity].
  - intros q [->|Hq]%elem_of_set_add; [|by left]. right. left. apply list_elem_of_here.
  - apply Forall_singleton, E_log.
    eapply neq_by_prefix; [apply startsWith_append|reflexivity].
  - intros q [->|Hq]%elem_of_set_add; [|by left]. right. left. apply list_elem_of_here.
  - apply Forall_singleton, E_log.
    eapply neq_by_prefix; [apply startsWith_append|reflexivity].
  - intros q [->|Hq]%elem_of_set_add; [|by left]. right. right. apply list_elem_of_here.
Qed.

Lemma deliver_all_total (evs : list FileEvent) : total E (deliver_all evs).
Proof.
  induction evs as [|ev evs IH]; [apply total_ret|].
  apply total_seq; [apply deliver_total|apply IH].
Qed.

(** An awaited command finishes; the first thing it adds to the trace is
    its own run. *)
Lemma execAsync_events (cmd : string) (st : State) :
  E (ExecRun cmd) →
  ∃ r st' evs,
    execAsync out cmd st = (r, st') ∧ r ≠ Unfinished ∧
    events st' = events st ++ ExecRun cmd :: evs ∧ frame E st st'.
Proof.
  intros He. unfold execAsync, bind at 1, gets at 1.
  assert (Ht : total E
    (modify (emit (ExecRun cmd)) >> modify tick >>
     deliver_all (exec_arrivals (exec_reply out (ticks st) cmd)))).
  { apply total_seq; [by apply total_emit|].
    apply total_seq; [apply total_tick|apply deliver_all_total]. }
  assert (Hd : ∃ st1, deliver_all (exec_arrivals (exec_reply out (ticks st) cmd))
                        (tick (emit (ExecRun cmd) st)) = (Returned tt, st1) ∧
                      frame E (tick (emit (ExecRun cmd) st)) st1).
  { apply deliver_all_total. }
  destruct Hd as (st1 & Hd & [(evs & Hev & _) _ _ _]).
  destruct (Ht st) as (st1' & Hrun & F).
  assert (st1' = st1) as ->.
  { unfold bind, modify in Hrun. rewrite Hd in Hrun. by injection Hrun. }
  unfold bind at 1, modify at 1. unfold bind at 1, modify at 1. unfold bind at 1.
  rewrite Hd.
  assert (Hevents : events st1 = events st ++ ExecRun cmd :: evs).
  { rewrite Hev. simpl. by rewrite <- app_assoc. }
  destruct (exec_result _); eexists _, _, evs; split_and!; done.
Qed.

Lemma execAsync_safe (cmd : string) : cmd ≠ enhance_cmd → safe E (execAsync out cmd).
Proof.
  intros H st. destruct (execAsync_events cmd st) as (r & st' & evs & ? & ? & _ & ?).
  - by apply E_exec.
  - by eexists _, _.
Qed.

Local Ltac step :=
  first
    [ apply execAsync_safe; discriminate
    | apply total_console_log; apply E_log; discriminate
    | apply total_console_error; apply E_error
    | apply total_ret | apply safe_ret | apply safe_gets
    | apply total_seq | apply total_try_catch | apply safe_bind
    | intros ? ].

Lemma commitChanges_total (message : string) (analysis : Analysis) :
  total E (commitChanges out message analysis).
Proof.
  unfold commitChanges. apply total_try_catch; [|intros e; step].
  apply safe_bind; [step|]. intros stdout.
  destruct (JS.truthy (JS.trim stdout)); [|step].
  apply safe_bind; [step|]. intros date.
  apply safe_bind; [step|]. intros _.
  apply safe_bind.
  { apply execAsync_safe. eapply neq_by_prefix; [apply startsWith_append|reflexivity]. }
  intros _. apply safe_bind.
  { apply safe_bind; [step|]. intros [|]; repeat step. }
  intros _. apply total_safe. step.
Qed.

Lemma quickUpdate_try_total (analysis : Analysis) : total E (quickUpdate_try out analysis).
Proof.
  apply total_try_catch; [|intros e; step].
  apply safe_bind.
  { destruct (types analysis); repeat step. }
  intros _. apply safe_bind; [step|]. intros _.
  apply total_safe, commitChanges_total.
Qed.

(** Without a change of the types file the regeneration command is the
    first thing the quick update runs. *)
Lemma quickUpdate_try_generates (analysis : Analysis) (st : State) :
  types analysis = false →
  ∃ st' evs, quickUpdate_try out analysis st = (Returned tt, st') ∧
             events st' = events st ++ generate_run :: evs.
Proof.
  intros Ht. unfold quickUpdate_try, try_catch. rewrite Ht.
  unfold bind at 1, ret at 1. unfold bind at 1.
  destruct (execAsync_events "node scripts/generate-docs.js" st)
    as (r & st1 & e1 & -> & Hr & Hev & _); [by apply E_exec|].
  destruct r as [stdout|e|]; [| |done].
  - destruct (commitChanges_total "📝 Quick docs update" analysis st1)
      as (st2 & -> & [(e2 & He2 & _) _ _ _]).
    exists st2, (e1 ++ e2). split; [done|]. rewrite He2, Hev.
    by rewrite <- app_assoc.
  - eexists _, (e1 ++ [_]). split; [reflexivity|]. simpl. rewrite Hev.
    by rewrite <- app_assoc.
Qed.

End UpdaterSteps.

Section Pending.
Import Watcher WatcherSpec.

(** The pending set holds no path twice, whatever notifications arrive. *)
Lemma deliver_NoDup (ev : FileEvent) (st : State) :
  NoDup (pendingChanges st) → NoDup (pendingChanges (deliver ev st).2).
Proof.
  intros H. destruct ev as [p|p|p]; cbn; by apply NoDup_set_add.
Qed.

Lemma deliver_all_NoDup (evs : list FileEvent) (st : State) :
  NoDup (pendingChanges st) → NoDup (pendingChanges (deliver_all evs st).2).
Proof.
  revert st. induction evs as [|ev evs IH]; intros st H; [done|].
  change (deliver_all (ev :: evs) st) with ((deliver ev >> deliver_all evs) st).
  unfold bind. pose proof (deliver_NoDup ev st H) as H'.
  destruct ev as [p|p|p]; cbn in H' |- *; by apply IH.
Qed.

(** A call that finds a batch in progress, or nothing pending, returns at
    once and changes nothing. *)
Lemma processAccumulatedChanges_idle (out : Outside) (st : State) :
  isProcessing st = true ∨ pendingChanges st = [] →
  processAccumulatedChanges out st = (Returned tt, st).
Proof.
  intros H. unfold processAccumulatedChanges, bind, gets.
  destruct H as [-> | ->]; [done|]. cbn. by rewrite orb_true_r.
Qed.

End Pending.

Section Batch.
Import Watcher WatcherSpec.
Context (out : Outside).

Lemma not_ai_exec (cmd : string) : cmd ≠ enhance_cmd → not_ai (ExecRun cmd).
Proof. intros H. split; [discriminate|]. unfold enhance_run. congruence. Qed.

Lemma not_ai_error (label error : string) : not_ai (ConsoleError label error).
Proof. split; discriminate. Qed.

Lemma not_ai_log (line : string) : line ≠ ai_line → not_ai (ConsoleLog line).
Proof. intros H. split; [|discriminate]. unfold ai_marker. congruence. Qed.

(** The quick update returns, whatever its commands do; it prints its
    first line, then only things that are not of the AI step. *)
Lemma quickUpdate_run (analysis : Analysis) (st : State) :
  ∃ st1 evs,
    quickUpdate out analysis st = (Returned tt, st1) ∧
    events st1 = events st ++ quick_marker :: evs ∧ Forall not_ai evs ∧
    (types analysis = false → generate_run ∈ evs) ∧
    (∀ p, p ∈ pendingChanges st1 → p ∈ pendingChanges st ∨ delivered p evs) ∧
    aiUpdateThreshold st1 = aiUpdateThreshold st ∧
    isProcessing st1 = isProcessing st.
Proof.
  destruct (quickUpdate_try_total out not_ai not_ai_exec not_ai_error not_ai_log
              analysis (emit quick_marker st))
    as (st1 & H & [(evs & X & Y & D) T P V]).
  exists st1, evs. split_and!; try done.
  - rewrite X. simpl. by rewrite <- app_assoc.
  - intros Ht.
    destruct (quickUpdate_try_generates out not_ai not_ai_exec not_ai_error not_ai_log
                analysis (emit quick_marker st) Ht) as (st1' & evs' & H' & X').
    rewrite H in H'. injection H' as <-. rewrite X in X'.
    apply app_inv_head in X'. rewrite X'. apply list_elem_of_here.
Qed.

(** The AI-enhanced update returns as well, and starts with its line.  When
    it finds a key it sets the two variables of the enhancer and leaves
    the environment so. *)
Lemma enhance_and_commit_total (analysis : Analysis) :
  total (λ _, True) (enhance_and_commit out analysis).
Proof.
  apply total_try_catch; [|intros e; by apply total_console_error].
  apply safe_bind.
  { intros s. destruct (execAsync_events out (λ _, True) (λ _ _, I) enhance_cmd s I)
      as (r & s' & evs & ? & ? & _ & ?). by eexists _, _. }
  intros _. by apply total_safe, commitChanges_total.
Qed.

Lemma aiEnhancedUpdate_unfold (analysis : Analysis) (st : State) :
  aiEnhancedUpdate out analysis st =
  if no_api_key st
  then (Returned tt,
        emit (ConsoleLog "⚠️ No AI API keys found, skipping AI enhancement")
             (emit ai_marker st))
  else enhance_and_commit out analysis
         (set_env (enhancer_env analysis) (emit ai_marker st)).
Proof.
  unfold aiEnhancedUpdate.
  unfold bind at 1, console_log at 1, modify at 1.
  unfold try_catch at 1, bind at 1, gets at 1, bind at 1, gets at 1.
  match goal with
  | |- context [if ?c then console_log _ else _] => change c with (no_api_key st)
  end.
  destruct (no_api_key st); reflexivity.
Qed.

Lemma aiEnhancedUpdate_run (analysis : Analysis) (st : State) :
  ∃ st1 evs,
    aiEnhancedUpdate out analysis st = (Returned tt, st1) ∧
    events st1 = events st ++ ai_marker :: evs ∧
    (∀ p, p ∈ pendingChanges st1 → p ∈ pendingChanges st ∨ delivered p evs) ∧
    aiUpdateThreshold st1 = aiUpdateThreshold st ∧
    isProcessing st1 = isProcessing st ∧
    env st1 = if no_api_key st then env st else enhancer_env analysis (env st).
Proof.
  rewrite aiEnhancedUpdate_unfold. destruct (no_api_key st).
  - eexists _, [_]. split_and!; try done.
    + simpl. by rewrite <- app_assoc.
    + intros p Hp. by left.
  - destruct (enhance_and_commit_total analysis
                (set_env (enhancer_env analysis) (emit ai_marker st)))
      as (st1 & H & [(evs & X & Y & D) Th P V]).
    exists st1, evs. split_and!; try done.
    rewrite X. simpl. by rewrite <- app_assoc.
Qed.

(** A batch is the quick update followed, at or above the threshold, by
    the AI-enhanced update; both return. *)
Lemma processAccumulatedChanges_run (st : State) :
  isProcessing st = false → pendingChanges st ≠ [] →
  ∃ analysis st1 st2,
    analyzeChanges (pendingChanges st) = Some analysis ∧
    quickUpdate out analysis (batch_start st) = (Returned tt, st1) ∧
    (if aiUpdateThreshold st <=? length (pendingChanges st)
     then aiEnhancedUpdate out analysis st1 else ret tt st1) = (Returned tt, st2) ∧
    processAccumulatedChanges out st = (Returned tt, batch_end st2).
Proof.
  intros Hp Hne.
  destruct (analyzeChanges_total (pendingChanges st)) as [a Ha].
  destruct (quickUpdate_run a (batch_start st)) as (st1 & qe & Hq & _ & _ & _ & _ & Ht & _).
  assert (∃ st2, (if aiUpdateThreshold st <=? length (pendingChanges st)
     then aiEnhancedUpdate out a st1 else ret tt st1) = (Returned tt, st2)) as [st2 H2].
  { destruct (_ <=? _); [|by eexists].
    destruct (aiEnhancedUpdate_run a st1) as (st2 & ? & ? & _). by eexists. }
  exists a, st1, st2. split_and!; try done.
  unfold processAccumulatedChanges, bind at 1 2, gets at 1 2. rewrite Hp.
  destruct (pendingChanges st) as [|p l] eqn:El; [done|].
  change ((length (p :: l) =? 0)) with false. cbn [orb].
  unfold bind at 1, modify at 1, try_finally, try_catch at 1.
  unfold processBatch, bind at 1, gets at 1.
  unfold bind at 1, modify at 1. unfold bind at 1, console_log at 1, modify at 1.
  cbn [pendingChanges set_isProcessing]. rewrite El, Ha.
  unfold bind at 1, ret at 1.
  unfold bind at 1.
  replace (emit _ (set_pendingChanges _ _)) with (batch_start st)
    by (unfold batch_start, processing_line; by rewrite El).
  rewrite Hq. unfold bind at 1, bind at 1, gets at 1. rewrite Ht.
  unfold batch_start at 1. cbn [aiUpdateThreshold emit set_pendingChanges set_isProcessing].
  destruct (aiUpdateThreshold st <=? length (p :: l)); rewrite H2; reflexivity.
Qed.

(** The trace of a batch. *)
Lemma batch_trace (st : State) :
  isProcessing st = false → pendingChanges st ≠ [] →
  ∃ analysis st' quick_evs ai_evs,
    analyzeChanges (pendingChanges st) = Some analysis ∧
    processAccumulatedChanges out st = (Returned tt, st') ∧
    events st' =
      events st ++
      ConsoleLog (processing_line (length (pendingChanges st))) ::
      quick_marker :: quick_evs ++ ai_evs ++ [ConsoleLog success_line] ∧
    Forall not_ai quick_evs ∧
    (types analysis = false → generate_run ∈ quick_evs) ∧
    (if aiUpdateThreshold st <=? length (pendingChanges st)
     then ∃ evs, ai_evs = ai_marker :: evs else ai_evs = []) ∧
    (∀ p, p ∈ pendingChanges st' → delivered p (quick_evs ++ ai_evs)) ∧
    isProcessing st' = false ∧
    aiUpdateThreshold st' = aiUpdateThreshold st.
Proof.
  intros Hp Hne.
  destruct (processAccumulatedChanges_run st Hp Hne) as (a & st1 & st2 & Ha & Hq & H2 & Hrun).
  destruct (quickUpdate_run a (batch_start st))
    as (st1' & qe & Hq' & Xq & Fq & Gq & Dq & Tq & Pq).
  rewrite Hq in Hq'. injection Hq' as <-.
  assert (Hai : ∃ ae, events st2 = events st1 ++ ae ∧
                  (if aiUpdateThreshold st <=? length (pendingChanges st)
                   then ∃ evs, ae = ai_marker :: evs else ae = []) ∧
                  (∀ p, p ∈ pendingChanges st2 → p ∈ pendingChanges st1 ∨ delivered p ae) ∧
                  aiUpdateThreshold st2 = aiUpdateThreshold st1).
  { destruct (aiUpdateThreshold st <=? length (pendingChanges st)).
    - destruct (aiEnhancedUpdate_run a st1) as (st2' & ae & H2' & Xa & Da & Ta & _ & _).
      rewrite H2 in H2'. injection H2' as <-.
      exists (ai_marker :: ae). split_and!; eauto.
      intros p Hp2. destruct (Da p Hp2) as [?|[?|?]]; [by left|right..].
      + left. by apply list_elem_of_further.
      + right. by apply list_elem_of_further.
    - injection H2 as <-. exists []. rewrite app_nil_r. split_and!; try done.
      intros p ?. by left. }
  destruct Hai as (ae & Xa & Hae & Da & Ta).
  exists a, (batch_end st2), qe, ae. split_and!; try done.
  - unfold batch_end. cbn [events set_isProcessing emit]. rewrite Xa, Xq.
    unfold batch_start. cbn [events emit set_pendingChanges set_isProcessing].
    rewrite <- !app_assoc. simpl. by rewrite <- ?app_assoc.
  - intros p Hp2. unfold batch_end in Hp2. cbn in Hp2.
    destruct (Da p Hp2) as [Hp1|?]; [|by apply delivered_app_r].
    destruct (Dq p Hp1) as [Hp0|?]; [|by apply delivered_app_l].
    unfold batch_start in Hp0. cbn in Hp0. by apply elem_of_nil in Hp0.
  - unfold batch_end. cbn. rewrite Ta, Tq. reflexivity.
Qed.

End Batch.

Section AggregatorProperties.
Import Watcher WatcherSpec.

Lemma processing_line_neq (n : nat) : ConsoleLog (processing_line n) ≠ ai_marker.
Proof.
  unfold ai_marker. intros H.
  assert (processing_line n = ai_line) as H' by congruence. revert H'.
  eapply neq_by_prefix; [apply startsWith_append|reflexivity].
Qed.

(** Among the events of a batch the line of the AI step occurs exactly when
    that step was started, and its command only then. *)
Lemma ai_marker_in_batch (n : nat) (qe ae : list Event) :
  Forall not_ai qe →
  ai_marker ∈ ConsoleLog (processing_line n) :: quick_marker :: qe ++ ae ++
              [ConsoleLog success_line] ↔ ai_marker ∈ ae.
Proof.
  intros Hq. rewrite Forall_forall in Hq.
  rewrite !elem_of_cons, !elem_of_app. split.
  - intros H. destruct_or! H;
      first [ done | discriminate H
            | apply list_elem_of_singleton in H; discriminate H
            | by destruct (Hq _ H)
            | symmetry in H; by apply processing_line_neq in H ].
  - intros H. right. right. right. by left.
Qed.

Lemma enhance_run_in_batch (n : nat) (qe ae : list Event) :
  Forall not_ai qe →
  enhance_run ∈ ConsoleLog (processing_line n) :: quick_marker :: qe ++ ae ++
               [ConsoleLog success_line] → enhance_run ∈ ae.
Proof.
  intros Hq. rewrite Forall_forall in Hq.
  rewrite !elem_of_cons, !elem_of_app.
  intros H. destruct_or! H;
    first [ done | discriminate H
          | apply list_elem_of_singleton in H; discriminate H
          | by destruct (Hq _ H) ].
Qed.

(** The steps of a batch see of the pending paths only their number and
    their analysis. *)
Lemma batch_start_same (st1 st2 : State) :
  same_but_pending st1 st2 →
  length (pendingChanges st1) = length (pendingChanges st2) →
  batch_start st1 = batch_start st2.
Proof.
  intros (Hi & Ht & He & Hv & Hk) Hl. unfold batch_start, emit, set_pendingChanges,
    set_isProcessing. simpl. by rewrite Ht, He, Hv, Hk, Hl.
Qed.

End AggregatorProperties.

(** ** The AI enhancer *)

Section TypesFlag.
Import Enhancer EnhancerSpec.

Lemma truthy_nonempty (s : string) : JS.truthy s = true ↔ s ≠ EmptyString.
Proof. destruct s; simpl; split; done. Qed.

Lemma Boolean_env_true (v : option string) :
  Boolean_env v = true ↔ ∃ s, v = Some s ∧ s ≠ EmptyString.
Proof.
  destruct v as [s|]; simpl.
  - rewrite truthy_nonempty. split; [by exists s|]. by intros (? & [= <-] & ?).
  - split; [done|]. by intros (? & ? & ?).
Qed.

(** The constructor succeeds when the key is set, and reads the flag with
    [Boolean]. *)
Lemma constructor_typesChanged (out : Outside) (env : gmap string string) (st : State) :
  Boolean_env (env !! "ANTHROPIC_API_KEY") = true →
  ∃ this st', constructor out env st = (Returned this, st') ∧
              typesChanged this = Boolean_env (env !! "TYPES_CHANGED").
Proof. intros H. unfold constructor. rewrite H. by eexists _, _. Qed.

(** C10. The type-change flag of the enhancer is [Boolean] of the variable
    [TYPES_CHANGED]: it is true exactly when the variable is set to a
    non-empty string, so also for the string [false].  The watcher writes
    [true] for a change and the empty string for none, and an enhancer
    constructed in the environment the watcher leaves reads back the flag
    of the analysis. *)
Theorem types_changed_flag :
  (∀ v : option string, Boolean_env v = true ↔ ∃ s, v = Some s ∧ s ≠ EmptyString) ∧
  Boolean_env (Some "false") = true ∧
  (∀ (out : Outside) (env : gmap string string) (st : State),
     Boolean_env (env !! "ANTHROPIC_API_KEY") = true →
     ∃ this st', constructor out env st = (Returned this, st') ∧
       (typesChanged this = true ↔
          ∃ s, env !! "TYPES_CHANGED" = Some s ∧ s ≠ EmptyString)) ∧
  (∀ (wout : Watcher.Outside) (analysis : Watcher.Analysis) (wst : Watcher.State),
     Watcher.env_truthy "ANTHROPIC_API_KEY" wst = true →
     let env' := Watcher.env (Watcher.aiEnhancedUpdate wout analysis wst).2 in
     env' !! "TYPES_CHANGED" =
       Some (if Watcher.types analysis then "true" else EmptyString) ∧
     ∀ (out : Outside) (st : State),
       ∃ this st', constructor out env' st = (Returned this, st') ∧
                   typesChanged this = Watcher.types analysis).
Proof.
  split_and!.
  - apply Boolean_env_true.
  - reflexivity.
  - intros out env st Hkey.
    destruct (constructor_typesChanged out env st Hkey) as (this & st' & H & Ht).
    exists this, st'. split; [done|]. by rewrite Ht, Boolean_env_true.
  - intros wout analysis wst Hkey env'.
    destruct (aiEnhancedUpdate_run wout analysis wst) as (st1 & evs & Hrun & _ & _ & _ & _ & Henv).
    assert (Hno : WatcherSpec.no_api_key wst = false).
    { unfold WatcherSpec.no_api_key. by rewrite Hkey. }
    rewrite Hno in Henv.
    assert (Henv' : env' = WatcherSpec.enhancer_env analysis (Watcher.env wst)).
    { unfold env'. by rewrite Hrun. }
    assert (Hflag : env' !! "TYPES_CHANGED" =
                    Some (if Watcher.types analysis then "true" else EmptyString)).
    { rewrite Henv'. unfold WatcherSpec.enhancer_env. apply lookup_insert_eq. }
    split; [done|]. intros out st.
    destruct (constructor_typesChanged out env' st) as (this & st' & H & Ht).
    + rewrite Henv'. unfold WatcherSpec.enhancer_env.
      rewrite !lookup_insert_ne by done.
      unfold Watcher.env_truthy in Hkey. exact Hkey.
    + exists this, st'. split; [done|]. rewrite Ht, Hflag.
      by destruct (Watcher.types analysis).
Qed.

Lemma types_changed_flag_witness :
  (∃ this st', constructor twice_limited
                 {[ "ANTHROPIC_API_KEY" := "sk-test"; "TYPES_CHANGED" := "false" ]}
                 two_pages = (Returned this, st') ∧
     (typesChanged this = true ↔
        ∃ s, ({[ "ANTHROPIC_API_KEY" := "sk-test"; "TYPES_CHANGED" := "false" ]}
                : gmap string string) !! "TYPES_CHANGED" = Some s ∧ s ≠ EmptyString)) ∧
  (let env' := Watcher.env (Watcher.aiEnhancedUpdate WatcherSpec.working_outside
                              (Watcher.mkAnalysis ["sales"] false false false)
                              WatcherSpec.one_change).2 in
   env' !! "TYPES_CHANGED" = Some EmptyString ∧
   ∀ (out : Outside) (st : State),
     ∃ this st', constructor out env' st = (Returned this, st') ∧
                 typesChanged this = false).
Proof.
  destruct types_changed_flag as (_ & _ & Hread & Hwatch). split.
  - apply Hread. reflexivity.
  - apply (Hwatch WatcherSpec.working_outside
             (Watcher.mkAnalysis ["sales"] false false false) WatcherSpec.one_change).
    reflexivity.
Defined.

End TypesFlag.

Section CallClaude.
Import Enhancer EnhancerSpec.
Context (out : Outside).

(** One call of [callClaude], by the reply its request gets. *)
Lemma callClaude_step (fuel : nat) (prompt : string) (st : State) :
  callClaude out (S fuel) prompt st =
  match api_reply out (calls st) (claude_request prompt) with
  | ApiMessage (text :: _) => (Returned (Some text), after_answer (claude_request prompt) st)
  | ApiMessage [] =>
      (Returned None,
       after_failure (claude_request prompt)
         "Cannot read properties of undefined (reading 'text')" st)
  | ApiError status message =>
      if bool_decide (status = Some 429)
      then callClaude out fuel prompt (after_rate_limit (claude_request prompt) message st)
      else (Returned None, after_failure (claude_request prompt) message st)
  end.
Proof.
  cbn [callClaude]. unfold bind at 1, gets at 1. unfold try_catch at 1.
  unfold bind at 1, messages_create at 1, bind at 1, gets at 1.
  unfold bind at 1, modify at 1. unfold bind at 1, modify at 1.
  unfold status_of.
  change (mkRequest "claude-3-5-sonnet-20241022" 4000 (Some "0.3") prompt)
    with (claude_request prompt).
  cbn [calls emit count_call].
  destruct (api_reply out (calls st) (claude_request prompt)) as [[|text blocks]|status message].
  - reflexivity.
  - reflexivity.
  - unfold throw at 1. unfold bind at 1, console_error at 1, modify at 1.
    destruct (bool_decide (status = Some 429)); reflexivity.
Qed.



(** The call that is not rate-limited ends the recursion. *)
Lemma callClaude_answered (fuel : nat) (prompt : string) (st : State) :
  ¬ rate_limited out (calls st) (claude_request prompt) →
  ∃ st', callClaude out (S fuel) prompt st =
           (Returned (reply_text (api_reply out (calls st) (claude_request prompt))), st') ∧
         calls st' = S (calls st) ∧ docs st' = docs st ∧ doc_dirs st' = doc_dirs st ∧
         requests_of (events st') = requests_of (events st) ++ [claude_request prompt] ∧
         sleeps_of (events st') = sleeps_of (events st) ∧
         writes_of (events st') = writes_of (events st).
Proof.
  intros Hnot. rewrite callClaude_step.
  unfold rate_limited, status_of in Hnot.
  destruct (api_reply out (calls st) (claude_request prompt)) as [[|text blocks]|status message].
  - eexists. split; [reflexivity|]. unfold requests_of, sleeps_of, writes_of.
    cbn [after_failure emit count_call calls docs doc_dirs events].
    rewrite !omap_app. simpl. by rewrite !app_nil_r.
  - eexists. split; [reflexivity|]. unfold requests_of, sleeps_of, writes_of.
    cbn [after_answer emit count_call calls docs doc_dirs events].
    rewrite !omap_app. simpl. by rewrite !app_nil_r.
  - rewrite bool_decide_eq_false_2 by done.
    eexists. split; [reflexivity|]. unfold requests_of, sleeps_of, writes_of.
    cbn [after_failure emit count_call calls docs doc_dirs events].
    rewrite !omap_app. simpl. by rewrite !app_nil_r.
Qed.




End CallClaude.

Section ModulePages.
Import Enhancer EnhancerSpec.
Context (out : Outside) (JSON_stringify : json → string).

Lemma readModuleDoc_found (moduleName current : string) (st : State) :
  docs st !! moduleDocPath moduleName = Some current →
  readModuleDoc moduleName st = (Returned current, st).
Proof.
  intros H. cbv [readModuleDoc bind existsSync readFileSync gets ret].
  rewrite H. rewrite bool_decide_eq_true_2 by eauto. cbv beta iota.
  by rewrite H.
Qed.

Lemma readModuleDoc_missing (moduleName : string) (st : State) :
  docs st !! moduleDocPath moduleName = None →
  readModuleDoc moduleName st = (Returned EmptyString, st).
Proof.
  intros H. cbv [readModuleDoc bind existsSync readFileSync gets ret].
  rewrite H. rewrite bool_decide_eq_false_2 by (by intros [? ?]). reflexivity.
Qed.

(** The outcome of [array.map]: every call of the callback returned, or
    the first that did not decides. *)
Lemma map_outcome_returned {A B} (f : A → Outcome B) (g : A → B) (l : list A) :
  (∀ x, x ∈ l → f x = Returned (g x)) → map_outcome f l = Returned (g <$> l).
Proof.
  induction l as [|x l IH]; intros H; [done|]. rewrite fmap_cons. cbn [map_outcome].
  rewrite (H x (list_elem_of_here x l)).
  rewrite IH; [done|]. intros y Hy. by apply H, list_elem_of_further.
Qed.

Lemma map_outcome_thrown {A B} (f : A → Outcome B) (g : A → B) (l1 l2 : list A)
    (x : A) (e : string) :
  (∀ y, y ∈ l1 → f y = Returned (g y)) → f x = Thrown e →
  map_outcome f (l1 ++ x :: l2) = Thrown e.
Proof.
  induction l1 as [|y l1 IH]; intros H Hx.
  { change (map_outcome f ([] ++ x :: l2))
      with (match f x with
            | Returned y =>
                match map_outcome f l2 with
                | Returned ys => Returned (y :: ys)
                | Thrown e => Thrown e
                | Unfinished => Unfinished
                end
            | Thrown e => Thrown e
            | Unfinished => Unfinished
            end).
    by rewrite Hx. }
  change (map_outcome f ((y :: l1) ++ x :: l2))
    with (match f y with
          | Returned y' =>
              match map_outcome f (l1 ++ x :: l2) with
              | Returned ys => Returned (y' :: ys)
              | Thrown e => Thrown e
              | Unfinished => Unfinished
              end
          | Thrown e => Thrown e
          | Unfinished => Unfinished
          end).
  rewrite (H y (list_elem_of_here y l1)).
  rewrite IH; [done| |done]. intros z Hz. by apply H, list_elem_of_further.
Qed.

Lemma map_outcome_finishes {A B} (f : A → Outcome B) (l : list A) :
  (∀ x, f x ≠ Unfinished) → map_outcome f l ≠ Unfinished.
Proof.
  intros H. induction l as [|x l IH]; [done|]. cbn [map_outcome].
  specialize (H x). destruct (f x); [|done..].
  by destruct (map_outcome f l).
Qed.

Lemma readEntity_file (file : string * Entry) :
  is_file file.2 = true → readEntity file = Returned (entitySummary file.1 (content_of file.2)).
Proof. unfold readEntity. by destruct (file.2). Qed.

Lemma readEntity_directory (file : string * Entry) :
  is_file file.2 = false → readEntity file = Thrown eisdir.
Proof. unfold readEntity. by destruct (file.2). Qed.

(** The analysis of a module returns or throws. *)
Lemma analyzeModuleCode_finishes (moduleName : string) :
  analyzeModuleCode out moduleName ≠ Unfinished.
Proof.
  unfold analyzeModuleCode. destruct (lookup_module out moduleName) as [[c|entries]|]; try done.
  destruct (assoc "entities" entries) as [[c|files]|]; try done.
  pose proof (map_outcome_finishes readEntity
                (filter (λ f, JS.endsWith ".tsx" f.1 = true) files)) as H.
  destruct (map_outcome _ _); try done. intros _. apply H; [|done].
  intros file. unfold readEntity. by destruct (file.2).
Qed.


(** An analysis that throws ends the enhancement of the module after its
    first line, before the page is looked for. *)
Lemma enhanceModuleDocumentation_thrown (fuel : nat) (moduleName e : string) (st : State) :
  analyzeModuleCode out moduleName = Thrown e →
  enhanceModuleDocumentation out JSON_stringify fuel moduleName st =
  (Thrown e, announced moduleName st).
Proof.
  intros H. unfold enhanceModuleDocumentation.
  unfold bind at 1, console_log at 1, modify at 1. unfold bind at 1, outcome.
  by rewrite H.
Qed.

Lemma enhanceModuleDocumentation_missing
    (fuel : nat) (moduleName : string) (moduleCode : json) (st : State) :
  analyzeModuleCode out moduleName = Returned moduleCode →
  docs st !! moduleDocPath moduleName = None →
  enhanceModuleDocumentation out JSON_stringify fuel moduleName st =
  (Returned tt,
   emit (ConsoleLog ("⚠️ No existing documentation found for " +:+ moduleName +:+
                     ", skipping..."))
        (announced moduleName st)).
Proof.
  intros Ha H. unfold enhanceModuleDocumentation.
  unfold bind at 1, console_log at 1, modify at 1. unfold bind at 1, outcome.
  rewrite Ha. unfold bind at 1.
  rewrite readModuleDoc_missing by done. reflexivity.
Qed.

Lemma enhanceModuleDocumentation_found
    (fuel : nat) (moduleName current : string) (moduleCode : json) (st : State) :
  analyzeModuleCode out moduleName = Returned moduleCode →
  docs st !! moduleDocPath moduleName = Some current → current ≠ EmptyString →
  enhanceModuleDocumentation out JSON_stringify fuel moduleName st =
  match callClaude out fuel
          (modulePrompt JSON_stringify moduleName moduleCode current)
          (announced moduleName st) with
  | (Returned (Some (String c text)), st1) =>
      (Returned tt,
       emit (ConsoleLog ("✅ Enhanced " +:+ moduleName +:+ " module documentation"))
         (set_docs (insert (moduleDocPath moduleName) (String c text))
            (emit (WriteFile (moduleDocPath moduleName) (String c text)) st1)))
  | (Returned _, st1) => (Returned tt, st1)
  | (Thrown e, st1) => (Thrown e, st1)
  | (Unfinished, st1) => (Unfinished, st1)
  end.
Proof.
  intros Ha H Hne. unfold enhanceModuleDocumentation.
  unfold bind at 1, console_log at 1, modify at 1. unfold bind at 1, outcome.
  rewrite Ha. unfold bind at 1.
  rewrite (readModuleDoc_found moduleName current) by done.
  destruct current as [|c0 current]; [done|]. cbn [JS.truthy negb].
  unfold bind at 1.
  destruct (callClaude out fuel _ _) as [[[[|c text]|]|e|] st1]; reflexivity.
Qed.

End ModulePages.

Section EnhancerProperties.
Import Enhancer EnhancerSpec.






(** C9. With non-empty insights and an existing overview page,
    [enhanceArchitectureOverview] writes that page alone, and its new
    content is the old content, the heading "AI-Generated Insights" and
    the insights: the old content is a prefix of the new.  When the page
    does not exist the state is left as it is: nothing is written. *)
Theorem overview_insights_are_appended (insights : string) (st : State) :
  insights ≠ EmptyString →
  (∀ current,
     docs st !! "architecture/overview.mdx" = Some current →
     ∃ st',
       enhanceArchitectureOverview (Some insights) st = (Returned tt, st') ∧
       docs st' =
         <["architecture/overview.mdx" := current +:+ insights_heading +:+ insights]>
           (docs st) ∧
       (∃ added, docs st' !! "architecture/overview.mdx" = Some (current +:+ added)) ∧
       (∀ p, p ≠ "architecture/overview.mdx" → docs st' !! p = docs st !! p) ∧
       writes_of (events st') =
         writes_of (events st) ++
         [("architecture/overview.mdx", current +:+ insights_heading +:+ insights)]) ∧
  (docs st !! "architecture/overview.mdx" = None →
   enhanceArchitectureOverview (Some insights) st = (Returned tt, st)).
Proof.
  intros Hne. destruct insights as [|c text]; [done|]. split.
  - intros current H.
    cbv [enhanceArchitectureOverview bind existsSync readFileSync gets ret].
    rewrite H. rewrite bool_decide_eq_true_2 by eauto. cbv beta iota. rewrite H.
    eexists. split; [reflexivity|].
    cbn [docs events emit set_docs]. split_and!.
    + reflexivity.
    + exists (insights_heading +:+ String c text). apply lookup_insert_eq.
    + intros p Hp. by apply lookup_insert_ne.
    + unfold writes_of. rewrite !omap_app. simpl. by rewrite !app_nil_r.
  - intros H.
    cbv [enhanceArchitectureOverview bind existsSync readFileSync gets ret].
    rewrite H. rewrite bool_decide_eq_false_2 by (by intros [? ?]). reflexivity.
Qed.

Lemma overview_insights_are_appended_witness :
  (∀ current,
     docs two_pages !! "architecture/overview.mdx" = Some current →
     ∃ st',
       enhanceArchitectureOverview (Some "Use caching.") two_pages = (Returned tt, st') ∧
       docs st' =
         <["architecture/overview.mdx" := current +:+ insights_heading +:+ "Use caching."]>
           (docs two_pages) ∧
       (∃ added, docs st' !! "architecture/overview.mdx" = Some (current +:+ added)) ∧
       (∀ p, p ≠ "architecture/overview.mdx" → docs st' !! p = docs two_pages !! p) ∧
       writes_of (events st') =
         writes_of (events two_pages) ++
         [("architecture/overview.mdx", current +:+ insights_heading +:+ "Use caching.")]) ∧
  (docs two_pages !! "architecture/overview.mdx" = None →
   enhanceArchitectureOverview (Some "Use caching.") two_pages = (Returned tt, two_pages)).
Proof. apply overview_insights_are_appended. discriminate. Defined.

(** The overview of [two_pages] after the enhancement. *)
Example overview_after_enhancement :
  docs (enhanceArchitectureOverview (Some "Use caching.") two_pages).2
    !! "architecture/overview.mdx" =
  Some ("# Overview" +:+ nl +:+ nl +:+ "## AI-Generated Insights" +:+ nl +:+ nl +:+
        "Use caching.").
Proof. vm_compute. reflexivity. Qed.

End EnhancerProperties.

(** ** The documentation generator *)

Section JoinFacts.


Lemma includes_refl (a : string) : JS.includes a a = true.
Proof.
  pose proof (includes_intro a EmptyString EmptyString) as H.
  by rewrite append_nil_l, append_nil_r in H.
Qed.






End JoinFacts.

Section Counts.
Import Generator GeneratorSpec.




(** The counts of the script's own configuration, as printed. *)
Example default_counts :
  JS.includes "organized into **5 core business modules**"
              (modulesOverview default_config) = true ∧
  JS.includes "    12 entities • No services • No tests"
              (modulesOverview default_config) = true ∧
  JS.includes "entities across 5 modules." (apiIntroduction default_config) = true ∧
  JS.includes "    12 entities available" (apiIntroduction default_config) = true.
Proof. vm_compute. repeat split. Qed.

End Counts.

Section WriteFacts.
Import Generator GeneratorSpec.

Lemma write_all_app (ws1 ws2 : list (string * string)) (f : gmap string string) :
  write_all (ws1 ++ ws2) f = write_all ws2 (write_all ws1 f).
Proof. apply foldl_app. Qed.

Lemma write_all_cons (q d : string) (ws : list (string * string)) (f : gmap string string) :
  write_all ((q, d) :: ws) f = write_all ws (<[q := d]> f).
Proof. reflexivity. Qed.

(** A path that is not written keeps its content. *)
Lemma write_all_other (ws : list (string * string)) (f : gmap string string) (p : string) :
  p ∉ ws.*1 → write_all ws f !! p = f !! p.
Proof.
  revert f. induction ws as [|[q d] ws IH]; intros f Hp; [done|].
  rewrite fmap_cons in Hp. apply not_elem_of_cons in Hp as [Hne Hp].
  rewrite write_all_cons, IH by done. by apply lookup_insert_ne.
Qed.

(** The content of a written path does not depend on what was there. *)
Lemma write_all_written (ws : list (string * string)) (f g : gmap string string) (p : string) :
  p ∈ ws.*1 → write_all ws f !! p = write_all ws g !! p.
Proof.
  revert f g. induction ws as [|[q d] ws IH]; intros f g Hp; [by apply elem_of_nil in Hp|].
  rewrite !write_all_cons. destruct (decide (p ∈ ws.*1)) as [Hin|Hout]; [by apply IH|].
  rewrite !write_all_other by done.
  rewrite fmap_cons in Hp. apply elem_of_cons in Hp as [Hp|Hp]; [|done].
  simpl in Hp. subst q. by rewrite !lookup_insert_eq.
Qed.

Lemma write_all_idempotent (ws : list (string * string)) (f : gmap string string) :
  write_all ws (write_all ws f) = write_all ws f.
Proof.
  apply map_eq. intros p. destruct (decide (p ∈ ws.*1)).
  - by apply write_all_written.
  - by rewrite write_all_other.
Qed.

Lemma write_all_over (ws : list (string * string)) (f : gmap string string) (p d : string) :
  p ∈ ws.*1 → write_all ws (<[p := d]> f) = write_all ws f.
Proof.
  intros Hp. apply map_eq. intros q. destruct (decide (q ∈ ws.*1)).
  - by apply write_all_written.
  - rewrite !write_all_other by done. apply lookup_insert_ne. by intros ->.
Qed.

Lemma write_all_insert (ws : list (string * string)) (f : gmap string string) (p d : string) :
  p ∉ ws.*1 → write_all ws (<[p := d]> f) = <[p := d]> (write_all ws f).
Proof.
  intros Hp. apply map_eq. intros q. destruct (decide (q = p)) as [->|Hne].
  - by rewrite write_all_other, !lookup_insert_eq.
  - rewrite lookup_insert_ne by done. destruct (decide (q ∈ ws.*1)).
    + by apply write_all_written.
    + rewrite !write_all_other by done. by apply lookup_insert_ne.
Qed.

Lemma write_all_is_Some (ws : list (string * string)) (f : gmap string string) (p : string) :
  is_Some (f !! p) → is_Some (write_all ws f !! p).
Proof.
  revert f. induction ws as [|[q d] ws IH]; intros f H; [done|].
  rewrite write_all_cons. apply IH. destruct (decide (q = p)) as [->|].
  - rewrite lookup_insert_eq. eauto.
  - by rewrite lookup_insert_ne.
Qed.

(** *** Computations that only write *)

Lemma writes_writeFileSync (p data : string) : writes (writeFileSync p data) [(p, data)].
Proof. intros st. by eexists. Qed.

Lemma writes_seq (m1 m2 : Eff State unit) (ws1 ws2 : list (string * string)) :
  writes m1 ws1 → writes m2 ws2 → writes (m1 >> m2) (ws1 ++ ws2).
Proof.
  intros H1 H2 st. unfold bind.
  destruct (H1 st) as (st1 & -> & Hf1 & Hd1 & He1 & Hx1).
  destruct (H2 st1) as (st2 & -> & Hf2 & Hd2 & He2 & Hx2).
  exists st2. rewrite write_all_app. split_and!; congruence.
Qed.

Lemma writes_for_each {A} (f : A → Eff State unit) (g : A → list (string * string))
    (l : list A) :
  (∀ x, writes (f x) (g x)) → writes (for_each f l) (concat (g <$> l)).
Proof.
  intros H. induction l as [|x l IH].
  - intros st. by exists st.
  - cbn. by apply writes_seq.
Qed.

Lemma writes_ext (m : Eff State unit) (ws1 ws2 : list (string * string)) :
  ws1 = ws2 → writes m ws1 → writes m ws2.
Proof. by intros ->. Qed.

End WriteFacts.

Section Navigation.
Import Generator GeneratorSpec.

Lemma findApiTab_finishes (tabs : list json) : findApiTab tabs ≠ Unfinished.
Proof.
  induction tabs as [|tab tabs IH]; [done|]. cbn [findApiTab].
  destruct tab; try done; repeat case_match; done.
Qed.

Lemma updateNavigation_finishes (config : Config) (docsConfig : json) :
  updateNavigation config docsConfig ≠ Unfinished.
Proof.
  unfold updateNavigation. repeat case_match; try done.
  intros _. by eapply findApiTab_finishes.
Qed.

Lemma member_set_member_eq (key : string) (v : json) (ms : list (string * json)) :
  member key (set_member key v ms) = Some v.
Proof.
  induction ms as [|[k x] ms IH]; cbn.
  - by rewrite decide_True.
  - destruct (decide (k = key)) as [->|Hne]; cbn.
    + by rewrite decide_True.
    + by rewrite decide_False.
Qed.

Lemma member_set_member_ne (key key' : string) (v : json) (ms : list (string * json)) :
  key ≠ key' → member key' (set_member key v ms) = member key' ms.
Proof.
  intros Hne. induction ms as [|[k x] ms IH]; cbn.
  - by rewrite decide_False.
  - destruct (decide (k = key)) as [->|Hk]; cbn.
    + by rewrite !decide_False.
    + destruct (decide (k = key')); [done|exact IH].
Qed.

Lemma set_member_twice (key : string) (v w : json) (ms : list (string * json)) :
  set_member key v (set_member key w ms) = set_member key v ms.
Proof.
  induction ms as [|[k x] ms IH]; cbn.
  - by rewrite decide_True.
  - destruct (decide (k = key)) as [->|Hk]; cbn.
    + by rewrite decide_True.
    + rewrite decide_False by done. by rewrite IH.
Qed.

Lemma findApiTab_cons (tab : json) (tabs : list json) :
  findApiTab (tab :: tabs) =
  match tab with
  | JNull => Thrown "Cannot read properties of null (reading 'tab')"
  | _ => if is_api_tab tab then Returned (Some 0)
         else match findApiTab tabs with
              | Returned (Some i) => Returned (Some (S i))
              | r => r
              end
  end.
Proof. by destruct tab. Qed.

Lemma findApiTab_found (tabs : list json) (i : nat) :
  findApiTab tabs = Returned (Some i) →
  ∃ tab, tabs !! i = Some tab ∧ is_api_tab tab = true.
Proof.
  revert i. induction tabs as [|tab tabs IH]; intros i; [done|].
  rewrite findApiTab_cons. destruct (is_api_tab tab) eqn:E.
  - destruct tab; try done. intros [= <-]. by eexists.
  - destruct tab; try done;
      (destruct (findApiTab tabs) as [[j|]|e|]; try done;
       intros [= <-]; by apply IH).
Qed.

Lemma findApiTab_insert (tabs : list json) (i : nat) (tab' : json) :
  findApiTab tabs = Returned (Some i) → is_api_tab tab' = true →
  findApiTab (<[i := tab']> tabs) = Returned (Some i).
Proof.
  intros H Htab'. revert i H. induction tabs as [|tab tabs IH]; intros i; [done|].
  rewrite findApiTab_cons. destruct (is_api_tab tab) eqn:E.
  - destruct tab; try done. intros [= <-].
    change (<[0 := tab']> (JObject members :: tabs)) with (tab' :: tabs).
    rewrite findApiTab_cons, Htab'. by destruct tab'.
  - destruct tab; try done;
      (destruct (findApiTab tabs) as [[j|]|e|] eqn:F; try done;
       intros [= <-];
       match goal with
       | |- context [<[S ?j := ?t]> (?x :: ?l)] =>
           change (<[S j := t]> (x :: l)) with (x :: <[j := t]> l)
       end;
       rewrite findApiTab_cons, E, (IH j eq_refl); done).
Qed.

(** Updating an updated manifest changes nothing. *)
Lemma updateNavigation_idempotent (config : Config) (v v' : json) :
  updateNavigation config v = Returned (Some v') →
  updateNavigation config v' = Returned (Some v').
Proof.
  unfold updateNavigation at 1.
  destruct v as [| | | | |ms]; try done.
  destruct (member "navigation" ms) as [[| | | | |nav]|] eqn:Hnav; try done.
  destruct (member "tabs" nav) as [[| | | |tabs|]|] eqn:Htabs; try done.
  destruct (findApiTab tabs) as [[i|]|e|] eqn:Hfind; try done.
  destruct (tabs !! i) as [[| | | | |tab]|] eqn:Hi; try done.
  intros [= <-]. unfold updateNavigation.
  rewrite member_set_member_eq, member_set_member_eq.
  assert (Hapi : is_api_tab (JObject (set_member "groups" (apiGroups config) tab)) = true).
  { destruct (findApiTab_found tabs i Hfind) as (t & Ht & Hapi).
    rewrite Hi in Ht. injection Ht as <-. cbn [is_api_tab] in *.
    by rewrite member_set_member_ne. }
  rewrite (findApiTab_insert tabs i _ Hfind Hapi).
  rewrite list_lookup_insert_eq by (by eapply lookup_lt_Some).
  by rewrite set_member_twice, list_insert_insert_eq, !set_member_twice.
Qed.

End Navigation.

Section GeneratorRun.
Import Generator GeneratorSpec.
Context (config : Config).
Context (JSON_parse : string → option json) (JSON_stringify : json → string).

Lemma generateArchitectureDocs_writes :
  writes (generateArchitectureDocs config) (architecture_writes config).
Proof.
  apply (writes_seq _ _ [_] [_; _]); [apply writes_writeFileSync|].
  apply (writes_seq _ _ [_] [_]); apply writes_writeFileSync.
Qed.

Lemma generateModuleDocs_writes :
  writes (generateModuleDocs config) (module_writes config).
Proof.
  apply (writes_seq _ _ [_]); [apply writes_writeFileSync|].
  eapply writes_ext;
    [|apply (writes_for_each _
               (λ module, [(in_docs config ("modules/" +:+ name module +:+ ".mdx"),
                            moduleDoc module)]))].
  - induction (modules config) as [|m l IH]; [done|]. cbn. f_equal. exact IH.
  - intros module. apply writes_writeFileSync.
Qed.

Lemma generateComponentDocs_writes :
  writes (generateComponentDocs config) (component_writes config).
Proof. apply writes_writeFileSync. Qed.

Lemma generateApiReference_writes :
  writes (generateApiReference config) (api_writes config).
Proof.
  apply (writes_seq _ _ [_]); [apply writes_writeFileSync|].
  apply (writes_for_each _ (entity_writes config)). intros module.
  eapply writes_ext;
    [|apply (writes_for_each _
               (λ entity,
                  [(in_docs config
                      ("api-reference/" +:+ name module +:+ "/" +:+ entity +:+ ".mdx"),
                    generateEntityApiDoc (name module) entity)]))].
  - unfold entity_writes. induction (entities module) as [|e l IH]; [done|].
    cbn. f_equal. exact IH.
  - intros entity. apply writes_writeFileSync.
Qed.

(** [createDirectoryStructure] only adds directories. *)
Lemma createDirectoryStructure_run (st : State) :
  ∃ st', createDirectoryStructure config st = (Returned tt, st') ∧
         files st' = files st ∧ dirs st' = make_dirs config (files st) (dirs st) ∧
         events st' = events st ∧ exitCode st' = exitCode st.
Proof.
  unfold createDirectoryStructure, make_dirs.
  generalize (directories config). intros l. revert st.
  induction l as [|dir l IH]; intros st; [by exists st|].
  cbn [for_each foldl]. unfold bind at 1, bind at 1, existsSync at 1, gets at 1.
  unfold make_dir at 2, covered, in_docs.
  destruct (bool_decide _) eqn:E.
  - destruct (IH st) as (st' & H & ?). exists st'. by rewrite <- H.
  - unfold mkdirSync_recursive, modify.
    destruct (IH (set_dirs
                    (λ d, d ∪ list_to_set (ancestors (path_join (docsPath config) dir)) ∪
                          {[path_join (docsPath config) dir]}) st))
      as (st' & H & Hf & Hd & He & Hx).
    exists st'. split; [exact H|]. by rewrite Hf, Hd, He, Hx.
Qed.

(** [updateDocsConfig] changes only the manifest; it returns or throws. *)
Lemma updateDocsConfig_run (st : State) :
  ∃ r st', updateDocsConfig config JSON_parse JSON_stringify st = (r, st') ∧
           r ≠ Unfinished ∧
           files st' = update_docs_json config JSON_parse JSON_stringify (files st) ∧
           dirs st' = dirs st.
Proof.
  unfold updateDocsConfig, update_docs_json, bind at 1, gets at 1, docs_json, in_docs.
  destruct (files st !! path_join (docsPath config) "docs.json" ≫= JSON_parse)
    as [docsConfig|]; [|by eexists _, _].
  destruct (updateNavigation config docsConfig) as [[docsConfig'|]|e|] eqn:E;
    try (by eexists _, _).
  by apply updateNavigation_finishes in E.
Qed.

End GeneratorRun.

Section Directories.
Import Generator GeneratorSpec.
Context (config : Config).

Lemma make_dir_subseteq (f : gmap string string) (ds : gset string) (dir : string) :
  ds ⊆ make_dir config f ds dir.
Proof. unfold make_dir. case_bool_decide; set_solver. Qed.

Lemma make_dir_covers (f : gmap string string) (ds : gset string) (dir : string) :
  covered f (make_dir config f ds dir) (in_docs config dir).
Proof.
  unfold make_dir. case_bool_decide as H.
  - destruct H as [H|H]; [by left|by right].
  - left. set_solver.
Qed.

Lemma covered_mono (f f' : gmap string string) (ds ds' : gset string) (p : string) :
  ds ⊆ ds' → (∀ q, is_Some (f !! q) → is_Some (f' !! q)) →
  covered f ds p → covered f' ds' p.
Proof. intros Hd Hf [H|H]; [left; set_solver|right; auto]. Qed.

Lemma make_dirs_subseteq (f : gmap string string) (l : list string) (ds : gset string) :
  ds ⊆ foldl (make_dir config f) ds l.
Proof.
  revert ds. induction l as [|dir l IH]; intros ds; [done|]. cbn.
  etrans; [apply (make_dir_subseteq f ds dir)|apply IH].
Qed.

Lemma make_dirs_covers (f : gmap string string) (l : list string) (ds : gset string) :
  ∀ dir, dir ∈ l → covered f (foldl (make_dir config f) ds l) (in_docs config dir).
Proof.
  revert ds. induction l as [|d l IH]; intros ds dir Hin; [by apply elem_of_nil in Hin|].
  cbn. apply elem_of_cons in Hin as [->|Hin]; [|by apply IH].
  eapply covered_mono; [apply make_dirs_subseteq|done|apply make_dir_covers].
Qed.

(** Where everything exists already nothing is created. *)
Lemma make_dirs_fixed (f : gmap string string) (l : list string) (ds : gset string) :
  (∀ dir, dir ∈ l → covered f ds (in_docs config dir)) →
  foldl (make_dir config f) ds l = ds.
Proof.
  induction l as [|d l IH]; intros H; [done|]. cbn.
  assert (make_dir config f ds d = ds) as ->.
  { unfold make_dir. rewrite bool_decide_eq_true_2; [done|]. apply H, list_elem_of_here. }
  apply IH. intros dir Hin. by apply H, list_elem_of_further.
Qed.

Lemma make_dirs_idempotent (f f' : gmap string string) (ds : gset string) :
  (∀ q, is_Some (f !! q) → is_Some (f' !! q)) →
  make_dirs config f' (make_dirs config f ds) = make_dirs config f ds.
Proof.
  intros Hf. unfold make_dirs at 1. apply make_dirs_fixed. intros dir Hin.
  eapply covered_mono; [done|exact Hf|]. by apply make_dirs_covers.
Qed.

End Directories.

Section Idempotence.
Import Generator GeneratorSpec.
Context (config : Config).
Context (JSON_parse : string → option json) (JSON_stringify : json → string).

Lemma update_docs_json_is_Some (f : gmap string string) (p : string) :
  is_Some (f !! p) → is_Some (update_docs_json config JSON_parse JSON_stringify f !! p).
Proof.
  intros H. unfold update_docs_json. repeat case_match; try done.
  destruct (decide (docs_json config = p)) as [->|].
  - rewrite lookup_insert_eq. eauto.
  - by rewrite lookup_insert_ne.
Qed.

(** The tree one run leaves: the directories are created, the pages are
    written, then the manifest is updated. *)
Lemma generateAllDocs_run (st : State) :
  ∃ r st',
    generateAllDocs config JSON_parse JSON_stringify st = (r, st') ∧
    files st' =
      update_docs_json config JSON_parse JSON_stringify
        (write_all (page_writes config) (files st)) ∧
    dirs st' = make_dirs config (files st) (dirs st).
Proof.
  unfold generateAllDocs. unfold bind at 1, console_log at 1, modify at 1.
  unfold try_catch.
  set (st0 := emit (ConsoleLog "🚀 Starting documentation generation...") st).
  unfold bind at 1.
  destruct (createDirectoryStructure_run config st0) as (s1 & -> & Hf1 & Hd1 & _).
  unfold bind at 1.
  destruct (generateArchitectureDocs_writes config s1) as (s2 & -> & Hf2 & Hd2 & _).
  unfold bind at 1.
  destruct (generateModuleDocs_writes config s2) as (s3 & -> & Hf3 & Hd3 & _).
  unfold bind at 1.
  destruct (generateComponentDocs_writes config s3) as (s4 & -> & Hf4 & Hd4 & _).
  unfold bind at 1.
  destruct (generateApiReference_writes config s4) as (s5 & -> & Hf5 & Hd5 & _).
  unfold bind at 1.
  destruct (updateDocsConfig_run config JSON_parse JSON_stringify s5)
    as (r & s6 & -> & Hr & Hf6 & Hd6).
  assert (Hfiles : files s6 =
            update_docs_json config JSON_parse JSON_stringify
              (write_all (page_writes config) (files st))).
  { rewrite Hf6, Hf5, Hf4, Hf3, Hf2, Hf1. unfold page_writes.
    by rewrite !write_all_app. }
  assert (Hdirs : dirs s6 = make_dirs config (files st) (dirs st)).
  { by rewrite Hd6, Hd5, Hd4, Hd3, Hd2, Hd1. }
  rewrite <- Hfiles, <- Hdirs. destruct r as [[]|e|]; [| |done]; by eexists _, _.
Qed.

Lemma generateAllDocs_tree (st : State) :
  let st' := (generateAllDocs config JSON_parse JSON_stringify st).2 in
  files st' =
    update_docs_json config JSON_parse JSON_stringify
      (write_all (page_writes config) (files st)) ∧
  dirs st' = make_dirs config (files st) (dirs st).
Proof. destruct (generateAllDocs_run st) as (r & st' & -> & H). exact H. Qed.

(** The files of a second run, given that what [JSON.stringify] prints for
    an updated manifest parses to that manifest again. *)
Lemma update_write_fixed (f : gmap string string) :
  (∀ text v v',
     JSON_parse text = Some v →
     updateNavigation config v = Returned (Some v') →
     JSON_parse (JSON_stringify v') = Some v') →
  let once := update_docs_json config JSON_parse JSON_stringify
                (write_all (page_writes config) f) in
  update_docs_json config JSON_parse JSON_stringify
    (write_all (page_writes config) once) = once.
Proof.
  intros Hround once. unfold once, update_docs_json at 2.
  set (f1 := write_all (page_writes config) f).
  destruct (f1 !! docs_json config ≫= JSON_parse) as [v|] eqn:Hread;
    [destruct (updateNavigation config v) as [[v'|]|e|] eqn:Hnav|].
  - destruct (decide (docs_json config ∈ (page_writes config).*1)) as [Hin|Hout].
    + rewrite write_all_over by done. unfold f1. rewrite write_all_idempotent.
      fold f1. unfold update_docs_json. by rewrite Hread, Hnav.
    + rewrite write_all_insert by done. unfold f1. rewrite write_all_idempotent.
      fold f1. unfold update_docs_json. rewrite lookup_insert_eq.
      cbn [mbind option_bind].
      destruct (f1 !! docs_json config) as [text|] eqn:Htext; [|done].
      cbn [mbind option_bind] in Hread.
      rewrite (Hround text v v' Hread Hnav).
      rewrite (updateNavigation_idempotent config v v' Hnav).
      cbn [mbind option_bind]. rewrite Hread, Hnav.
      by rewrite insert_insert_eq.
  - unfold f1. rewrite write_all_idempotent. fold f1.
    unfold update_docs_json. by rewrite Hread, Hnav.
  - unfold f1. rewrite write_all_idempotent. fold f1.
    unfold update_docs_json. by rewrite Hread, Hnav.
  - by apply updateNavigation_finishes in Hnav.
  - unfold f1. rewrite write_all_idempotent. fold f1.
    unfold update_docs_json. by rewrite Hread.
Qed.

(** C8. Provided that the text [JSON.stringify] prints for an updated
    manifest is parsed by [JSON.parse] to that same manifest, a second run
    of the generator on the tree the first run has left, with the same
    configuration, leaves every file (the generated pages and [docs.json])
    and every directory as the first run left them. *)
Theorem generateAllDocs_idempotent (st : State) :
  (∀ text v v',
     JSON_parse text = Some v →
     updateNavigation config v = Returned (Some v') →
     JSON_parse (JSON_stringify v') = Some v') →
  let st1 := next_run (generateAllDocs config JSON_parse JSON_stringify st).2 in
  let st2 := (generateAllDocs config JSON_parse JSON_stringify st1).2 in
  files st2 = files st1 ∧ dirs st2 = dirs st1.
Proof.
  intros Hround st1 st2.
  destruct (generateAllDocs_tree st) as [Hf1 Hd1].
  destruct (generateAllDocs_tree st1) as [Hf2 Hd2].
  fold st2 in Hf2, Hd2. cbv zeta in Hf1, Hd1.
  change (files st1) with (files (generateAllDocs config JSON_parse JSON_stringify st).2)
    in *.
  change (dirs st1) with (dirs (generateAllDocs config JSON_parse JSON_stringify st).2)
    in *.
  split.
  - rewrite Hf2, Hf1. by apply update_write_fixed.
  - rewrite Hd2, Hd1, Hf1. apply make_dirs_idempotent.
    intros q Hq. by apply update_docs_json_is_Some, write_all_is_Some.
Qed.

End Idempotence.

Section IdempotenceRun.
Import Generator GeneratorSpec.

Lemma stub_round_trip (text : string) (v v' : json) :
  parse_stub text = Some v →
  updateNavigation small_config v = Returned (Some v') →
  parse_stub (stringify_stub v') = Some v'.
Proof.
  unfold parse_stub at 1.
  destruct (decide (text = "manifest")) as [->|];
    [|destruct (decide (text = "manifest, updated")) as [->|]; [|done]].
  - intros [= <-] H. vm_compute in H. injection H as <-. vm_compute. reflexivity.
  - intros [= <-] H. vm_compute in H. injection H as <-. vm_compute. reflexivity.
Qed.

Lemma generateAllDocs_idempotent_witness :
  let st1 := next_run (generateAllDocs small_config parse_stub stringify_stub
                         manifest_only).2 in
  let st2 := (generateAllDocs small_config parse_stub stringify_stub st1).2 in
  files st2 = files st1 ∧ dirs st2 = dirs st1.
Proof. apply generateAllDocs_idempotent. exact stub_round_trip. Defined.

(** The first run on a tree with the manifest only writes the pages and
    rewrites the manifest. *)
Example first_run_updates_manifest :
  let st1 := (generateAllDocs small_config parse_stub stringify_stub manifest_only).2 in
  files st1 !! "docs.json" = Some "manifest, updated" ∧
  files st1 !! "modules/overview.mdx" = Some (modulesOverview small_config) ∧
  files st1 !! "api-reference/sales/cart-item.mdx" =
    Some (generateEntityApiDoc "sales" "cart-item") ∧
  size (files st1) = 12 ∧
  exitCode st1 = None.
Proof. vm_compute. repeat split. Qed.

End IdempotenceRun.

(** ** The change aggregator: notifications, commands and keys *)

Section Runs.
Import Watcher WatcherSpec WatcherTrace.

Lemma append_inj_l (a b c : string) : a +:+ b = a +:+ c → b = c.
Proof.
  induction a as [|x a IH]; [done|]. rewrite !append_cons. intros [= H]. by apply IH.
Qed.

Lemma commands_of_app (e1 e2 : list Event) :
  commands_of (e1 ++ e2) = commands_of e1 ++ commands_of e2.
Proof. apply omap_app. Qed.

Lemma delivered_app (p : string) (e1 e2 : list Event) :
  delivered p (e1 ++ e2) ↔ delivered p e1 ∨ delivered p e2.
Proof. unfold delivered. rewrite !elem_of_app. tauto. Qed.

Lemma delivered_nil (p : string) : ¬ delivered p [].
Proof. intros [H|H]; by apply elem_of_nil in H. Qed.

(** Only the lines of the handlers tell of a notification. *)
Lemma delivered_log (p line : string) :
  delivered p [ConsoleLog line] → is_notification line = true.
Proof.
  unfold is_notification.
  intros [H|H]; apply list_elem_of_singleton in H; injection H as <-;
    rewrite startsWith_append; [done|apply orb_true_r].
Qed.

Lemma delivered_other (p : string) (e : Event) :
  (∀ line, e = ConsoleLog line → is_notification line = false) → ¬ delivered p [e].
Proof.
  intros He Hd. destruct e as [line| |]; [|destruct Hd as [H|H];
    apply list_elem_of_singleton in H; discriminate H..].
  apply delivered_log in Hd. by rewrite (He line eq_refl) in Hd.
Qed.

Lemma runs_refl (st : State) : runs [] st st.
Proof.
  split; [by rewrite app_nil_r|simpl; lia|done..|].
  exists []. rewrite app_nil_r. split; [done|]. intros p H. by apply delivered_nil in H.
Qed.

Lemma runs_trans (c1 c2 : list string) (st1 st2 st3 : State) :
  runs c1 st1 st2 → runs c2 st2 st3 → runs (c1 ++ c2) st1 st3.
Proof.
  intros [C1 K1 T1 P1 S1 (e1 & E1 & D1)] [C2 K2 T2 P2 S2 (e2 & E2 & D2)]. split.
  - by rewrite C2, C1, app_assoc.
  - rewrite K2, K1, length_app. lia.
  - congruence.
  - congruence.
  - auto.
  - exists (e1 ++ e2). rewrite E2, E1, app_assoc. split; [done|].
    intros p [H|H]%delivered_app; auto.
Qed.

(** Printing a line of the updater's own, or an error. *)
Lemma runs_emit (e : Event) (st : State) :
  commands_of [e] = [] →
  (∀ line, e = ConsoleLog line → is_notification line = false) →
  runs [] st (emit e st).
Proof.
  intros Hc He. split; [|simpl; lia|done..|].
  - cbn [events emit]. by rewrite commands_of_app, Hc.
  - exists [e]. split; [done|]. intros p H. by apply delivered_other in H.
Qed.

Lemma runs_set_env (f : gmap string string → gmap string string) (st : State) :
  runs [] st (set_env f st).
Proof.
  split; [by rewrite app_nil_r|simpl; lia|done..|].
  exists []. rewrite app_nil_r. split; [done|]. intros p H. by apply delivered_nil in H.
Qed.

(** Handling a notification. *)
Lemma deliver_run (ev : FileEvent) (st : State) :
  deliver ev st = (Returned tt, (deliver ev st).2).
Proof. by destruct ev. Qed.

Lemma deliver_state (ev : FileEvent) (st : State) :
  (deliver ev st).2 =
  set_pendingChanges (JS.set_add (path_of ev)) (emit (ConsoleLog (notification_line ev)) st).
Proof. by destruct ev. Qed.

Lemma deliver_pending (ev : FileEvent) (st : State) :
  pendingChanges (deliver ev st).2 = JS.set_add (path_of ev) (pendingChanges st).
Proof. by rewrite deliver_state. Qed.

Lemma deliver_env (ev : FileEvent) (st : State) : env (deliver ev st).2 = env st.
Proof. by rewrite deliver_state. Qed.

(** The line of a notification tells its path. *)
Lemma delivered_notification (p : string) (ev : FileEvent) :
  delivered p [ConsoleLog (notification_line ev)] → p = path_of ev.
Proof.
  intros [H|H]; apply list_elem_of_singleton in H; injection H as H;
    destruct ev as [q|q|q]; cbn [notification_line path_of] in *;
    first [ by apply append_inj_l in H
          | exfalso; revert H;
            eapply neq_by_prefix; [apply startsWith_append|reflexivity] ].
Qed.

Lemma runs_deliver (ev : FileEvent) (st : State) : runs [] st (deliver ev st).2.
Proof.
  rewrite deliver_state. split; [|simpl; lia|done..| |].
  - cbn [events emit set_pendingChanges]. by rewrite commands_of_app.
  - intros p Hp. cbn [pendingChanges set_pendingChanges emit].
    apply elem_of_set_add. by right.
  - eexists [_]. split; [reflexivity|]. intros p ->%delivered_notification.
    cbn [pendingChanges set_pendingChanges emit]. apply elem_of_set_add. by left.
Qed.

Lemma deliver_all_run (evs : list FileEvent) (st : State) :
  deliver_all evs st = (Returned tt, (deliver_all evs st).2).
Proof.
  revert st. induction evs as [|ev evs IH]; intros st; [done|].
  change (deliver_all (ev :: evs) st) with ((deliver ev >> deliver_all evs) st).
  unfold bind. rewrite (deliver_run ev st). apply IH.
Qed.

Lemma deliver_all_cons (ev : FileEvent) (evs : list FileEvent) (st : State) :
  (deliver_all (ev :: evs) st).2 = (deliver_all evs (deliver ev st).2).2.
Proof.
  change (deliver_all (ev :: evs) st) with ((deliver ev >> deliver_all evs) st).
  unfold bind. by rewrite (deliver_run ev st).
Qed.

Lemma runs_deliver_all (evs : list FileEvent) (st : State) :
  runs [] st (deliver_all evs st).2.
Proof.
  revert st. induction evs as [|ev evs IH]; intros st; [apply runs_refl|].
  rewrite deliver_all_cons.
  apply (runs_trans [] [] _ _ _ (runs_deliver ev st) (IH _)).
Qed.

Lemma deliver_all_env (evs : list FileEvent) (st : State) :
  env (deliver_all evs st).2 = env st.
Proof.
  revert st. induction evs as [|ev evs IH]; intros st; [done|].
  by rewrite deliver_all_cons, IH, deliver_env.
Qed.

End Runs.

Section Commands.
Import Watcher WatcherSpec WatcherTrace.
Context (out : Outside).

(** An awaited command: the caller resumes with the reply of the outside
    world, after the notifications that arrived meanwhile were handled. *)
Lemma after_exec_state (cmd : string) (st : State) :
  after_exec out cmd st =
  (deliver_all (exec_arrivals (exec_reply out (ticks st) cmd))
               (tick (emit (ExecRun cmd) st))).2.
Proof.
  unfold after_exec, execAsync. cbv [bind gets modify].
  rewrite deliver_all_run. by destruct (exec_result _).
Qed.

Lemma execAsync_eq (cmd : string) (st : State) :
  execAsync out cmd st =
  (result_of (exec_result (exec_reply out (ticks st) cmd)), after_exec out cmd st).
Proof.
  rewrite after_exec_state. unfold execAsync. cbv [bind gets modify].
  rewrite deliver_all_run. by destruct (exec_result _).
Qed.

Lemma bind_execAsync {B} (cmd : string) (k : string → Eff State B) (st : State) :
  bind (execAsync out cmd) k st =
  match exec_result (exec_reply out (ticks st) cmd) with
  | Resolved stdout => k stdout (after_exec out cmd st)
  | Rejected error => (Thrown error, after_exec out cmd st)
  end.
Proof. unfold bind. rewrite execAsync_eq. by destruct (exec_result _). Qed.

Lemma runs_exec (cmd : string) (st : State) : runs [cmd] st (after_exec out cmd st).
Proof.
  rewrite after_exec_state.
  refine (runs_trans [cmd] [] _ _ _ _ (runs_deliver_all _ _)).
  split; [|simpl; lia|done..|].
  - cbn [events emit tick]. by rewrite commands_of_app.
  - eexists [_]. split; [reflexivity|]. intros p H. by apply delivered_other in H.
Qed.

Lemma after_exec_env (cmd : string) (st : State) : env (after_exec out cmd st) = env st.
Proof. rewrite after_exec_state. by rewrite deliver_all_env. Qed.

Lemma after_exec_ticks (cmd : string) (st : State) :
  ticks (after_exec out cmd st) = S (ticks st).
Proof. rewrite (runs_ticks _ _ _ (runs_exec cmd st)). simpl. lia. Qed.

Lemma runs_log (line : string) (st : State) :
  is_notification line = false → runs [] st (emit (ConsoleLog line) st).
Proof. intros H. apply runs_emit; [done|]. by intros ? [= <-]. Qed.

Lemma runs_error (label error : string) (st : State) :
  runs [] st (emit (ConsoleError label error) st).
Proof. by apply runs_emit. Qed.

Local Ltac close_goal R Hclean :=
  first [ done | lia
        | refine (runs_trans _ [] _ _ _ R (runs_error _ _ _))
        | (refine (runs_trans _ [] _ _ _ R (runs_log _ _ _)); reflexivity)
        | (cbn [env emit]; congruence)
        | (let H1 := fresh in let H2 := fresh in
           intros ? H1 H2; exfalso; by specialize (Hclean _ H1 H2))
        | (intros ? [= <-]; split; [done|cbn [events emit]; apply last_snoc]) ].

Local Ltac close_case R Hclean := split_and!; close_goal R Hclean.

(** [commitChanges] returns, having run the first [k] of its four
    commands. *)
Lemma commitChanges_runs (message : string) (analysis : Analysis) (st : State) :
  ∃ st' k,
    commitChanges out message analysis st = (Returned tt, st') ∧
    runs (take k (commit_commands out message analysis (S (ticks st)))) st st' ∧
    env st' = env st ∧
    1 ≤ k ≤ 4 ∧
    (∀ stdout, exec_result (exec_reply out (ticks st) "git status --porcelain") =
                 Resolved stdout → JS.trim stdout = EmptyString → k = 1) ∧
    (∀ e, exec_result (exec_reply out (ticks st) "git status --porcelain") = Rejected e →
          k = 1 ∧ last (events st') = Some (ConsoleError "❌ Commit failed:" e)) ∧
    (k = 4 → env st !! "AUTO_PUSH" = Some "true").
Proof.
  unfold commitChanges, try_catch. rewrite bind_execAsync.
  pose proof (runs_exec "git status --porcelain" st) as R0.
  pose proof (after_exec_env "git status --porcelain" st) as V0.
  pose proof (after_exec_ticks "git status --porcelain" st) as K0.
  set (s0 := after_exec out "git status --porcelain" st) in *.
  assert (Hnone : ∀ stdout0 : string,
             Resolved stdout0 = Resolved stdout0 → JS.trim stdout0 = EmptyString → 1 = 1)
    by done.
  destruct (exec_result (exec_reply out (ticks st) "git status --porcelain"))
    as [stdout|e0].
  2:{ eexists _, 1. split; [reflexivity|]. close_case R0 Hnone. }
  destruct (JS.trim stdout) as [|c t] eqn:Et.
  { eexists _, 1. split; [reflexivity|]. close_case R0 Hnone. }
  cbn [JS.truthy]. unfold bind at 1, gets at 1. rewrite K0. rewrite bind_execAsync.
  assert (Hclean : ∀ stdout0 : string,
             Resolved stdout = Resolved stdout0 → JS.trim stdout0 = EmptyString → False).
  { intros ? [= <-] ?. congruence. }
  pose proof (runs_exec "git add ." s0) as R1.
  pose proof (after_exec_env "git add ." s0) as V1.
  set (s1 := after_exec out "git add ." s0) in *.
  pose proof (runs_trans _ _ _ _ _ R0 R1) as R01. cbn [app] in R01.
  destruct (exec_result (exec_reply out (ticks s0) "git add .")) as [o1|e1].
  2:{ eexists _, 2. split; [reflexivity|]. close_case R01 Hclean. }
  rewrite bind_execAsync.
  change ("git commit -m " +:+ dq +:+
          detailedMessage message analysis (clock_iso out (S (ticks st))) +:+ dq)
    with (commit_command out message analysis (S (ticks st))).
  set (cc := commit_command out message analysis (S (ticks st))) in *.
  pose proof (runs_exec cc s1) as R2.
  pose proof (after_exec_env cc s1) as V2.
  set (s2 := after_exec out cc s1) in *.
  pose proof (runs_trans _ _ _ _ _ R01 R2) as R02. cbn [app] in R02.
  destruct (exec_result (exec_reply out (ticks s1) cc)) as [o2|e2].
  2:{ eexists _, 3. split; [reflexivity|]. close_case R02 Hclean. }
  unfold bind at 1. unfold bind at 1, gets at 1.
  assert (Venv : env s2 = env st) by congruence. rewrite Venv.
  destruct (bool_decide (env st !! "AUTO_PUSH" = Some "true")) eqn:Ep.
  - apply bool_decide_eq_true in Ep. rewrite bind_execAsync.
    pose proof (runs_exec "git push" s2) as R3.
    pose proof (after_exec_env "git push" s2) as V3.
    set (s3 := after_exec out "git push" s2) in *.
    pose proof (runs_trans _ _ _ _ _ R02 R3) as R03. cbn [app] in R03.
    destruct (exec_result (exec_reply out (ticks s2) "git push")) as [o3|e3].
    + eexists _, 4. split; [reflexivity|]. close_case R03 Hclean.
    + eexists _, 4. split; [reflexivity|]. close_case R03 Hclean.
  - eexists _, 3. split; [reflexivity|]. close_case R02 Hclean.
Qed.

Lemma bind_assoc {A B C} (m : Eff State A) (f : A → Eff State B) (g : B → Eff State C)
    (st : State) :
  bind (bind m f) g st = bind m (λ x, bind (f x) g) st.
Proof. unfold bind. by destruct (m st) as [[a|e|] st1]. Qed.

(** [quickUpdate] returns; it stops at the first command that fails. *)
Lemma quickUpdate_runs (analysis : Analysis) (st : State) :
  ∃ st' cmds,
    quickUpdate out analysis st = (Returned tt, st') ∧
    runs cmds st st' ∧ env st' = env st ∧
    (∀ e, types analysis = true →
          exec_result (exec_reply out (ticks st) sync_cmd) = Rejected e →
          cmds = [sync_cmd] ∧
          last (events st') = Some (ConsoleError "❌ Quick update failed:" e)) ∧
    (∀ e, (types analysis = true →
           ∃ s, exec_result (exec_reply out (ticks st) sync_cmd) = Resolved s) →
          exec_result (exec_reply out (ticks st + length (sync_commands analysis))
                         generate_cmd) = Rejected e →
          cmds = sync_commands analysis ++ [generate_cmd] ∧
          last (events st') = Some (ConsoleError "❌ Quick update failed:" e)) ∧
    (∀ s, (types analysis = true →
           ∃ s, exec_result (exec_reply out (ticks st) sync_cmd) = Resolved s) →
          exec_result (exec_reply out (ticks st + length (sync_commands analysis))
                         generate_cmd) = Resolved s →
          ∃ rest, cmds = sync_commands analysis ++
                         generate_cmd :: "git status --porcelain" :: rest).
Proof.
  unfold quickUpdate. unfold bind at 1, console_log at 1, modify at 1.
  pose proof (runs_log "⚡ Running quick documentation update..." st eq_refl) as Q.
  set (q := emit (ConsoleLog "⚡ Running quick documentation update...") st) in *.
  assert (Kq : ticks q = ticks st) by done.
  assert (Vq : env q = env st) by done.
  unfold try_catch, sync_commands.
  destruct (types analysis).
  - rewrite bind_assoc, bind_execAsync.
    change "npm run sync:types" with sync_cmd.
    pose proof (runs_exec sync_cmd q) as R0.
    pose proof (after_exec_env sync_cmd q) as V0.
    pose proof (after_exec_ticks sync_cmd q) as K0.
    set (s0 := after_exec out sync_cmd q) in *.
    pose proof (runs_trans _ _ _ _ _ Q R0) as R0'. cbn [app] in R0'.
    rewrite Kq.
    destruct (exec_result (exec_reply out (ticks st) sync_cmd)) as [o0|e0].
    + unfold bind at 1, ret at 1. rewrite bind_execAsync.
      change "node scripts/generate-docs.js" with generate_cmd.
      pose proof (runs_exec generate_cmd s0) as R1.
      pose proof (after_exec_env generate_cmd s0) as V1.
      pose proof (after_exec_ticks generate_cmd s0) as K1.
      set (s1 := after_exec out generate_cmd s0) in *.
      pose proof (runs_trans _ _ _ _ _ R0' R1) as R1'. cbn [app] in R1'.
      rewrite K0, Kq. cbn [length]. rewrite Nat.add_1_r.
      destruct (exec_result (exec_reply out (S (ticks st)) generate_cmd)) as [o1|e1].
      * destruct (commitChanges_runs "📝 Quick docs update" analysis s1)
          as (s2 & k & -> & R2 & V2 & [Hk1 Hk4] & _).
        eexists _, _. split; [reflexivity|].
        split; [exact (runs_trans _ _ _ _ _ R1' R2)|].
        split_and!; [congruence|done|done|].
        intros s _ _. destruct k as [|k]; [lia|]. by eexists.
      * eexists _, _. split; [reflexivity|].
        split; [exact (runs_trans _ [] _ _ _ R1' (runs_error _ _ _))|].
        split_and!; [cbn [env emit]; congruence|done| |done].
        intros e _ [= <-]. split; [done|]. cbn [events emit]. apply last_snoc.
    + eexists _, _. split; [reflexivity|].
      split; [exact (runs_trans _ [] _ _ _ R0' (runs_error _ _ _))|].
      split_and!; [cbn [env emit]; congruence| | |].
      * intros e _ [= <-]. split; [done|]. cbn [events emit]. apply last_snoc.
      * intros e H. destruct (H eq_refl) as [s Hs]. done.
      * intros e H. destruct (H eq_refl) as [s Hs]. done.
  - unfold bind at 1, ret at 1. rewrite bind_execAsync.
    change "node scripts/generate-docs.js" with generate_cmd.
    pose proof (runs_exec generate_cmd q) as R1.
    pose proof (after_exec_env generate_cmd q) as V1.
    set (s1 := after_exec out generate_cmd q) in *.
    pose proof (runs_trans _ _ _ _ _ Q R1) as R1'. cbn [app] in R1'.
    rewrite Kq. cbn [length]. rewrite Nat.add_0_r.
    destruct (exec_result (exec_reply out (ticks st) generate_cmd)) as [o1|e1].
    + destruct (commitChanges_runs "📝 Quick docs update" analysis s1)
        as (s2 & k & -> & R2 & V2 & [Hk1 Hk4] & _).
      eexists _, _. split; [reflexivity|].
      split; [exact (runs_trans _ _ _ _ _ R1' R2)|].
      split_and!; [congruence|done|done|].
      intros s _ _. destruct k as [|k]; [lia|]. by eexists.
    + eexists _, _. split; [reflexivity|].
      split; [exact (runs_trans _ [] _ _ _ R1' (runs_error _ _ _))|].
      split_and!; [cbn [env emit]; congruence|done| |done].
      intros e _ [= <-]. split; [done|]. cbn [events emit]. apply last_snoc.
Qed.

(** [aiEnhancedUpdate] returns; without a key it runs nothing, with one it
    sets the two variables and starts with the command of the enhancer. *)
Lemma aiEnhancedUpdate_runs (analysis : Analysis) (st : State) :
  ∃ st' cmds,
    aiEnhancedUpdate out analysis st = (Returned tt, st') ∧
    runs cmds st st' ∧
    (no_api_key st = true → cmds = [] ∧ env st' = env st) ∧
    (no_api_key st = false →
       env st' = enhancer_env analysis (env st) ∧ ∃ rest, cmds = enhance_cmd :: rest).
Proof.
  rewrite aiEnhancedUpdate_unfold.
  pose proof (runs_log ai_line st eq_refl) as Q. fold ai_marker in Q.
  destruct (no_api_key st).
  - eexists _, _. split; [reflexivity|].
    split; [refine (runs_trans [] [] _ _ _ Q (runs_log _ _ _)); reflexivity|]. by split.
  - pose proof (runs_trans [] [] _ _ _ Q
                  (runs_set_env (enhancer_env analysis) (emit ai_marker st))) as Q'.
    set (q := set_env (enhancer_env analysis) (emit ai_marker st)) in *.
    assert (Vq : env q = enhancer_env analysis (env st)) by done.
    unfold enhance_and_commit, try_catch. rewrite bind_execAsync.
    change "node scripts/enhance-with-ai.js" with enhance_cmd.
    pose proof (runs_exec enhance_cmd q) as R0.
    pose proof (after_exec_env enhance_cmd q) as V0.
    set (s0 := after_exec out enhance_cmd q) in *.
    pose proof (runs_trans _ _ _ _ _ Q' R0) as R0'. cbn [app] in R0'.
    destruct (exec_result (exec_reply out (ticks q) enhance_cmd)) as [o0|e0].
    + destruct (commitChanges_runs "🤖 AI-enhanced docs update" analysis s0)
        as (s1 & k & -> & R1 & V1 & _).
      eexists _, _. split; [reflexivity|].
      split; [exact (runs_trans _ _ _ _ _ R0' R1)|].
      split; [done|]. intros _. split; [congruence|]. by eexists.
    + eexists _, _. split; [reflexivity|].
      split; [exact (runs_trans _ [] _ _ _ R0' (runs_error _ _ _))|].
      split; [done|]. intros _. split; [cbn [env emit]; congruence|]. by eexists.
Qed.

(** A batch: what it prints and runs, and what is pending when it ends. *)
Lemma batch_runs (st : State) :
  isProcessing st = false → pendingChanges st ≠ [] →
  ∃ st' new,
    processAccumulatedChanges out st = (Returned tt, st') ∧
    events st' = events st ++ new ∧
    ticks st' = ticks st + length (commands_of new) ∧
    (∀ p, delivered p new → p ∈ pendingChanges st').
Proof.
  intros Hp Hne.
  destruct (processAccumulatedChanges_run out st Hp Hne)
    as (a & st1 & st2 & Ha & Hq & H2 & ->).
  destruct (quickUpdate_runs a (batch_start st)) as (st1' & cq & Hq' & Rq & _).
  rewrite Hq in Hq'. injection Hq' as <-.
  assert (∃ ca, runs ca st1 st2) as [ca Ra].
  { destruct (aiUpdateThreshold st <=? length (pendingChanges st)).
    - destruct (aiEnhancedUpdate_runs a st1) as (st2' & ca & H2' & Ra & _).
      rewrite H2 in H2'. injection H2' as <-. by exists ca.
    - injection H2 as <-. exists []. apply runs_refl. }
  pose proof (runs_trans _ _ _ _ _ Rq Ra) as [C K _ _ _ (evs & E & D)].
  exists (batch_end st2),
    (ConsoleLog (processing_line (length (pendingChanges st))) :: evs ++
     [ConsoleLog success_line]).
  split; [done|]. split_and!.
  - unfold batch_end. cbn [events set_isProcessing emit]. rewrite E.
    unfold batch_start. cbn [events set_isProcessing set_pendingChanges emit].
    by rewrite <- !app_assoc.
  - unfold batch_end. cbn [ticks set_isProcessing emit]. rewrite K. f_equal.
    rewrite E in C. unfold batch_start in C.
    cbn [events set_isProcessing set_pendingChanges emit] in C.
    rewrite !commands_of_app in C. cbn [commands_of omap] in C.
    rewrite app_nil_r in C. apply app_inv_head in C.
    change (ConsoleLog ?l :: ?x) with ([ConsoleLog l] ++ x).
    rewrite !commands_of_app. cbn. by rewrite app_nil_r, C.
  - intros p Hd. unfold batch_end. cbn [pendingChanges set_isProcessing emit].
    apply D.
    change (delivered p ([ConsoleLog (processing_line (length (pendingChanges st)))] ++
                          evs ++ [ConsoleLog success_line])) in Hd.
    apply delivered_app in Hd as [Hd|Hd].
    + apply delivered_log in Hd. exfalso. revert Hd.
      assert (is_notification (processing_line (length (pendingChanges st))) = false) as ->
        by reflexivity.
      done.
    + apply delivered_app in Hd as [Hd|Hd]; [done|]. by apply delivered_log in Hd.
Qed.

End Commands.

Section AggregatorSteps.
Import Watcher WatcherSpec WatcherTrace.

Lemma deliver_all_pending (evs : list FileEvent) (st : State) :
  NoDup (pendingChanges st) →
  NoDup (pendingChanges (deliver_all evs st).2) ∧
  ∀ p, p ∈ pendingChanges (deliver_all evs st).2 ↔
       p ∈ pendingChanges st ∨ p ∈ path_of <$> evs.
Proof.
  revert st. induction evs as [|ev evs IH]; intros st Hnd.
  - split; [done|]. intros p. rewrite fmap_nil, elem_of_nil. cbn. tauto.
  - rewrite deliver_all_cons.
    destruct (IH (deliver ev st).2) as [Hnd' Hin].
    { rewrite deliver_pending. by apply NoDup_set_add. }
    split; [done|]. intros p. rewrite Hin, deliver_pending, elem_of_set_add.
    rewrite fmap_cons, elem_of_cons. tauto.
Qed.

(** X1. The pending set counts paths, not notifications.  After any
    sequence of notifications the pending paths are those that were pending
    before and those notified, each once: starting from an empty set, their
    number is the number of distinct paths notified, however often and in
    whatever way (changed, added, deleted) each was. *)
Theorem pending_counts_distinct_paths (evs : list FileEvent) (st : State) :
  NoDup (pendingChanges st) →
  ∃ st',
    deliver_all evs st = (Returned tt, st') ∧
    NoDup (pendingChanges st') ∧
    (∀ p, p ∈ pendingChanges st' ↔ p ∈ pendingChanges st ∨ p ∈ path_of <$> evs) ∧
    (pendingChanges st = [] →
     length (pendingChanges st') = length (remove_dups (path_of <$> evs))).
Proof.
  intros Hnd. exists (deliver_all evs st).2.
  destruct (deliver_all_pending evs st Hnd) as [Hnd' Hin].
  split; [apply deliver_all_run|]. split; [done|]. split; [done|].
  intros Hempty. apply Permutation_length, NoDup_Permutation; [done|apply NoDup_remove_dups|].
  intros p. rewrite Hin, Hempty, elem_of_remove_dups, elem_of_nil. tauto.
Qed.

Lemma pending_counts_distinct_paths_witness :
  ∃ st',
    deliver_all three_notifications (constructor ∅) = (Returned tt, st') ∧
    NoDup (pendingChanges st') ∧
    (∀ p, p ∈ pendingChanges st' ↔
          p ∈ pendingChanges (constructor ∅) ∨ p ∈ path_of <$> three_notifications) ∧
    (pendingChanges (constructor ∅) = [] →
     length (pendingChanges st') = length (remove_dups (path_of <$> three_notifications))).
Proof. apply (pending_counts_distinct_paths three_notifications (constructor ∅)). constructor. Defined.

Example three_notifications_two_paths :
  pendingChanges (deliver_all three_notifications (constructor ∅)).2 =
  ["src/lib/api.ts"; "src/modules/sales/entities/order.tsx"].
Proof. reflexivity. Qed.

(** X2. [commitChanges] never throws: whatever its commands do, it
    returns and leaves the environment as it is.  It runs an initial part
    of the sequence [git status --porcelain], [git add .], [git commit]
    (with the message dated by the clock after the first command) and
    [git push]: only the first when the status is empty or white space, or
    fails (the failure is printed), and the last only when [AUTO_PUSH] is
    exactly [true]. *)
Theorem commit_runs_in_order
    (out : Outside) (message : string) (analysis : Analysis) (st : State) :
  ∃ st' k,
    commitChanges out message analysis st = (Returned tt, st') ∧
    env st' = env st ∧
    commands_of (events st') =
      commands_of (events st) ++
      take k (commit_commands out message analysis (S (ticks st))) ∧
    1 ≤ k ≤ 4 ∧
    (∀ stdout, exec_result (exec_reply out (ticks st) "git status --porcelain") =
                 Resolved stdout → JS.trim stdout = EmptyString → k = 1) ∧
    (∀ e, exec_result (exec_reply out (ticks st) "git status --porcelain") = Rejected e →
          k = 1 ∧ last (events st') = Some (ConsoleError "❌ Commit failed:" e)) ∧
    (k = 4 → env st !! "AUTO_PUSH" = Some "true").
Proof.
  destruct (commitChanges_runs out message analysis st)
    as (st' & k & H & [C _ _ _ _ _] & V & Hk & H1 & H2 & H4).
  by exists st', k.
Qed.

(** X3. [quickUpdate] never throws and stops at its first failure.  When
    the types changed and [npm run sync:types] fails, that is the only
    command run: the documentation is not regenerated.  When the
    regeneration fails, no [git] command is run: nothing is committed.  In
    both cases the error is the last thing printed.  When the regeneration
    succeeds, the commit step follows it. *)
Theorem quick_update_stops_at_first_failure
    (out : Outside) (analysis : Analysis) (st : State) :
  ∃ st' cmds,
    quickUpdate out analysis st = (Returned tt, st') ∧
    commands_of (events st') = commands_of (events st) ++ cmds ∧
    env st' = env st ∧
    (∀ e, types analysis = true →
          exec_result (exec_reply out (ticks st) sync_cmd) = Rejected e →
          cmds = [sync_cmd] ∧
          last (events st') = Some (ConsoleError "❌ Quick update failed:" e)) ∧
    (∀ e, (types analysis = true →
           ∃ s, exec_result (exec_reply out (ticks st) sync_cmd) = Resolved s) →
          exec_result (exec_reply out (ticks st + length (sync_commands analysis))
                         generate_cmd) = Rejected e →
          cmds = sync_commands analysis ++ [generate_cmd] ∧
          last (events st') = Some (ConsoleError "❌ Quick update failed:" e)) ∧
    (∀ s, (types analysis = true →
           ∃ s, exec_result (exec_reply out (ticks st) sync_cmd) = Resolved s) →
          exec_result (exec_reply out (ticks st + length (sync_commands analysis))
                         generate_cmd) = Resolved s →
          ∃ rest, cmds = sync_commands analysis ++
                         generate_cmd :: "git status --porcelain" :: rest).
Proof.
  destruct (quickUpdate_runs out analysis st)
    as (st' & cmds & H & [C _ _ _ _ _] & V & H1 & H2 & H3).
  by exists st', cmds.
Qed.

(** X5. No notification is lost while a batch is processed: every path
    whose notification is printed between the start and the end of a batch
    is pending when the batch ends, and so belongs to the next batch. *)
Theorem notifications_during_batch_stay_pending (out : Outside) (st : State) :
  isProcessing st = false → pendingChanges st ≠ [] →
  ∃ st' new,
    processAccumulatedChanges out st = (Returned tt, st') ∧
    events st' = events st ++ new ∧
    ticks st' = ticks st + length (commands_of new) ∧
    (∀ p, delivered p new → p ∈ pendingChanges st').
Proof. apply batch_runs. Qed.

Lemma notifications_during_batch_stay_pending_witness :
  ∃ st' new,
    processAccumulatedChanges notifying_outside one_change = (Returned tt, st') ∧
    events st' = events one_change ++ new ∧
    ticks st' = ticks one_change + length (commands_of new) ∧
    (∀ p, delivered p new → p ∈ pendingChanges st').
Proof.
  apply (notifications_during_batch_stay_pending notifying_outside one_change); done.
Defined.

Example late_change_is_pending :
  pendingChanges (processAccumulatedChanges notifying_outside one_change).2 =
  ["src/lib/late.ts"].
Proof. reflexivity. Qed.

End AggregatorSteps.

Section BatchesAndKeys.
Import Watcher WatcherSpec WatcherTrace.

Lemma set_add_filter (ms : list string) (x : string) (l : list string) :
  JS.set_add x (ms ++ filter (λ m, m ∉ ms) l) =
  ms ++ filter (λ m, m ∉ ms) (JS.set_add x l).
Proof.
  unfold JS.set_add.
  destruct (decide (x ∈ l)) as [Hl|Hl].
  - rewrite decide_True; [done|].
    destruct (decide (x ∈ ms)); apply elem_of_app; [by left|right].
    by apply list_elem_of_filter.
  - rewrite filter_app, filter_cons, filter_nil.
    destruct (decide (x ∈ ms)) as [Hm|Hm].
    + rewrite decide_True by (apply elem_of_app; by left).
      rewrite decide_False by (by intros H). by rewrite app_nil_r.
    + rewrite decide_False.
      * rewrite decide_True by done. by rewrite app_assoc.
      * intros [?|[_ ?]%list_elem_of_filter]%elem_of_app; done.
Qed.

Lemma analyzeLoop_snoc (a : Analysis) (l : list string) (p : string) :
  analyzeLoop a (l ++ [p]) = analyzeLoop a l ≫= λ a', analyzeStep a' p.
Proof.
  rewrite analyzeLoop_app. destruct (analyzeLoop a l) as [a'|]; [|done].
  simpl. by destruct (analyzeStep a' p).
Qed.

(** The modules found from an analysis [a1] on are those of [a1] followed
    by the new ones, in the order in which they are first met. *)
Lemma analyzeLoop_modules (a1 : Analysis) (l : list string) :
  ∃ a2 a, analyzeChanges l = Some a2 ∧ analyzeLoop a1 l = Some a ∧
    modules a = modules a1 ++ filter (λ m, m ∉ modules a1) (modules a2).
Proof.
  induction l as [|p l IH] using rev_ind.
  - eexists _, _. split; [reflexivity|]. split; [reflexivity|].
    simpl. by rewrite filter_nil, app_nil_r.
  - destruct IH as (a2 & a & H2 & H & Hm).
    unfold analyzeChanges in *. rewrite !analyzeLoop_snoc, H2, H. simpl.
    destruct (analyzeStep_fields a2 p) as (a2' & -> & Hm2 & _).
    destruct (analyzeStep_fields a p) as (a' & -> & Hm' & _).
    eexists _, _. split; [reflexivity|]. split; [reflexivity|].
    rewrite Hm', Hm2.
    destruct (JS.includes "/modules/" p); [|done].
    destruct (moduleNameOf p) as [m|]; [|done].
    by rewrite Hm, set_add_filter.
Qed.

(** X6. Analysing two lists of paths one after the other gives what
    analysing each gives, put together: each flag is set when it is set for
    one of the two lists, and the modules are those of the first list
    followed by the modules of the second that are new, in their order. *)
Theorem analysis_of_joined_batches (l1 l2 : list string) :
  ∃ a1 a2 a,
    analyzeChanges l1 = Some a1 ∧ analyzeChanges l2 = Some a2 ∧
    analyzeChanges (l1 ++ l2) = Some a ∧
    modules a = modules a1 ++ filter (λ m, m ∉ modules a1) (modules a2) ∧
    types a = types a1 || types a2 ∧
    components a = components a1 || components a2 ∧
    services a = services a1 || services a2.
Proof.
  destruct (analyzeChanges_total l1) as [a1 H1].
  destruct (analyzeLoop_modules a1 l2) as (a2 & a & H2 & H & Hm).
  exists a1, a2, a. split; [done|]. split; [done|].
  split; [unfold analyzeChanges in *; by rewrite analyzeLoop_app, H1|].
  split; [done|].
  destruct (analyzeLoop_fields l2 a1) as (a' & H' & _ & _ & Ht & Hc & Hs).
  rewrite H in H'. injection H' as <-.
  destruct (analyzeLoop_fields l2 (mkAnalysis [] false false false))
    as (a2' & H2' & _ & _ & Ht2 & Hc2 & Hs2).
  unfold analyzeChanges in H2. rewrite H2 in H2'. injection H2' as <-.
  simpl in Ht2, Hc2, Hs2. by rewrite Ht, Hc, Hs, Ht2, Hc2, Hs2.
Qed.

Example joined_batches :
  modules <$> analyzeChanges (["a/modules/sales/x.tsx"; "a/modules/school/y.tsx"] ++
                              ["a/modules/identity/z.tsx"; "a/modules/sales/w.tsx"]) =
  Some ["sales"; "school"; "identity"].
Proof. reflexivity. Qed.

End BatchesAndKeys.

(** ** The change aggregator: what a batch prints about its failures *)

Section Logged.
Import Watcher WatcherSpec WatcherTrace.
Context (out : Outside).

Lemma elem_of_commands_of (cmd : string) (evs : list Event) :
  cmd ∈ commands_of evs ↔ ExecRun cmd ∈ evs.
Proof.
  unfold commands_of. rewrite list_elem_of_omap. split.
  - intros (e & He & Hc). destruct e; try done. by injection Hc as ->.
  - intros H. by exists (ExecRun cmd).
Qed.

Lemma fails_among_app_l (n : nat) (e1 e2 : list Event) (error : string) :
  fails_among out n e1 error → fails_among out n (e1 ++ e2) error.
Proof.
  intros (k & cmd & Hk & Hr). exists k, cmd. split; [|done].
  rewrite commands_of_app. by apply lookup_app_l_Some.
Qed.

Lemma fails_among_app_r (n : nat) (e1 e2 : list Event) (error : string) :
  fails_among out (n + length (commands_of e1)) e2 error →
  fails_among out n (e1 ++ e2) error.
Proof.
  intros (k & cmd & Hk & Hr). exists (length (commands_of e1) + k), cmd. split.
  - rewrite commands_of_app, lookup_app_r by lia.
    by replace (length (commands_of e1) + k - length (commands_of e1)) with k by lia.
  - by rewrite Nat.add_assoc.
Qed.

Lemma fails_among_app (n : nat) (e1 e2 : list Event) (error : string) :
  fails_among out n (e1 ++ e2) error →
  fails_among out n e1 error ∨ fails_among out (n + length (commands_of e1)) e2 error.
Proof.
  intros (k & cmd & Hk & Hr). rewrite commands_of_app in Hk.
  apply lookup_app_Some in Hk as [Hk|[Hle Hk]].
  - left. by exists k, cmd.
  - right. exists (k - length (commands_of e1)), cmd. split; [done|].
    by replace (n + length (commands_of e1) + (k - length (commands_of e1)))
      with (n + k) by lia.
Qed.

Lemma fails_among_none (n : nat) (evs : list Event) (error : string) :
  commands_of evs = [] → ¬ fails_among out n evs error.
Proof. intros H (k & cmd & Hk & _). by rewrite H in Hk. Qed.

(** A step that runs no command and prints no error. *)
Lemma logged_quiet {A} (a : A) (st st' : State) (evs : list Event) :
  events st' = events st ++ evs → ticks st' = ticks st → commands_of evs = [] →
  (∀ label error, ConsoleError label error ∉ evs) →
  logged out st (Returned a) st'.
Proof.
  intros He Hk Hc Hn. exists evs. split_and!; [done|rewrite Hc; simpl; lia|..].
  - intros error H. by apply fails_among_none in H.
  - intros label error H. by apply Hn in H.
  - done.
Qed.

Lemma logged_refl {A} (a : A) (st : State) : logged out st (Returned a) st.
Proof.
  apply (logged_quiet a st st []); [by rewrite app_nil_r|done..|].
  intros label error H. by apply elem_of_nil in H.
Qed.

Lemma logged_log {A} (a : A) (line : string) (st : State) :
  logged out st (Returned a) (emit (ConsoleLog line) st).
Proof.
  apply (logged_quiet a _ _ [ConsoleLog line]); [done..|].
  intros label error H. apply list_elem_of_singleton in H. discriminate H.
Qed.

Lemma logged_trans {A B} (a : A) (r : Outcome B) (st1 st2 st3 : State) :
  logged out st1 (Returned a) st2 → logged out st2 r st3 → logged out st1 r st3.
Proof.
  intros (e1 & E1 & K1 & F1 & C1 & _) (e2 & E2 & K2 & F2 & C2 & T2).
  exists (e1 ++ e2). split_and!.
  - by rewrite E2, E1, app_assoc.
  - rewrite K2, K1, commands_of_app, length_app. lia.
  - intros error [H|H]%fails_among_app.
    + destruct (F1 error H) as [(l & Hl & Hin)|?]; [|done].
      left. exists l. split; [done|]. apply elem_of_app. by left.
    + rewrite <- K1 in H. destruct (F2 error H) as [(l & Hl & Hin)|?]; [|by right].
      left. exists l. split; [done|]. apply elem_of_app. by right.
  - intros l error [H|H]%elem_of_app.
    + destruct (C1 l error H) as [? ?]. split; [done|]. by apply fails_among_app_l.
    + destruct (C2 l error H) as [? Hf]. split; [done|].
      apply fails_among_app_r. by rewrite <- K1.
  - intros error Hr. apply fails_among_app_r. rewrite <- K1. by apply T2.
Qed.

Lemma logged_thrown {A B} (e : string) (st st' : State) :
  logged out st (Thrown e : Outcome A) st' → logged out st (Thrown e : Outcome B) st'.
Proof.
  intros (evs & E & K & F & C & T). exists evs. split_and!; try done.
  - intros error H. destruct (F error H) as [?|[= <-]]; [by left|by right].
  - intros error [= <-]. by apply T.
Qed.

Lemma logged_unfinished {A B} (st st' : State) :
  logged out st (Unfinished : Outcome A) st' → logged out st (Unfinished : Outcome B) st'.
Proof.
  intros (evs & E & K & F & C & T). exists evs. split_and!; try done.
  intros error H. destruct (F error H) as [?|?]; [by left|done].
Qed.

Lemma logs_ret {A} (a : A) : logs out (ret a).
Proof. intros st. apply logged_refl. Qed.

Lemma logs_gets {A} (f : State → A) : logs out (gets f).
Proof. intros st. apply logged_refl. Qed.

Lemma logs_log (line : string) : logs out (console_log line).
Proof. intros st. apply logged_log. Qed.

Lemma logs_set_env (f : gmap string string → gmap string string) :
  logs out (modify (set_env f)).
Proof.
  intros st. apply (logged_quiet tt _ _ []); [by rewrite app_nil_r|done..|].
  intros label error H. by apply elem_of_nil in H.
Qed.

Lemma logs_bind {A B} (m : Eff State A) (k : A → Eff State B) :
  logs out m → (∀ a, logs out (k a)) → logs out (bind m k).
Proof.
  intros Hm Hk st. unfold bind. specialize (Hm st).
  destruct (m st) as [[a|e|] st1]; cbn [fst snd] in *.
  - eapply logged_trans; [exact Hm|apply Hk].
  - by apply (@logged_thrown A B).
  - by apply (@logged_unfinished A B).
Qed.

(** A [try] whose handler prints the error under one of the labels. *)
Lemma logs_try_catch (body : Eff State unit) (label : string) :
  label ∈ error_labels → logs out body →
  logs out (try_catch body (λ error, console_error label error)).
Proof.
  intros Hl Hb st. unfold try_catch. specialize (Hb st).
  destruct (body st) as [[[]|e|] st1]; cbn [fst snd] in *; [done| |done].
  destruct Hb as (evs & E & K & F & C & T).
  unfold console_error, modify. cbn [fst snd].
  exists (evs ++ [ConsoleError label e]). cbn [events ticks emit].
  assert (Hc : commands_of (evs ++ [ConsoleError label e]) = commands_of evs).
  { by rewrite commands_of_app, app_nil_r. }
  assert (Hf : ∀ error, fails_among out (ticks st) (evs ++ [ConsoleError label e]) error →
                        fails_among out (ticks st) evs error).
  { intros error (k & cmd & Hk & Hr). rewrite Hc in Hk. by exists k, cmd. }
  split_and!.
  - by rewrite E, app_assoc.
  - by rewrite Hc.
  - intros error H%Hf. left.
    destruct (F error H) as [(l & Hin & He)|[= <-]].
    + exists l. split; [done|]. apply elem_of_app. by left.
    + exists label. split; [done|]. apply elem_of_app. right. apply list_elem_of_here.
  - intros l error [H|H]%elem_of_app.
    + destruct (C l error H) as [? ?]. split; [done|]. by apply fails_among_app_l.
    + apply list_elem_of_singleton in H. injection H as -> ->.
      split; [done|]. by apply fails_among_app_l, T.
  - done.
Qed.

(** The lines of the notifications that arrive during a command. *)
Lemma deliver_all_events (evs : list FileEvent) (st : State) :
  events (deliver_all evs st).2 =
  events st ++ ((λ ev, ConsoleLog (notification_line ev)) <$> evs) ∧
  ticks (deliver_all evs st).2 = ticks st.
Proof.
  revert st. induction evs as [|ev evs IH]; intros st; [by rewrite app_nil_r|].
  rewrite deliver_all_cons. destruct (IH (deliver ev st).2) as [-> ->].
  rewrite deliver_state. cbn [events ticks emit set_pendingChanges].
  by rewrite <- app_assoc.
Qed.

Lemma after_exec_events (cmd : string) (st : State) :
  events (after_exec out cmd st) =
  events st ++ ExecRun cmd ::
    ((λ ev, ConsoleLog (notification_line ev)) <$> exec_arrivals (exec_reply out (ticks st) cmd)).
Proof.
  rewrite after_exec_state.
  destruct (deliver_all_events (exec_arrivals (exec_reply out (ticks st) cmd))
              (tick (emit (ExecRun cmd) st))) as [-> _].
  cbn [events emit tick]. by rewrite <- app_assoc.
Qed.

Lemma commands_of_lines (lines : list string) : commands_of (ConsoleLog <$> lines) = [].
Proof. induction lines as [|l lines IH]; [done|]. exact IH. Qed.

Lemma logs_exec (cmd : string) : logs out (execAsync out cmd).
Proof.
  intros st. rewrite execAsync_eq. cbn [fst snd].
  set (lines := (λ ev, notification_line ev) <$> exec_arrivals (exec_reply out (ticks st) cmd)).
  assert (He : events (after_exec out cmd st) = events st ++ ExecRun cmd :: (ConsoleLog <$> lines)).
  { rewrite after_exec_events. unfold lines. by rewrite <- list_fmap_compose. }
  assert (Hc : commands_of (ExecRun cmd :: (ConsoleLog <$> lines)) = [cmd]).
  { change (ExecRun cmd :: (ConsoleLog <$> lines)) with ([ExecRun cmd] ++ (ConsoleLog <$> lines)).
    by rewrite commands_of_app, commands_of_lines. }
  exists (ExecRun cmd :: (ConsoleLog <$> lines)). unfold fails_among. rewrite Hc.
  split_and!.
  - done.
  - rewrite after_exec_ticks. simpl. lia.
  - intros error (k & c & Hk & Hr). right.
    destruct k as [|k]; [|by destruct k]. injection Hk as <-.
    unfold rejected in Hr. rewrite Nat.add_0_r in Hr. by rewrite Hr.
  - intros label error [H|H]%elem_of_cons; [done|].
    apply list_elem_of_fmap in H as (? & ? & _). done.
  - intros error Hr. exists 0, cmd. split; [done|]. unfold rejected.
    rewrite Nat.add_0_r. destruct (exec_result _) as [|e]; [done|]. by injection Hr as ->.
Qed.

Local Ltac label := unfold error_labels; repeat first [apply list_elem_of_here|apply list_elem_of_further].

Lemma commitChanges_logs (message : string) (analysis : Analysis) :
  logs out (commitChanges out message analysis).
Proof.
  unfold commitChanges. apply logs_try_catch; [label|].
  apply logs_bind; [apply logs_exec|]. intros stdout.
  destruct (JS.truthy _); [|apply logs_ret].
  apply logs_bind; [apply logs_gets|]. intros date.
  apply logs_bind; [apply logs_exec|]. intros _.
  apply logs_bind; [apply logs_exec|]. intros _.
  apply logs_bind; [|intros _; apply logs_log].
  apply logs_bind; [apply logs_gets|]. intros [|]; [|apply logs_ret].
  apply logs_bind; [apply logs_exec|]. intros _. apply logs_ret.
Qed.

Lemma quickUpdate_logs (analysis : Analysis) : logs out (quickUpdate out analysis).
Proof.
  unfold quickUpdate. apply logs_bind; [apply logs_log|]. intros _.
  apply logs_try_catch; [label|].
  apply logs_bind.
  { destruct (types analysis); [|apply logs_ret].
    apply logs_bind; [apply logs_exec|]. intros _. apply logs_ret. }
  intros _. apply logs_bind; [apply logs_exec|]. intros _. apply commitChanges_logs.
Qed.

Lemma aiEnhancedUpdate_logs (analysis : Analysis) : logs out (aiEnhancedUpdate out analysis).
Proof.
  unfold aiEnhancedUpdate. apply logs_bind; [apply logs_log|]. intros _.
  apply logs_try_catch; [label|].
  apply logs_bind; [apply logs_gets|]. intros anthropic.
  apply logs_bind; [apply logs_gets|]. intros openai.
  destruct (negb anthropic && negb openai); [apply logs_log|].
  apply logs_bind; [apply logs_set_env|]. intros _.
  apply logs_bind; [apply logs_set_env|]. intros _.
  apply logs_bind; [apply logs_exec|]. intros _. apply commitChanges_logs.
Qed.

(** A batch has printed the error of each of its commands that was
    rejected, and no other error. *)
Lemma batch_logged (st : State) :
  isProcessing st = false → pendingChanges st ≠ [] →
  logged out st (Returned tt) (processAccumulatedChanges out st).2.
Proof.
  intros Hp Hne.
  destruct (processAccumulatedChanges_run out st Hp Hne)
    as (a & st1 & st2 & Ha & Hq & H2 & ->). cbn [snd].
  apply (logged_trans tt _ _ (batch_start st)).
  { apply (logged_quiet tt _ _ [ConsoleLog (processing_line (length (pendingChanges st)))]);
      [done..|].
    intros label error H. apply list_elem_of_singleton in H. discriminate H. }
  apply (logged_trans tt _ _ st1).
  { pose proof (quickUpdate_logs a (batch_start st)) as H. by rewrite Hq in H. }
  apply (logged_trans tt _ _ st2).
  { destruct (aiUpdateThreshold st <=? length (pendingChanges st)).
    - pose proof (aiEnhancedUpdate_logs a st1) as H. by rewrite H2 in H.
    - injection H2 as <-. apply logged_refl. }
  apply (logged_quiet tt _ _ [ConsoleLog success_line]); [done..|].
  intros label error H. apply list_elem_of_singleton in H. discriminate H.
Qed.

End Logged.

Section BatchSteps.
Import Watcher WatcherSpec WatcherTrace.
Context (out : Outside).

Lemma last_after (l evs : list Event) (x y : Event) :
  last (l ++ x :: evs) = Some y → x ≠ y → last evs = Some y.
Proof.
  rewrite last_app, last_cons. destruct (last evs); [done|]. by intros [= ->].
Qed.

(** The commands of a commit are commands of [git]. *)
Lemma commit_commands_git (message : string) (analysis : Analysis) (n : nat) (cmd : string) :
  cmd ∈ commit_commands out message analysis n → JS.startsWith "git " cmd = true.
Proof.
  unfold commit_commands. rewrite !elem_of_cons, elem_of_nil.
  intros H. destruct_or! H; subst cmd; done.
Qed.

Lemma no_api_key_env (st st' : State) : env st' = env st → no_api_key st' = no_api_key st.
Proof. intros H. unfold no_api_key, env_truthy. by rewrite H. Qed.

(** What the quick update prints and runs. *)
Lemma quickUpdate_trace (analysis : Analysis) (st : State) :
  ∃ st1 evs,
    quickUpdate out analysis st = (Returned tt, st1) ∧
    events st1 = events st ++ quick_marker :: evs ∧
    Forall not_ai evs ∧ env st1 = env st ∧
    (generate_run ∈ evs ↔ sync_succeeds out analysis (ticks st)) ∧
    (∀ e, types analysis = true → rejected out (ticks st) sync_cmd e →
          last evs = Some (ConsoleError "❌ Quick update failed:" e)) ∧
    (∀ e, sync_succeeds out analysis (ticks st) →
          rejected out (ticks st + length (sync_commands analysis)) generate_cmd e →
          last evs = Some (ConsoleError "❌ Quick update failed:" e)).
Proof.
  destruct (quickUpdate_run out analysis st) as (st1 & evs & Hrun & Hev & Hnot & _).
  destruct (quickUpdate_runs out analysis st)
    as (st1' & cmds & Hrun' & [C _ _ _ _ _] & Henv & H1 & H2 & H3).
  rewrite Hrun in Hrun'. injection Hrun' as <-.
  assert (Hc : commands_of evs = cmds).
  { rewrite Hev, commands_of_app in C. by apply app_inv_head in C. }
  exists st1, evs. split_and!; try done.
  - unfold generate_run. rewrite <- elem_of_commands_of, Hc. unfold sync_succeeds. split.
    + intros Hin Ht.
      destruct (exec_result (exec_reply out (ticks st) sync_cmd)) as [s|e] eqn:E;
        [by eexists|].
      destruct (H1 e Ht eq_refl) as [-> _]. apply list_elem_of_singleton in Hin.
      discriminate Hin.
    + intros Hs.
      destruct (exec_result
                  (exec_reply out (ticks st + length (sync_commands analysis)) generate_cmd))
        as [s|e] eqn:E.
      * destruct (H3 s Hs eq_refl) as [rest ->]. apply elem_of_app. right.
        apply list_elem_of_here.
      * destruct (H2 e Hs eq_refl) as [-> _]. apply elem_of_app. right.
        apply list_elem_of_here.
  - intros e Ht Hr. destruct (H1 e Ht Hr) as [_ Hl]. rewrite Hev in Hl.
    eapply last_after; [exact Hl|discriminate].
  - intros e Hs Hr. destruct (H2 e Hs Hr) as [_ Hl]. rewrite Hev in Hl.
    eapply last_after; [exact Hl|discriminate].
Qed.

(** What the AI-enhanced update prints and runs: after its first line the
    command of the enhancer, when there is a key, and never a command of
    the quick update. *)
Lemma aiEnhancedUpdate_trace (analysis : Analysis) (st : State) :
  ∃ st2 evs,
    aiEnhancedUpdate out analysis st = (Returned tt, st2) ∧
    events st2 = events st ++ ai_marker :: evs ∧
    (generate_run ∉ evs) ∧ (sync_run ∉ evs) ∧
    (no_api_key st = true → enhance_run ∉ evs) ∧
    (no_api_key st = false → ∃ rest, evs = enhance_run :: rest).
Proof.
  rewrite aiEnhancedUpdate_unfold. destruct (no_api_key st) eqn:Ek.
  - eexists _, [_]. split; [reflexivity|].
    split; [cbn [events emit]; by rewrite <- app_assoc|].
    split_and!; [| | |done].
    + intros H. apply list_elem_of_singleton in H. discriminate H.
    + intros H. apply list_elem_of_singleton in H. discriminate H.
    + intros _ H. apply list_elem_of_singleton in H. discriminate H.
  - set (q := set_env (enhancer_env analysis) (emit ai_marker st)).
    assert (Hq : events q = events st ++ [ai_marker]) by done.
    unfold enhance_and_commit, try_catch. rewrite bind_execAsync.
    change "node scripts/enhance-with-ai.js" with enhance_cmd.
    pose proof (after_exec_events out enhance_cmd q) as E0.
    set (lines := (λ ev, ConsoleLog (notification_line ev)) <$>
                  exec_arrivals (exec_reply out (ticks q) enhance_cmd)) in E0.
    assert (Hlines : ∀ cmd, ExecRun cmd ∉ lines).
    { intros cmd H. unfold lines in H. apply list_elem_of_fmap in H as (? & ? & _). done. }
    set (s0 := after_exec out enhance_cmd q) in *.
    assert (Hfinal : ∀ s1 evs1,
      events s1 = events s0 ++ evs1 →
      (∀ cmd, ExecRun cmd ∈ evs1 → JS.startsWith "git " cmd = true) →
      events s1 = events st ++ ai_marker :: (enhance_run :: lines ++ evs1) ∧
      (generate_run ∉ enhance_run :: lines ++ evs1) ∧
      (sync_run ∉ enhance_run :: lines ++ evs1)).
    { intros s1 evs1 E1 Hgit. split.
      - rewrite E1, E0, Hq. by rewrite <- !app_assoc.
      - split; intros H; apply elem_of_cons in H as [H|H]; try discriminate H;
          apply elem_of_app in H as [H|H]; try (by apply Hlines in H);
          apply Hgit in H; discriminate H. }
    destruct (exec_result (exec_reply out (ticks q) enhance_cmd)) as [o|e].
    + destruct (commitChanges_runs out "🤖 AI-enhanced docs update" analysis s0)
        as (s1 & k & -> & [C _ _ _ _ (evs1 & E1 & _)] & _).
      destruct (Hfinal s1 evs1 E1) as (He & Hg & Hs).
      { intros cmd Hin. apply elem_of_commands_of in Hin.
        rewrite E1, commands_of_app in C. apply app_inv_head in C. rewrite C in Hin.
        apply (subseteq_take k) in Hin. by eapply commit_commands_git. }
      eexists _, _. split; [reflexivity|]. split; [exact He|].
      split_and!; [done|done|done|]. intros _. by eexists.
    + destruct (Hfinal (emit (ConsoleError "❌ AI enhancement failed:" e) s0)
                  [ConsoleError "❌ AI enhancement failed:" e]) as (He & Hg & Hs); [done| |].
      { intros cmd H. apply list_elem_of_singleton in H. discriminate H. }
      eexists _, _. split; [reflexivity|]. split; [exact He|].
      split_and!; [done|done|done|]. intros _. by eexists.
Qed.

(** A batch, step by step. *)
Lemma batch_steps (st : State) :
  isProcessing st = false → pendingChanges st ≠ [] →
  ∃ analysis st1 st2 quick_evs ai_evs,
    analyzeChanges (pendingChanges st) = Some analysis ∧
    quickUpdate out analysis (batch_start st) = (Returned tt, st1) ∧
    events st1 = events (batch_start st) ++ quick_marker :: quick_evs ∧
    (if aiUpdateThreshold st <=? length (pendingChanges st)
     then aiEnhancedUpdate out analysis st1 else ret tt st1) = (Returned tt, st2) ∧
    events st2 = events st1 ++ ai_evs ∧
    processAccumulatedChanges out st = (Returned tt, batch_end st2) ∧
    events (batch_end st2) =
      events st ++
      ConsoleLog (processing_line (length (pendingChanges st))) ::
      quick_marker :: quick_evs ++ ai_evs ++ [ConsoleLog success_line] ∧
    Forall not_ai quick_evs ∧
    (generate_run ∈ quick_evs ↔ sync_succeeds out analysis (ticks st)) ∧
    (∀ e, types analysis = true → rejected out (ticks st) sync_cmd e →
          last quick_evs = Some (ConsoleError "❌ Quick update failed:" e)) ∧
    (∀ e, sync_succeeds out analysis (ticks st) →
          rejected out (ticks st + length (sync_commands analysis)) generate_cmd e →
          last quick_evs = Some (ConsoleError "❌ Quick update failed:" e)) ∧
    (generate_run ∉ ai_evs) ∧ (sync_run ∉ ai_evs) ∧
    (aiUpdateThreshold st ≤ length (pendingChanges st) →
       ∃ evs, ai_evs = ai_marker :: evs ∧
              (no_api_key st = true → enhance_run ∉ evs) ∧
              (no_api_key st = false → ∃ rest, evs = enhance_run :: rest)) ∧
    (length (pendingChanges st) < aiUpdateThreshold st → ai_evs = []).
Proof.
  intros Hp Hne.
  destruct (processAccumulatedChanges_run out st Hp Hne)
    as (a & st1 & st2 & Ha & Hq & H2 & Hrun).
  destruct (quickUpdate_trace a (batch_start st))
    as (st1' & qe & Hq' & Eq & Fq & Vq & Gq & L1 & L2).
  rewrite Hq in Hq'. injection Hq' as <-.
  change (ticks (batch_start st)) with (ticks st) in Gq, L1, L2.
  assert (Hkey : no_api_key st1 = no_api_key st).
  { apply no_api_key_env. by rewrite Vq. }
  assert (Hai : ∃ ae,
    events st2 = events st1 ++ ae ∧ (generate_run ∉ ae) ∧ (sync_run ∉ ae) ∧
    (aiUpdateThreshold st ≤ length (pendingChanges st) →
       ∃ evs, ae = ai_marker :: evs ∧
              (no_api_key st = true → enhance_run ∉ evs) ∧
              (no_api_key st = false → ∃ rest, evs = enhance_run :: rest)) ∧
    (length (pendingChanges st) < aiUpdateThreshold st → ae = [])).
  { destruct (Nat.leb_spec (aiUpdateThreshold st) (length (pendingChanges st))) as [Hle|Hlt].
    - destruct (aiEnhancedUpdate_trace a st1) as (st2' & evs & H2' & Ea & Ga & Sa & Na & Ka).
      rewrite H2 in H2'. injection H2' as <-. rewrite Hkey in Na, Ka.
      exists (ai_marker :: evs). split_and!; [done| | | |lia].
      + intros H. apply elem_of_cons in H as [H|H]; [discriminate H|done].
      + intros H. apply elem_of_cons in H as [H|H]; [discriminate H|done].
      + intros _. by exists evs.
    - injection H2 as <-. exists []. rewrite app_nil_r.
      split_and!; [done| | |lia|done]; by intros ?%elem_of_nil. }
  destruct Hai as (ae & Ea & Ga & Sa & Ta & Ba).
  exists a, st1, st2, qe, ae. split_and!; try done.
  unfold batch_end. cbn [events set_isProcessing emit]. rewrite Ea, Eq.
  unfold batch_start. cbn [events emit set_pendingChanges set_isProcessing].
  rewrite <- !app_assoc. cbn [app]. by rewrite <- ?app_assoc.
Qed.

End BatchSteps.

Section AggregatorClaims.
Import Watcher WatcherSpec WatcherTrace.

(** What comes before in a trace has the smaller index. *)
Lemma before_after (pre post : list Event) (x y : Event) (i j : nat) :
  x ∉ post → y ∉ pre →
  (pre ++ post) !! i = Some x → (pre ++ post) !! j = Some y → i < j.
Proof.
  intros Hx Hy Hi Hj.
  apply lookup_app_Some in Hi as [Hi|[_ Hi]];
    [|by apply list_elem_of_lookup_2 in Hi].
  apply lookup_app_Some in Hj as [Hj|[Hle _]];
    [by apply list_elem_of_lookup_2 in Hj|].
  apply lookup_lt_Some in Hi. lia.
Qed.

(** Where the events of the two steps of a batch are found in its trace. *)
Lemma generate_run_in_batch (n : nat) (qe ae : list Event) :
  generate_run ∉ ae →
  generate_run ∈ ConsoleLog (processing_line n) :: quick_marker :: qe ++ ae ++
                [ConsoleLog success_line] ↔ generate_run ∈ qe.
Proof.
  intros Ha. rewrite !elem_of_cons, !elem_of_app. split.
  - intros H. destruct_or! H;
      first [ done | discriminate H | apply list_elem_of_singleton in H; discriminate H ].
  - intros H. right. right. by left.
Qed.

Lemma enhance_run_of_batch (n : nat) (qe ae : list Event) :
  Forall not_ai qe →
  enhance_run ∈ ConsoleLog (processing_line n) :: quick_marker :: qe ++ ae ++
               [ConsoleLog success_line] ↔ enhance_run ∈ ae.
Proof.
  intros Hq. split; [by apply enhance_run_in_batch|].
  intros H. do 2 apply list_elem_of_further. apply elem_of_app. right.
  apply elem_of_app. by left.
Qed.

(** C4. A batch is what [processAccumulatedChanges] finds pending when no
    other batch is processed.  The quick update is started in every batch,
    and it runs the regeneration command unless the synchronisation of the
    types, which comes first when the types file changed, fails.  The
    AI-enhanced update is started exactly when the number of pending paths
    reaches [aiUpdateThreshold], which the constructor sets to 3, and at
    the threshold the command of the enhancer is run exactly when one of
    the two API keys is set; below the threshold it is never run.  With
    the threshold 3, a batch of 2 paths regenerates only and a batch of 3
    starts both steps, and with a key runs both commands. *)
Theorem threshold_policy (out : Outside) (st : State) :
  isProcessing st = false → pendingChanges st ≠ [] →
  aiUpdateThreshold (constructor (env st)) = 3 ∧
  ∃ analysis st' new,
    analyzeChanges (pendingChanges st) = Some analysis ∧
    processAccumulatedChanges out st = (Returned tt, st') ∧
    events st' = events st ++ new ∧
    quick_marker ∈ new ∧
    (types analysis = false → generate_run ∈ new) ∧
    (ai_marker ∈ new ↔ aiUpdateThreshold st ≤ length (pendingChanges st)) ∧
    (enhance_run ∈ new → aiUpdateThreshold st ≤ length (pendingChanges st)) ∧
    (aiUpdateThreshold st = 3 → length (pendingChanges st) = 2 →
       (ai_marker ∉ new) ∧ (enhance_run ∉ new)) ∧
    (aiUpdateThreshold st = 3 → length (pendingChanges st) = 3 → ai_marker ∈ new) ∧
    (generate_run ∈ new ↔ sync_succeeds out analysis (ticks st)) ∧
    (enhance_run ∈ new ↔
       aiUpdateThreshold st ≤ length (pendingChanges st) ∧ no_api_key st = false) ∧
    (aiUpdateThreshold st = 3 → length (pendingChanges st) = 3 →
       no_api_key st = false → sync_succeeds out analysis (ticks st) →
       generate_run ∈ new ∧ enhance_run ∈ new).
Proof.
  intros Hp Hne. split; [reflexivity|].
  destruct (batch_steps out st Hp Hne)
    as (a & st1 & st2 & qe & ae & Ha & _ & _ & _ & _ & Hrun & Hev & Fq & Gq & _ & _ &
        Ga & _ & Ta & Ba).
  assert (Hai : ai_marker ∈ ae ↔ aiUpdateThreshold st ≤ length (pendingChanges st)).
  { destruct (Nat.le_gt_cases (aiUpdateThreshold st) (length (pendingChanges st)))
      as [Hle|Hlt].
    - destruct (Ta Hle) as (evs & -> & _). split; [done|]. intros _. apply list_elem_of_here.
    - rewrite (Ba Hlt). split; [by intros ?%elem_of_nil|lia]. }
  assert (Hen : enhance_run ∈ ae ↔
                aiUpdateThreshold st ≤ length (pendingChanges st) ∧ no_api_key st = false).
  { destruct (Nat.le_gt_cases (aiUpdateThreshold st) (length (pendingChanges st)))
      as [Hle|Hlt].
    - destruct (Ta Hle) as (evs & -> & Hno & Hyes). rewrite elem_of_cons.
      destruct (no_api_key st).
      + split; [|by intros [_ ?]]. intros [H|H]; [discriminate H|]. by apply Hno in H.
      + destruct (Hyes eq_refl) as [rest ->]. split; [done|]. intros _. right.
        apply list_elem_of_here.
    - rewrite (Ba Hlt). split; [by intros ?%elem_of_nil|lia]. }
  pose proof (ai_marker_in_batch (length (pendingChanges st)) qe ae Fq) as Mai.
  pose proof (enhance_run_of_batch (length (pendingChanges st)) qe ae Fq) as Men.
  pose proof (generate_run_in_batch (length (pendingChanges st)) qe ae Ga) as Mge.
  eexists a, (batch_end st2), _. split_and!; [exact Ha|exact Hrun|exact Hev|..].
  - apply list_elem_of_further, list_elem_of_here.
  - intros Ht. apply Mge, Gq. intros Ht'. congruence.
  - by rewrite Mai.
  - rewrite Men, Hen. by intros [? _].
  - intros H3 H2. rewrite Mai, Men, Hai, Hen. split; [lia|]. intros [? _]. lia.
  - intros H3 H3'. rewrite Mai, Hai. lia.
  - by rewrite Mge.
  - by rewrite Men.
  - intros H3 H3' Hkey Hsync. rewrite Mge, Men, Gq, Hen. split_and!; [done|lia|done].
Qed.

Lemma threshold_policy_witness :
  aiUpdateThreshold (constructor (env three_notified)) = 3 ∧
  ∃ analysis st' new,
    analyzeChanges (pendingChanges three_notified) = Some analysis ∧
    processAccumulatedChanges working_outside three_notified = (Returned tt, st') ∧
    events st' = events three_notified ++ new ∧
    quick_marker ∈ new ∧
    (types analysis = false → generate_run ∈ new) ∧
    (ai_marker ∈ new ↔
       aiUpdateThreshold three_notified ≤ length (pendingChanges three_notified)) ∧
    (enhance_run ∈ new →
       aiUpdateThreshold three_notified ≤ length (pendingChanges three_notified)) ∧
    (aiUpdateThreshold three_notified = 3 → length (pendingChanges three_notified) = 2 →
       (ai_marker ∉ new) ∧ (enhance_run ∉ new)) ∧
    (aiUpdateThreshold three_notified = 3 → length (pendingChanges three_notified) = 3 →
       ai_marker ∈ new) ∧
    (generate_run ∈ new ↔ sync_succeeds working_outside analysis (ticks three_notified)) ∧
    (enhance_run ∈ new ↔
       aiUpdateThreshold three_notified ≤ length (pendingChanges three_notified) ∧
       no_api_key three_notified = false) ∧
    (aiUpdateThreshold three_notified = 3 → length (pendingChanges three_notified) = 3 →
       no_api_key three_notified = false →
       sync_succeeds working_outside analysis (ticks three_notified) →
       generate_run ∈ new ∧ enhance_run ∈ new).
Proof. apply threshold_policy; [reflexivity|discriminate]. Defined.

(** The two sides of the boundary, and the threshold without a key. *)
Example two_changes_regenerate_only :
  drop 2 (events (processAccumulatedChanges working_outside two_notified).2) =
  [ ConsoleLog "🔄 Processing 2 accumulated changes...";
    quick_marker;
    generate_run;
    ExecRun "git status --porcelain";
    ExecRun "git add .";
    ExecRun ("git commit -m " +:+ dq +:+
             detailedMessage "📝 Quick docs update"
               (mkAnalysis ["sales"] false false false) "2025-06-01T00:00:00.000Z" +:+ dq);
    ConsoleLog "📤 Changes committed successfully";
    ConsoleLog success_line ].
Proof. vm_compute. reflexivity. Qed.

Example three_changes_run_both :
  drop 3 (events (processAccumulatedChanges working_outside three_notified).2) =
  [ ConsoleLog "🔄 Processing 3 accumulated changes...";
    quick_marker;
    generate_run;
    ExecRun "git status --porcelain";
    ExecRun "git add .";
    ExecRun ("git commit -m " +:+ dq +:+
             detailedMessage "📝 Quick docs update"
               (mkAnalysis ["sales"] false true false) "2025-06-01T00:00:00.000Z" +:+ dq);
    ConsoleLog "📤 Changes committed successfully";
    ai_marker;
    enhance_run;
    ExecRun "git status --porcelain";
    ExecRun "git add .";
    ExecRun ("git commit -m " +:+ dq +:+
             detailedMessage "🤖 AI-enhanced docs update"
               (mkAnalysis ["sales"] false true false) "2025-06-01T00:00:00.000Z" +:+ dq);
    ConsoleLog "📤 Changes committed successfully";
    ConsoleLog success_line ].
Proof. vm_compute. reflexivity. Qed.

Example three_changes_without_key :
  drop 10 (events (processAccumulatedChanges working_outside three_notified_no_key).2) =
  [ ai_marker;
    ConsoleLog "⚠️ No AI API keys found, skipping AI enhancement";
    ConsoleLog success_line ].
Proof. vm_compute. reflexivity. Qed.

(** C3, as stated, fails: three changes were notified, the regeneration
    command of their batch is rejected, [quickUpdate] prints the failure
    and returns, and the AI-enhanced update is started and its command
    run. *)
Lemma enhancement_after_failed_regeneration :
  processAccumulatedChanges failing_outside three_notified =
    (Returned tt,
     mkState [] false 3
       (<["TYPES_CHANGED" := EmptyString]>
          (<["CHANGED_MODULES" := "sales"]> {[ "ANTHROPIC_API_KEY" := "sk-test" ]}))
       [ ConsoleLog "📝 File changed: src/lib/api.ts";
         ConsoleLog "📝 File changed: src/modules/sales/entities/order.tsx";
         ConsoleLog "📝 File changed: src/components/Button.tsx";
         ConsoleLog "🔄 Processing 3 accumulated changes...";
         quick_marker;
         generate_run;
         ConsoleError "❌ Quick update failed:" "boom";
         ai_marker;
         enhance_run;
         ExecRun "git status --porcelain";
         ConsoleLog success_line ]
       3).
Proof. vm_compute. reflexivity. Qed.

(** C3, amended.  In every batch [quickUpdate] returns, whether its
    commands succeeded or were rejected, before anything of the AI step
    happens.  The trace of the batch is its opening line, the events of
    [quickUpdate] (which returns in [st1]), the events of the AI-enhanced
    update (which starts in [st1]), and the closing line; among the former
    there is nothing of the AI step, among the latter no command of the
    quick update, so that a regeneration always comes before a run of the
    enhancer.  A rejected synchronisation or regeneration is caught inside
    [quickUpdate]: its error is the last thing that [quickUpdate] prints,
    and the batch goes on.  The AI-enhanced update is started whenever the
    batch reaches the threshold, also after a failed regeneration, and
    with a key its first action is the command of the enhancer. *)
Theorem quick_update_returns_before_enhancement (out : Outside) (st : State) :
  isProcessing st = false → pendingChanges st ≠ [] →
  ∃ analysis st1 st2 st' quick_evs ai_evs new,
    analyzeChanges (pendingChanges st) = Some analysis ∧
    quickUpdate out analysis (batch_start st) = (Returned tt, st1) ∧
    events st1 = events (batch_start st) ++ quick_marker :: quick_evs ∧
    (if aiUpdateThreshold st <=? length (pendingChanges st)
     then aiEnhancedUpdate out analysis st1 else ret tt st1) = (Returned tt, st2) ∧
    events st2 = events st1 ++ ai_evs ∧
    processAccumulatedChanges out st = (Returned tt, st') ∧
    new = ConsoleLog (processing_line (length (pendingChanges st))) ::
          quick_marker :: quick_evs ++ ai_evs ++ [ConsoleLog success_line] ∧
    events st' = events st ++ new ∧
    Forall not_ai quick_evs ∧
    (generate_run ∉ ai_evs) ∧ (sync_run ∉ ai_evs) ∧
    (∀ i j, new !! i = Some generate_run → new !! j = Some enhance_run → i < j) ∧
    (generate_run ∈ quick_evs ↔ sync_succeeds out analysis (ticks st)) ∧
    (∀ e, types analysis = true → rejected out (ticks st) sync_cmd e →
          last quick_evs = Some (ConsoleError "❌ Quick update failed:" e)) ∧
    (∀ e, sync_succeeds out analysis (ticks st) →
          rejected out (ticks st + length (sync_commands analysis)) generate_cmd e →
          generate_run ∈ quick_evs ∧
          last quick_evs = Some (ConsoleError "❌ Quick update failed:" e)) ∧
    (aiUpdateThreshold st ≤ length (pendingChanges st) →
       ∃ evs, ai_evs = ai_marker :: evs ∧
              (no_api_key st = false → ∃ rest, evs = enhance_run :: rest)) ∧
    (length (pendingChanges st) < aiUpdateThreshold st → ai_evs = []).
Proof.
  intros Hp Hne.
  destruct (batch_steps out st Hp Hne)
    as (a & st1 & st2 & qe & ae & Ha & Hq & Eq & H2 & Ea & Hrun & Hev & Fq & Gq & L1 & L2 &
        Ga & Sa & Ta & Ba).
  eexists a, st1, st2, (batch_end st2), qe, ae, _.
  split_and!; [exact Ha|exact Hq|exact Eq|exact H2|exact Ea|exact Hrun|reflexivity|
               exact Hev|exact Fq|exact Ga|exact Sa|..].
  - intros i j.
    change (ConsoleLog (processing_line (length (pendingChanges st))) :: quick_marker ::
            qe ++ ae ++ [ConsoleLog success_line])
      with ((ConsoleLog (processing_line (length (pendingChanges st))) :: quick_marker ::
             qe) ++ ae ++ [ConsoleLog success_line]).
    apply before_after.
    + intros [H|H]%elem_of_app; [done|]. apply list_elem_of_singleton in H. discriminate H.
    + rewrite !elem_of_cons. intros H. destruct_or! H; try discriminate H.
      rewrite Forall_forall in Fq. by destruct (Fq _ H).
  - exact Gq.
  - exact L1.
  - intros e Hs Hr. split; [by apply Gq|by apply L2].
  - intros Hle. destruct (Ta Hle) as (evs & -> & _ & Hyes). by exists evs.
  - exact Ba.
Qed.

Lemma quick_update_returns_before_enhancement_witness :
  ∃ analysis st1 st2 st' quick_evs ai_evs new,
    analyzeChanges (pendingChanges three_notified) = Some analysis ∧
    quickUpdate failing_outside analysis (batch_start three_notified) = (Returned tt, st1) ∧
    events st1 = events (batch_start three_notified) ++ quick_marker :: quick_evs ∧
    (if aiUpdateThreshold three_notified <=? length (pendingChanges three_notified)
     then aiEnhancedUpdate failing_outside analysis st1 else ret tt st1) =
      (Returned tt, st2) ∧
    events st2 = events st1 ++ ai_evs ∧
    processAccumulatedChanges failing_outside three_notified = (Returned tt, st') ∧
    new = ConsoleLog (processing_line (length (pendingChanges three_notified))) ::
          quick_marker :: quick_evs ++ ai_evs ++ [ConsoleLog success_line] ∧
    events st' = events three_notified ++ new ∧
    Forall not_ai quick_evs ∧
    (generate_run ∉ ai_evs) ∧ (sync_run ∉ ai_evs) ∧
    (∀ i j, new !! i = Some generate_run → new !! j = Some enhance_run → i < j) ∧
    (generate_run ∈ quick_evs ↔
       sync_succeeds failing_outside analysis (ticks three_notified)) ∧
    (∀ e, types analysis = true → rejected failing_outside (ticks three_notified) sync_cmd e →
          last quick_evs = Some (ConsoleError "❌ Quick update failed:" e)) ∧
    (∀ e, sync_succeeds failing_outside analysis (ticks three_notified) →
          rejected failing_outside
            (ticks three_notified + length (sync_commands analysis)) generate_cmd e →
          generate_run ∈ quick_evs ∧
          last quick_evs = Some (ConsoleError "❌ Quick update failed:" e)) ∧
    (aiUpdateThreshold three_notified ≤ length (pendingChanges three_notified) →
       ∃ evs, ai_evs = ai_marker :: evs ∧
              (no_api_key three_notified = false → ∃ rest, evs = enhance_run :: rest)) ∧
    (length (pendingChanges three_notified) < aiUpdateThreshold three_notified →
     ai_evs = []).
Proof.
  apply quick_update_returns_before_enhancement; [reflexivity|discriminate].
Defined.

(** Two updaters that differ only in their pending sets, of equal size
    and equal analysis, process their batches alike. *)
Lemma batch_same (out : Outside) (st st2 : State) :
  isProcessing st = false → pendingChanges st ≠ [] →
  same_but_pending st st2 →
  length (pendingChanges st) = length (pendingChanges st2) →
  analyzeChanges (pendingChanges st) = analyzeChanges (pendingChanges st2) →
  processAccumulatedChanges out st2 = processAccumulatedChanges out st.
Proof.
  intros Hp Hne Hsame Hlen Han.
  assert (Hp2 : isProcessing st2 = false) by (destruct Hsame as [<- _]; done).
  assert (Hne2 : pendingChanges st2 ≠ []).
  { intros E. rewrite E in Hlen. by destruct (pendingChanges st). }
  destruct (processAccumulatedChanges_run out st Hp Hne)
    as (a1 & s1 & s2 & Ha1 & Hq1 & Hai1 & ->).
  destruct (processAccumulatedChanges_run out st2 Hp2 Hne2)
    as (a2 & t1 & t2 & Ha2 & Hq2 & Hai2 & ->).
  assert (a2 = a1) as -> by congruence.
  rewrite <- (batch_start_same st st2 Hsame Hlen) in Hq2.
  assert (t1 = s1) as -> by congruence.
  destruct Hsame as (_ & Ht & _). rewrite <- Ht, <- Hlen in Hai2.
  assert (t2 = s2) as -> by congruence.
  reflexivity.
Qed.

(** C2, as stated, fails.  One change was notified; the regeneration of
    its batch fails, and what the batch prints about the failure is the
    label and the error: no line of the batch contains the path that was
    being processed, and the path is no longer pending.  And where a file
    changes while a batch is processed, the pending set is not empty when
    the processing has completed. *)
Lemma failure_log_without_change_set :
  pendingChanges one_notified = ["src/lib/api.ts"] ∧
  processAccumulatedChanges failing_outside one_notified =
    (Returned tt,
     mkState [] false 3 {[ "ANTHROPIC_API_KEY" := "sk-test" ]}
       [ ConsoleLog "📝 File changed: src/lib/api.ts";
         ConsoleLog "🔄 Processing 1 accumulated changes...";
         quick_marker;
         generate_run;
         ConsoleError "❌ Quick update failed:" "boom";
         ConsoleLog success_line ]
       1) ∧
  existsb (λ e, JS.includes "src/lib/api.ts" (event_text e))
          (drop (length (events one_notified))
                (events (processAccumulatedChanges failing_outside one_notified).2)) = false ∧
  pendingChanges (processAccumulatedChanges notifying_outside one_notified).2 =
    ["src/lib/late.ts"].
Proof. split_and!; vm_compute; reflexivity. Qed.

(** C2, amended.  Every batch runs to its end, with or without failed
    steps, and leaves [isProcessing] unset.  The pending set is cleared of
    the paths of the batch: when the batch ends, the pending paths are
    exactly those notified while it was processed.  A failure is printed
    with the error only: every command of the batch that is rejected has
    its error printed under one of three fixed labels, and every error
    that the batch prints is such a label with the error of a rejected
    command.  The paths are part of no message: what a batch prints and
    runs depends on them only through their number and their analysis
    (modules and flags), so that two updaters that differ only in pending
    sets of equal size and equal analysis behave alike. *)
Theorem batch_snapshot_and_failure_log (out : Outside) (st : State) :
  isProcessing st = false → pendingChanges st ≠ [] →
  ∃ st' new,
    processAccumulatedChanges out st = (Returned tt, st') ∧
    events st' = events st ++ new ∧
    isProcessing st' = false ∧
    (∀ p, p ∈ pendingChanges st' ↔ delivered p new) ∧
    ((∀ p, ¬ delivered p new) → pendingChanges st' = []) ∧
    (∀ error, fails_among out (ticks st) new error →
              ∃ label, label ∈ error_labels ∧ ConsoleError label error ∈ new) ∧
    (∀ label error, ConsoleError label error ∈ new →
                    label ∈ error_labels ∧ fails_among out (ticks st) new error) ∧
    (∀ st2, same_but_pending st st2 →
            length (pendingChanges st) = length (pendingChanges st2) →
            analyzeChanges (pendingChanges st) = analyzeChanges (pendingChanges st2) →
            processAccumulatedChanges out st2 = processAccumulatedChanges out st).
Proof.
  intros Hp Hne.
  destruct (batch_trace out st Hp Hne)
    as (a & st' & qe & ae & Ha & Hrun & Hev & Hq & Hg & Hae & Hd & Hi & _).
  destruct (batch_runs out st Hp Hne) as (st'' & new & Hrun' & Hev' & _ & Hd').
  rewrite Hrun in Hrun'. injection Hrun' as <-.
  pose proof (batch_logged out st Hp Hne) as (evs & He & _ & Hfail & Herr & _).
  rewrite Hrun in He. cbn [snd] in He.
  assert (evs = new) as -> by (rewrite Hev' in He; by apply app_inv_head in He).
  assert (Hnew : new = ConsoleLog (processing_line (length (pendingChanges st))) ::
                       quick_marker :: qe ++ ae ++ [ConsoleLog success_line]).
  { rewrite Hev' in Hev. by apply app_inv_head in Hev. }
  assert (Hpend : ∀ p, p ∈ pendingChanges st' → delivered p new).
  { intros p Hpend. specialize (Hd p Hpend). rewrite Hnew.
    change (ConsoleLog (processing_line (length (pendingChanges st))) :: quick_marker ::
            qe ++ ae ++ [ConsoleLog success_line])
      with ([ConsoleLog (processing_line (length (pendingChanges st))); quick_marker] ++
            qe ++ ae ++ [ConsoleLog success_line]).
    apply delivered_app_r. rewrite app_assoc. by apply delivered_app_l. }
  exists st', new. split_and!; [exact Hrun|exact Hev'|exact Hi|..].
  - intros p. split; [apply Hpend|apply Hd'].
  - intros Hnone. destruct (pendingChanges st') as [|p l]; [done|].
    destruct (Hnone p). apply Hpend, list_elem_of_here.
  - intros error H. by destruct (Hfail error H) as [?|?].
  - exact Herr.
  - intros st2 Hsame Hlen Han. exact (batch_same out st st2 Hp Hne Hsame Hlen Han).
Qed.

Lemma batch_snapshot_and_failure_log_witness :
  ∃ st' new,
    processAccumulatedChanges failing_outside one_notified = (Returned tt, st') ∧
    events st' = events one_notified ++ new ∧
    isProcessing st' = false ∧
    (∀ p, p ∈ pendingChanges st' ↔ delivered p new) ∧
    ((∀ p, ¬ delivered p new) → pendingChanges st' = []) ∧
    (∀ error, fails_among failing_outside (ticks one_notified) new error →
              ∃ label, label ∈ error_labels ∧ ConsoleError label error ∈ new) ∧
    (∀ label error, ConsoleError label error ∈ new →
                    label ∈ error_labels ∧
                    fails_among failing_outside (ticks one_notified) new error) ∧
    (∀ st2, same_but_pending one_notified st2 →
            length (pendingChanges one_notified) = length (pendingChanges st2) →
            analyzeChanges (pendingChanges one_notified) =
              analyzeChanges (pendingChanges st2) →
            processAccumulatedChanges failing_outside st2 =
            processAccumulatedChanges failing_outside one_notified).
Proof. apply batch_snapshot_and_failure_log; [reflexivity|discriminate]. Defined.

(** Two batches of different paths with the same failure print the same. *)
Example same_failure_same_log :
  drop 1 (events (processAccumulatedChanges failing_outside
                    (notified [Change "docs/a.md"])).2) =
  drop 1 (events (processAccumulatedChanges failing_outside
                    (notified [Unlink "notes/b.txt"])).2).
Proof. vm_compute. reflexivity. Qed.

End AggregatorClaims.

(** ** Computations that keep a relation *)

Section Keeps.
Context {S : Type} (R : S → S → Prop).
Context (R_refl : ∀ st, R st st) (R_trans : ∀ st1 st2 st3, R st1 st2 → R st2 st3 → R st1 st3).

Lemma keeps_ret {A} (a : A) : keeps R (ret a : Eff S A).
Proof. intros st. apply R_refl. Qed.

Lemma keeps_throw {A} (e : string) : keeps R (throw e : Eff S A).
Proof. intros st. apply R_refl. Qed.

Lemma keeps_unfinished {A} : keeps R (unfinished : Eff S A).
Proof. intros st. apply R_refl. Qed.

Lemma keeps_gets {A} (f : S → A) : keeps R (gets f).
Proof. intros st. apply R_refl. Qed.

Lemma keeps_modify (f : S → S) : (∀ st, R st (f st)) → keeps R (modify f).
Proof. intros H st. apply H. Qed.

Lemma keeps_bind {A B} (m : Eff S A) (k : A → Eff S B) :
  keeps R m → (∀ a, keeps R (k a)) → keeps R (bind m k).
Proof.
  intros Hm Hk st. unfold bind. specialize (Hm st).
  destruct (m st) as [[a|e|] st1]; [|exact Hm..].
  eapply R_trans; [exact Hm|apply Hk].
Qed.

Lemma keeps_try_catch {A} (body : Eff S A) (handler : string → Eff S A) :
  keeps R body → (∀ e, keeps R (handler e)) → keeps R (try_catch body handler).
Proof.
  intros Hb Hh st. unfold try_catch. specialize (Hb st).
  destruct (body st) as [[a|e|] st1]; [exact Hb| |exact Hb].
  eapply R_trans; [exact Hb|apply Hh].
Qed.

End Keeps.

(** ** The AI enhancer: which pages a run touches *)

Section Touches.
Import Enhancer EnhancerSpec EnhancerFrame.

Lemma writes_of_app (e1 e2 : list Event) : writes_of (e1 ++ e2) = writes_of e1 ++ writes_of e2.
Proof. apply omap_app. Qed.

Lemma requests_of_app (e1 e2 : list Event) :
  requests_of (e1 ++ e2) = requests_of e1 ++ requests_of e2.
Proof. apply omap_app. Qed.

Lemma sleeps_of_app (e1 e2 : list Event) : sleeps_of (e1 ++ e2) = sleeps_of e1 ++ sleeps_of e2.
Proof. apply omap_app. Qed.

Lemma touches_refl (P : string → Prop) (st : State) : touches P st st.
Proof. split; [done|done| |done|lia|].
  - intros p Hn Hs. rewrite Hn in Hs. by destruct Hs.
  - exists []. rewrite app_nil_r. split; [done|].
    intros w Hw. by apply elem_of_nil in Hw.
Qed.

Lemma touches_trans (P : string → Prop) (st1 st2 st3 : State) :
  touches P st1 st2 → touches P st2 st3 → touches P st1 st3.
Proof.
  intros [O1 K1 N1 D1 C1 (e1 & E1 & W1)] [O2 K2 N2 D2 C2 (e2 & E2 & W2)].
  split.
  - intros p Hp. by rewrite O2, O1.
  - auto.
  - intros p Hnone Hsome. destruct (docs st2 !! p) as [d|] eqn:E; [|by apply N2].
    apply N1; [done|]. rewrite E. by eexists.
  - congruence.
  - lia.
  - exists (e1 ++ e2). rewrite E2, E1, app_assoc. split; [done|].
    intros w. rewrite writes_of_app, elem_of_app. intros [?|?]; auto.
Qed.

Lemma touches_mono (P Q : string → Prop) (st st' : State) :
  (∀ p, P p → Q p) → touches P st st' → touches Q st st'.
Proof.
  intros H [O K N D C (evs & E & W)]. split; [|done..|].
  - intros p Hp. apply O. auto.
  - exists evs. split; [done|]. auto.
Qed.

Lemma keeps_mono {A} (P Q : string → Prop) (m : Eff State A) :
  (∀ p, P p → Q p) → keeps (touches P) m → keeps (touches Q) m.
Proof. intros H Hm st. by eapply touches_mono. Qed.

Lemma tk_ret {A} (P : string → Prop) (a : A) : keeps (touches P) (ret a).
Proof. apply keeps_ret, touches_refl. Qed.

Lemma tk_throw {A} (P : string → Prop) (e : string) :
  keeps (touches P) (throw e : Eff State A).
Proof. apply keeps_throw, touches_refl. Qed.

Lemma tk_gets {A} (P : string → Prop) (f : State → A) : keeps (touches P) (gets f).
Proof. apply keeps_gets, touches_refl. Qed.

Lemma tk_bind {A B} (P : string → Prop) (m : Eff State A) (k : A → Eff State B) :
  keeps (touches P) m → (∀ a, keeps (touches P) (k a)) → keeps (touches P) (bind m k).
Proof. apply keeps_bind, touches_trans. Qed.

Lemma tk_try_catch {A} (P : string → Prop) (body : Eff State A)
    (handler : string → Eff State A) :
  keeps (touches P) body → (∀ e, keeps (touches P) (handler e)) →
  keeps (touches P) (try_catch body handler).
Proof. apply keeps_try_catch, touches_trans. Qed.

(** A step that writes nothing. *)
Lemma touches_silent (P : string → Prop) (st st' : State) (evs : list Event) :
  docs st' = docs st → doc_dirs st' = doc_dirs st → calls st ≤ calls st' →
  events st' = events st ++ evs → writes_of evs = [] →
  touches P st st'.
Proof.
  intros Hd Hdd Hc He Hw. split; [| | |done|done|].
  - intros p _. by rewrite Hd.
  - intros p. by rewrite Hd.
  - intros p Hn Hs. rewrite Hd, Hn in Hs. by destruct Hs.
  - exists evs. split; [done|]. rewrite Hw. intros w Hin. by apply elem_of_nil in Hin.
Qed.

Lemma touches_emit (P : string → Prop) (e : Event) (st : State) :
  writes_of [e] = [] → touches P st (emit e st).
Proof. intros H. by apply (touches_silent P _ _ [e]). Qed.

Lemma touches_count_call (P : string → Prop) (st : State) : touches P st (count_call st).
Proof. apply (touches_silent P _ _ []); try done; [cbn; lia|]. cbn. by rewrite app_nil_r. Qed.

Lemma keeps_console_log (P : string → Prop) (line : string) :
  keeps (touches P) (console_log line).
Proof. intros st. by apply (touches_silent P _ _ [ConsoleLog line]). Qed.

Lemma keeps_console_error (P : string → Prop) (label error : string) :
  keeps (touches P) (console_error label error).
Proof. intros st. by apply (touches_silent P _ _ [ConsoleError label error]). Qed.

(** Writing a page that exists, or the performance page. *)
Lemma touches_write (P : string → Prop) (p data : string) (st : State) :
  P p → is_Some (docs st !! p) ∨ p = performancePath →
  touches P st (writeFileSync p data st).2.
Proof.
  intros HP Hex. cbv [writeFileSync bind modify]. cbn [snd]. split.
  - intros q Hq. cbn [docs set_docs emit]. apply lookup_insert_ne. by intros ->.
  - intros q Hq. cbn [docs set_docs emit].
    destruct (decide (p = q)) as [->|Hne].
    + rewrite lookup_insert_eq. by eexists.
    + by rewrite lookup_insert_ne.
  - intros q Hn Hs. cbn [docs set_docs emit] in Hs.
    destruct (decide (p = q)) as [->|Hne].
    + destruct Hex as [Hex|Hex]; [|done]. rewrite Hn in Hex. by destruct Hex.
    + rewrite lookup_insert_ne, Hn in Hs by done. by destruct Hs.
  - done.
  - cbn. lia.
  - exists [WriteFile p data]. split; [done|].
    intros w Hw. apply list_elem_of_singleton in Hw. by subst w.
Qed.

End Touches.

Section EnhancerSteps.
Import Enhancer EnhancerSpec EnhancerFrame.
Context (out : Outside) (JSON_stringify : json → string).

Lemma keeps_for_each {A} (P : string → Prop) (f : A → Eff State unit) (l : list A) :
  (∀ x, x ∈ l → keeps (touches P) (f x)) → keeps (touches P) (for_each f l).
Proof.
  induction l as [|x l IH]; intros H; [apply tk_ret|].
  cbn [for_each]. apply tk_bind.
  - apply H, list_elem_of_here.
  - intros _. apply IH. intros y Hy. by apply H, list_elem_of_further.
Qed.

Local Ltac silent :=
  repeat first
    [ apply touches_refl
    | eapply touches_trans; [|apply touches_emit; reflexivity]
    | eapply touches_trans; [|apply touches_count_call] ].

Lemma messages_create_keeps (request : Request) :
  keeps (touches nothing) (messages_create out request).
Proof.
  intros st. cbv [messages_create bind gets modify].
  destruct (api_reply out (calls st) request); cbn [snd]; silent.
Qed.

Lemma testConnection_keeps : keeps (touches nothing) (testConnection out).
Proof.
  unfold testConnection. apply tk_try_catch.
  - apply tk_bind; [apply keeps_console_log|]. intros _.
    apply tk_bind; [apply messages_create_keeps|]. intros blocks.
    apply tk_bind; [apply keeps_console_log|]. intros _.
    destruct blocks; [apply tk_throw|apply keeps_console_log].
  - intros e. apply tk_bind; [apply keeps_console_error|]. intros _.
    apply tk_throw.
Qed.

(** [callClaude] writes nothing, however it ends. *)
Lemma callClaude_keeps (fuel : nat) (prompt : string) :
  keeps (touches nothing) (callClaude out fuel prompt).
Proof.
  induction fuel as [|fuel IH]; intros st; [apply touches_refl|].
  rewrite callClaude_step.
  destruct (api_reply out (calls st) (claude_request prompt)) as [[|text blocks]|status message].
  - cbn [snd]. unfold after_failure. silent.
  - cbn [snd]. unfold after_answer. silent.
  - destruct (bool_decide (status = Some 429)).
    + eapply touches_trans; [|apply IH]. unfold after_rate_limit. silent.
    + cbn [snd]. unfold after_failure. silent.
Qed.

Lemma callClaude_docs (fuel : nat) (prompt : string) (st : State) :
  docs (callClaude out fuel prompt st).2 = docs st.
Proof.
  apply map_eq. intros p. apply (touches_others _ _ _ (callClaude_keeps fuel prompt st)).
  by intros [].
Qed.

Lemma readTypesFile_run (st : State) :
  ∃ typesContent, readTypesFile st = (Returned typesContent, st) ∧
    (docs st !! "types/generated.d.ts" = None → typesContent = EmptyString) ∧
    (∀ data, docs st !! "types/generated.d.ts" = Some data → typesContent = data).
Proof.
  cbv [readTypesFile bind existsSync readFileSync gets ret].
  destruct (docs st !! "types/generated.d.ts") as [data|] eqn:E.
  - rewrite bool_decide_eq_true_2 by eauto. cbv beta iota. rewrite E. exists data.
    split_and!; [done..|]. by intros ? [= <-].
  - rewrite bool_decide_eq_false_2 by (by intros [? ?]). by exists EmptyString.
Qed.

Lemma updateApiDocumentation_keeps : keeps (touches nothing) updateApiDocumentation.
Proof.
  unfold updateApiDocumentation.
  apply tk_bind; [apply keeps_console_log|]. intros _. intros st. unfold bind.
  destruct (readTypesFile_run st) as (typesContent & -> & _).
  apply keeps_for_each. intros change _ st0. cbv [enhanceApiPage bind gets].
  destruct (doc_dirs st0 !! _); [apply keeps_console_log|apply touches_refl].
Qed.

(** [enhanceModuleDocumentation] touches the page of its module only, and
    only if that page exists. *)
Lemma enhanceModuleDocumentation_keeps (fuel : nat) (moduleName : string) :
  keeps (touches (λ p, p = moduleDocPath moduleName))
        (enhanceModuleDocumentation out JSON_stringify fuel moduleName).
Proof.
  intros st. destruct (analyzeModuleCode out moduleName) as [moduleCode|e|] eqn:Hcode.
  2:{ rewrite (enhanceModuleDocumentation_thrown out JSON_stringify fuel moduleName e)
        by done.
      apply touches_emit. reflexivity. }
  2:{ by apply analyzeModuleCode_finishes in Hcode. }
  destruct (docs st !! moduleDocPath moduleName) as [current|] eqn:E.
  - destruct (decide (current = EmptyString)) as [->|Hne].
    + unfold enhanceModuleDocumentation.
      unfold bind at 1, console_log at 1, modify at 1. unfold bind at 1, outcome.
      rewrite Hcode. unfold bind at 1.
      rewrite (readModuleDoc_found moduleName EmptyString) by done.
      cbn [JS.truthy negb snd]. unfold console_log, modify. cbn [snd].
      eapply touches_trans; apply touches_emit; reflexivity.
    + rewrite (enhanceModuleDocumentation_found out JSON_stringify fuel moduleName current
                 moduleCode) by done.
      pose proof (callClaude_keeps fuel
                    (modulePrompt JSON_stringify moduleName moduleCode current)
                    (announced moduleName st)) as Hc.
      pose proof (callClaude_docs fuel
                    (modulePrompt JSON_stringify moduleName moduleCode current)
                    (announced moduleName st)) as Hd.
      assert (Ha : touches (λ p, p = moduleDocPath moduleName) st (announced moduleName st))
        by (apply touches_emit; reflexivity).
      pose proof (touches_trans _ _ _ _ Ha
                    (touches_mono nothing _ _ _ ltac:(by intros ? []) Hc)) as H1.
      destruct (callClaude out fuel _ _) as [[[[|c text]|]|e|] st1]; cbn [snd] in *; try done.
      eapply touches_trans; [exact H1|].
      eapply touches_trans; [|apply touches_emit; reflexivity].
      apply (touches_write _ (moduleDocPath moduleName) (String c text) st1); [done|].
      left. rewrite Hd. cbn [docs announced emit]. rewrite E. by eexists.
  - rewrite (enhanceModuleDocumentation_missing out JSON_stringify fuel moduleName
               moduleCode) by done.
    cbn [snd]. unfold announced.
    eapply touches_trans; apply touches_emit; reflexivity.
Qed.

Lemma enhanceArchitectureOverview_keeps (insights : option string) :
  keeps (touches (λ p, p = overviewPath)) (enhanceArchitectureOverview insights).
Proof.
  intros st. destruct insights as [[|c text]|]; try apply touches_refl.
  cbv [enhanceArchitectureOverview bind existsSync gets].
  destruct (docs st !! "architecture/overview.mdx") as [current|] eqn:E.
  - rewrite bool_decide_eq_true_2 by eauto. cbv [readFileSync bind gets]. rewrite E.
    cbv [ret]. cbv beta iota.
    match goal with
    | |- touches _ _ (let (_, _) := writeFileSync ?path ?data st in _).2 =>
        pose proof (touches_write (λ q, q = overviewPath) path data st eq_refl) as Hw;
        destruct (writeFileSync path data st) as [[[]|e|] st1] eqn:Ew; cbn [snd] in *
    end.
    + eapply touches_trans; [apply Hw; left; rewrite E; by eexists|].
      apply keeps_console_log.
    + apply Hw. left. rewrite E. by eexists.
    + apply Hw. left. rewrite E. by eexists.
  - rewrite bool_decide_eq_false_2 by (by intros [? ?]). apply touches_refl.
Qed.

Lemma addPerformanceSection_keeps (recommendations : option string) :
  keeps (touches (λ p, p = performancePath)) (addPerformanceSection out recommendations).
Proof.
  intros st. destruct recommendations as [[|c text]|]; try apply touches_refl.
  cbv [addPerformanceSection bind].
  match goal with
  | |- touches _ _ (let (_, _) := writeFileSync ?path ?data st in _).2 =>
      pose proof (touches_write (λ q, q = performancePath) path data st eq_refl) as Hw;
      destruct (writeFileSync path data st) as [[[]|e|] st1] eqn:Ew; cbn [snd] in *
  end.
  - eapply touches_trans; [apply Hw; by right|]. apply keeps_console_log.
  - apply Hw. by right.
  - apply Hw. by right.
Qed.

Lemma updateOverviewPages_keeps (fuel : nat) :
  keeps (touches (λ p, p = overviewPath ∨ p = performancePath))
        (updateOverviewPages out JSON_stringify fuel).
Proof.
  unfold updateOverviewPages.
  apply tk_bind; [apply keeps_console_log|]. intros _.
  apply tk_bind.
  { eapply keeps_mono; [|apply callClaude_keeps]. by intros ? []. }
  intros insights. apply tk_bind.
  { destruct insights as [[|c text]|]; try apply tk_ret.
    eapply keeps_mono; [|apply enhanceArchitectureOverview_keeps]. by left. }
  intros _. apply tk_bind.
  { eapply keeps_mono; [|apply callClaude_keeps]. by intros ? []. }
  intros recommendations.
  destruct recommendations as [[|c text]|]; try apply tk_ret.
  eapply keeps_mono; [|apply addPerformanceSection_keeps]. by right.
Qed.

Lemma enhanceDocumentation_keeps (fuel : nat) (this : Enhancer) :
  keeps (touches (owned this)) (enhanceDocumentation out JSON_stringify fuel this).
Proof.
  unfold enhanceDocumentation.
  apply tk_bind; [apply keeps_console_log|]. intros _.
  apply tk_try_catch.
  - apply tk_bind.
    { eapply keeps_mono; [|apply testConnection_keeps]. by intros ? []. }
    intros _. apply tk_bind.
    { destruct (typesChanged this); [|apply tk_ret].
      eapply keeps_mono; [|apply updateApiDocumentation_keeps]. by intros ? []. }
    intros _. apply tk_bind.
    { apply keeps_for_each. intros m Hm.
      eapply keeps_mono; [|apply enhanceModuleDocumentation_keeps].
      intros p ->. right. right. by exists m. }
    intros _. apply tk_bind.
    { eapply keeps_mono; [|apply updateOverviewPages_keeps].
      intros p [->| ->]; [by left|right; by left]. }
    intros _. apply keeps_console_log.
  - intros e. apply tk_bind; [apply keeps_console_error|]. intros _. apply tk_throw.
Qed.

End EnhancerSteps.

Section EnhancerRuns.
Import Enhancer EnhancerSpec EnhancerFrame.

Lemma constructor_keeps (out : Outside) (env : gmap string string) :
  keeps (touches nothing) (constructor out env).
Proof.
  unfold constructor. destruct (Boolean_env _); [|apply tk_throw].
  repeat (apply tk_bind; [apply keeps_console_log|]; intros _). apply tk_ret.
Qed.

Lemma main_keeps (out : Outside) (JSON_stringify : json → string) (fuel : nat)
    (env : gmap string string) :
  keeps (touches (owned (mkEnhancer (changedModules_of (env !! "CHANGED_MODULES"))
                           (Boolean_env (env !! "TYPES_CHANGED")))))
        (main out JSON_stringify fuel env).
Proof.
  unfold main. apply tk_try_catch; [|intros e; apply keeps_console_error].
  intros st. unfold bind, constructor.
  destruct (Boolean_env (env !! "ANTHROPIC_API_KEY")); [|apply touches_refl].
  cbv [bind console_log modify ret].
  eapply touches_trans; [|apply enhanceDocumentation_keeps].
  repeat (eapply touches_trans; [|apply touches_emit; reflexivity]). apply touches_refl.
Qed.

(** Without its key the script prints the error of the constructor and
    does nothing else. *)
Lemma main_without_key (out : Outside) (JSON_stringify : json → string) (fuel : nat)
    (env : gmap string string) (st : State) :
  Boolean_env (env !! "ANTHROPIC_API_KEY") = false →
  main out JSON_stringify fuel env st =
  (Returned tt, emit (ConsoleError EmptyString key_error) st).
Proof. intros H. unfold main, try_catch, bind, constructor. by rewrite H. Qed.

(** X7. A run of the enhancer for modules whose names are path segments
    (names without [/], as the names of the module directories are)
    changes no page but the architecture overview, the performance page and
    the pages of the modules named in [CHANGED_MODULES], however the
    service answers and however the run ends.  It removes no page, and the
    only page it may create is the performance page: a module page or the
    overview is written only where it exists already. *)
Theorem enhancer_page_ownership
    (out : Outside) (JSON_stringify : json → string) (fuel : nat)
    (env : gmap string string) (st : State) :
  Forall (λ m, is_segment m = true) (changedModules_of (env !! "CHANGED_MODULES")) →
  let st' := (main out JSON_stringify fuel env st).2 in
  let changed := changedModules_of (env !! "CHANGED_MODULES") in
  (∀ p, docs st' !! p ≠ docs st !! p →
        p = overviewPath ∨ p = performancePath ∨
        ∃ m, m ∈ changed ∧ p = moduleDocPath m) ∧
  (∀ p, is_Some (docs st !! p) → is_Some (docs st' !! p)) ∧
  (∀ p, docs st !! p = None → is_Some (docs st' !! p) → p = performancePath) ∧
  ∃ new, events st' = events st ++ new ∧
         ∀ w, w ∈ writes_of new →
              w.1 = overviewPath ∨ w.1 = performancePath ∨
              ∃ m, m ∈ changed ∧ w.1 = moduleDocPath m.
Proof.
  intros _ st' changed.
  destruct (main_keeps out JSON_stringify fuel env st) as [O K N _ _ W].
  fold st' in O, K, N, W. split_and!; [|done|done|done].
  intros p Hp.
  destruct (decide (p = overviewPath)) as [|H1]; [by left|].
  destruct (decide (p = performancePath)) as [|H2]; [right; by left|].
  destruct (decide (p ∈ moduleDocPath <$> changed)) as [Hin|H3].
  - apply list_elem_of_fmap in Hin as (m & -> & Hm). right. right. by exists m.
  - exfalso. apply Hp, O. intros [?|[?|(m & Hm & ->)]]; [done..|].
    apply H3, list_elem_of_fmap. by exists m.
Qed.

Lemma enhancer_page_ownership_witness :
  let st' := (main answering stringify_stub 3 legacy_env legacy_page).2 in
  let changed := changedModules_of (legacy_env !! "CHANGED_MODULES") in
  (∀ p, docs st' !! p ≠ docs legacy_page !! p →
        p = overviewPath ∨ p = performancePath ∨
        ∃ m, m ∈ changed ∧ p = moduleDocPath m) ∧
  (∀ p, is_Some (docs legacy_page !! p) → is_Some (docs st' !! p)) ∧
  (∀ p, docs legacy_page !! p = None → is_Some (docs st' !! p) → p = performancePath) ∧
  ∃ new, events st' = events legacy_page ++ new ∧
         ∀ w, w ∈ writes_of new →
              w.1 = overviewPath ∨ w.1 = performancePath ∨
              ∃ m, m ∈ changed ∧ w.1 = moduleDocPath m.
Proof.
  apply (enhancer_page_ownership answering stringify_stub 3 legacy_env legacy_page).
  apply (bool_decide_unpack _). by vm_compute.
Defined.

Lemma testConnection_failed (out : Outside) (status : option nat) (message : string)
    (st : State) :
  api_reply out (calls st) test_request = ApiError status message →
  testConnection out st =
  (Thrown connection_error,
   emit (ConsoleError "❌ Anthropic API connection failed:" message)
     (count_call (emit (ApiCall test_request)
        (emit (ConsoleLog "🔌 Testing Anthropic API connection...") st)))).
Proof.
  intros H. cbv [testConnection try_catch bind console_log modify messages_create gets].
  cbn [calls emit]. fold test_request. by rewrite H.
Qed.

(** X8. A failed connection test ends the run before anything is
    enhanced.  When the first request is refused, whatever the status (a
    rate limit included: the test is not retried), [enhanceDocumentation]
    throws the connection error after that one request, without waiting
    and without writing any page; the last thing it prints is that
    error. *)
Theorem failed_connection_test_aborts
    (out : Outside) (JSON_stringify : json → string) (fuel : nat) (this : Enhancer)
    (st : State) (status : option nat) (message : string) :
  api_reply out (calls st) test_request = ApiError status message →
  ∃ st',
    enhanceDocumentation out JSON_stringify fuel this st = (Thrown connection_error, st') ∧
    docs st' = docs st ∧ calls st' = S (calls st) ∧
    requests_of (events st') = requests_of (events st) ++ [test_request] ∧
    sleeps_of (events st') = sleeps_of (events st) ∧
    writes_of (events st') = writes_of (events st) ∧
    last (events st') = Some (ConsoleError "❌ AI enhancement failed:" connection_error).
Proof.
  intros H. unfold enhanceDocumentation.
  unfold bind at 1, console_log at 1, modify at 1. unfold try_catch. unfold bind at 1.
  rewrite (testConnection_failed out status message) by done.
  eexists. split; [reflexivity|].
  cbv [bind console_error modify throw]. cbn [docs calls events emit count_call].
  rewrite !requests_of_app, !sleeps_of_app, !writes_of_app. cbn.
  rewrite !app_nil_r, <- !app_assoc. split_and!; try done.
  rewrite !app_assoc. apply last_snoc.
Qed.

Lemma failed_connection_test_aborts_witness :
  ∃ st',
    enhanceDocumentation always_limited stringify_stub 5 (mkEnhancer ["sales"] true)
      two_pages = (Thrown connection_error, st') ∧
    docs st' = docs two_pages ∧ calls st' = S (calls two_pages) ∧
    requests_of (events st') = requests_of (events two_pages) ++ [test_request] ∧
    sleeps_of (events st') = sleeps_of (events two_pages) ∧
    writes_of (events st') = writes_of (events two_pages) ∧
    last (events st') = Some (ConsoleError "❌ AI enhancement failed:" connection_error).
Proof.
  apply (failed_connection_test_aborts always_limited stringify_stub 5
           (mkEnhancer ["sales"] true) two_pages (Some 429) "rate_limit_error").
  reflexivity.
Defined.

End EnhancerRuns.

(** ** The AI enhancer: what it reads from the sources *)

Section EnhancerText.
Import Enhancer EnhancerSpec EnhancerFrame.

Lemma drop_string_append (a b : string) : drop_string (String.length a) (a +:+ b) = b.
Proof. induction a as [|c a IH]; [by destruct b|]. rewrite append_cons. exact IH. Qed.

Lemma take_word_prefix (s : string) : ∃ r, s = take_word s +:+ r.
Proof.
  induction s as [|c s [r IH]]; [by exists EmptyString|]. cbn [take_word].
  destruct (is_word c); [|by eexists].
  exists r. rewrite append_cons. by rewrite <- IH.
Qed.

Lemma take_word_idem (s : string) : take_word (take_word s) = take_word s.
Proof.
  induction s as [|c s IH]; [done|]. cbn [take_word].
  destruct (is_word c) eqn:E; [|done]. cbn [take_word]. by rewrite E, IH.
Qed.

Lemma lower_idem (c : ascii) : JS.lower (JS.lower c) = JS.lower c.
Proof. destruct c as [[] [] [] [] [] [] [] []]; reflexivity. Qed.

Lemma toLowerCase_idem (s : string) : JS.toLowerCase (JS.toLowerCase s) = JS.toLowerCase s.
Proof. induction s as [|c s IH]; [done|]. cbn [JS.toLowerCase]. by rewrite lower_idem, IH. Qed.

Lemma toLowerCase_nonempty (s : string) : s ≠ EmptyString → JS.toLowerCase s ≠ EmptyString.
Proof. by destruct s. Qed.

Lemma startsWith_includes (sub s : string) : JS.startsWith sub s = true → JS.includes sub s = true.
Proof. intros H. destruct s; simpl; by rewrite H. Qed.

Lemma includes_further (sub : string) (c : ascii) (s : string) :
  JS.includes sub s = true → JS.includes sub (String c s) = true.
Proof. intros H. rewrite includes_cons, H. apply orb_true_r. Qed.

(** Every name found follows an occurrence of the prefix and consists of
    word characters. *)
Lemma namespace_matches_spec (s : string) :
  ∀ skip w, w ∈ namespace_matches skip s →
    w ≠ EmptyString ∧ take_word w = w ∧ JS.includes (namespace_prefix +:+ w) s = true.
Proof.
  induction s as [|c s IH]; intros skip w Hw; [by apply elem_of_nil in Hw|].
  cbn [namespace_matches] in Hw. destruct skip as [|k].
  - destruct (JS.startsWith namespace_prefix (String c s)) eqn:Es.
    + destruct (take_word (drop_string (String.length namespace_prefix) (String c s)))
        as [|d w0] eqn:Ew.
      * destruct (IH _ _ Hw) as (? & ? & ?). split_and!; [done..|by apply includes_further].
      * apply elem_of_cons in Hw as [->|Hw].
        -- split; [done|]. split; [by rewrite <- Ew, take_word_idem|].
           apply startsWith_inv in Es as [t Et]. rewrite Et in Ew |- *.
           rewrite drop_string_append in Ew.
           destruct (take_word_prefix t) as [r Hr]. rewrite Ew in Hr. rewrite Hr.
           apply startsWith_includes. rewrite <- append_assoc. apply startsWith_append.
        -- destruct (IH _ _ Hw) as (? & ? & ?).
           split_and!; [done..|by apply includes_further].
    + destruct (IH _ _ Hw) as (? & ? & ?). split_and!; [done..|by apply includes_further].
  - destruct (IH _ _ Hw) as (? & ? & ?). split_and!; [done..|by apply includes_further].
Qed.

Lemma namespace_matches_none (s : string) :
  JS.includes namespace_prefix s = false → ∀ skip, namespace_matches skip s = [].
Proof.
  induction s as [|c s IH]; intros H skip; [done|].
  rewrite includes_cons in H. apply orb_false_iff in H as [H1 H2].
  cbn [namespace_matches]. destruct skip; [|by apply IH]. rewrite H1. by apply IH.
Qed.

(** X9. [extractTypeChanges] reports a module for a declaration of a
    namespace under [Modules.Contracts.Contracts] only: without that text
    it reports nothing.  Every change it reports comes from a name of word
    characters that follows the prefix in the types file; its module is
    that name in lower case (and so non-empty and unchanged by a further
    lowering), and its content names the module as it was written. *)
Theorem type_changes_are_lowercase_namespaces :
  (∀ typesContent,
     JS.includes namespace_prefix typesContent = false →
     extractTypeChanges typesContent = []) ∧
  (∀ typesContent change,
     change ∈ extractTypeChanges typesContent →
     ∃ w, w ≠ EmptyString ∧ take_word w = w ∧
          JS.includes (namespace_prefix +:+ w) typesContent = true ∧
          change = (JS.toLowerCase w, "Module " +:+ w +:+ " detected") ∧
          change.1 ≠ EmptyString ∧ JS.toLowerCase change.1 = change.1).
Proof.
  split.
  - intros t H. unfold extractTypeChanges. by rewrite namespace_matches_none.
  - intros t change Hc. unfold extractTypeChanges in Hc.
    apply list_elem_of_fmap in Hc as (w & -> & Hw).
    destruct (namespace_matches_spec _ _ _ Hw) as (Hne & Hword & Hin).
    exists w. split_and!; try done.
    + by apply toLowerCase_nonempty.
    + apply toLowerCase_idem.
Qed.

Example two_namespaces :
  extractTypeChanges
    ("declare namespace Modules.Contracts.Contracts.Sales { } " +:+
     "declare namespace Modules.Contracts.Contracts.School_Year.Data { }") =
  [("sales", "Module Sales detected"); ("school_year", "Module School_Year detected")].
Proof. reflexivity. Qed.

Lemma fields_match_cons (c : ascii) (s : string) :
  fields_match (String c s) =
  match fields_at (String c s) with
  | Some g => Some g
  | None => fields_match s
  end.
Proof. reflexivity. Qed.

Lemma fields_at_none (s : string) : JS.startsWith "fields:" s = false → fields_at s = None.
Proof. intros H. unfold fields_at. by rewrite H. Qed.

Lemma fields_match_none (s : string) :
  JS.includes "fields:" s = false → fields_match s = None.
Proof.
  induction s as [|c s IH]; intros H; [done|].
  rewrite includes_cons in H. apply orb_false_iff in H as [H1 H2].
  by rewrite fields_match_cons, fields_at_none, IH.
Qed.

Lemma fields_match_skip (pre rest : string) :
  starts_nowhere "fields:" pre rest → fields_match (pre +:+ rest) = fields_match rest.
Proof.
  induction pre as [|c pre IH]; intros H; [done|].
  rewrite append_cons, fields_match_cons, fields_at_none.
  - apply IH. intros a b Hab Hb. apply (H (String c a) b); [by rewrite Hab|done].
  - change (String c (pre +:+ rest)) with (String c pre +:+ rest).
    by apply (H EmptyString (String c pre)).
Qed.

Lemma trimStart_spaces (ws : string) (c : ascii) (r : string) :
  JS.trimStart ws = EmptyString → JS.is_space c = false →
  JS.trimStart (ws +:+ String c r) = String c r.
Proof.
  intros Hws Hc. induction ws as [|x ws IH].
  - rewrite append_nil_l. cbn [JS.trimStart]. by rewrite Hc.
  - rewrite append_cons. cbn [JS.trimStart] in *.
    destruct (JS.is_space x); [by apply IH|done].
Qed.

Lemma until_close_append (g post : string) :
  JS.includes "}" g = false → until_close (g +:+ String "}" post) = Some g.
Proof.
  induction g as [|c g IH]; intros H.
  - rewrite append_nil_l. cbn [until_close]. by rewrite decide_True.
  - apply includes_char_false in H as [Hc H].
    rewrite append_cons. cbn [until_close]. rewrite decide_False by done.
    by rewrite IH.
Qed.

Lemma length_split_char (d : ascii) (s : string) :
  length (JS.split (String d EmptyString) s) = S (occurrences d s).
Proof.
  unfold JS.split.
  assert (H : length (JS.split_go (String d EmptyString) 0 s).2 = occurrences d s).
  { induction s as [|c s IH]; [done|]. cbn [JS.split_go JS.startsWith occurrences].
    destruct (decide (d = c)) as [->|Hne].
    - rewrite decide_True by done. cbn [String.length Nat.sub].
      destruct (JS.split_go (String c EmptyString) 0 s) as [h t]. cbn in *. by rewrite IH.
    - rewrite decide_False by done.
      destruct (JS.split_go (String d EmptyString) 0 s) as [h t]. cbn in *. by rewrite IH. }
  destruct (JS.split_go (String d EmptyString) 0 s) as [h t]. cbn in *. by rewrite H.
Qed.

(** X10. [extractFieldCount] counts separators, not fields.  A text
    without [fields:] has no fields.  Where the first [fields:] is followed
    by white space and a block in braces that is not empty, the count is
    one more than the number of commas in the block, whatever stands
    between them (so a comma after the last field counts as a field). *)
Theorem field_count_is_commas_plus_one :
  (∀ content, JS.includes "fields:" content = false → extractFieldCount content = 0) ∧
  (∀ pre ws block post,
     JS.includes "fields:" (pre +:+ "fields") = false →
     JS.trimStart ws = EmptyString →
     block ≠ EmptyString → JS.includes "}" block = false →
     extractFieldCount (pre +:+ "fields:" +:+ ws +:+ "{" +:+ block +:+ "}" +:+ post) =
     S (occurrences "," block)).
Proof.
  split.
  - intros content H. unfold extractFieldCount. by rewrite fields_match_none.
  - intros pre ws block post Hpre Hws Hne Hblock. unfold extractFieldCount.
    rewrite fields_match_skip.
    + change ("fields:" +:+ ws +:+ "{" +:+ block +:+ "}" +:+ post)
        with (String "f" ("ields:" +:+ ws +:+ "{" +:+ block +:+ "}" +:+ post)).
      rewrite fields_match_cons. unfold fields_at.
      change (String "f" ("ields:" +:+ ws +:+ "{" +:+ block +:+ "}" +:+ post))
        with ("fields:" +:+ ws +:+ "{" +:+ block +:+ "}" +:+ post).
      rewrite startsWith_append.
      change 7 with (String.length "fields:"). rewrite drop_string_append.
      change ("{" +:+ block +:+ "}" +:+ post)
        with (String "{" (block +:+ String "}" post)).
      rewrite trimStart_spaces by done. rewrite until_close_append by done.
      destruct block as [|c block]; [done|]. apply length_split_char.
    + intros a b -> Hb.
      change ("fields:" +:+ ws +:+ "{" +:+ block +:+ "}" +:+ post)
        with ("fields" +:+ (":" +:+ ws +:+ "{" +:+ block +:+ "}" +:+ post)).
      rewrite <- append_assoc, startsWith_append_long.
      * rewrite append_assoc in Hpre. by eapply includes_false_suffix.
      * rewrite length_append. destruct b; [done|]. simpl. lia.
Qed.

Lemma field_count_is_commas_plus_one_witness :
  extractFieldCount
    ("export const order = { " +:+ "fields:" +:+ " " +:+ "{" +:+ " id: 1, total: 2, " +:+
     "}" +:+ " }") = S (occurrences "," " id: 1, total: 2, ").
Proof.
  destruct field_count_is_commas_plus_one as [_ H].
  apply (H "export const order = { " " " " id: 1, total: 2, " " }"); reflexivity || done.
Defined.

Example trailing_comma_counts :
  extractFieldCount "fields: { id: 1, total: 2, }" = 3.
Proof. reflexivity. Qed.

End EnhancerText.

Section EnhancerPages.
Import Enhancer EnhancerSpec EnhancerFrame.

Lemma enhanceArchitectureOverview_run (insights current : string) (st : State) :
  insights ≠ EmptyString → docs st !! overviewPath = Some current →
  enhanceArchitectureOverview (Some insights) st =
  (Returned tt,
   emit (ConsoleLog "✅ Enhanced architecture overview with AI insights")
     (set_docs (insert overviewPath (current +:+ insights_heading +:+ insights))
        (emit (WriteFile overviewPath (current +:+ insights_heading +:+ insights)) st))).
Proof.
  intros Hne H. destruct insights as [|c text]; [done|].
  cbv [enhanceArchitectureOverview bind existsSync readFileSync gets ret].
  unfold overviewPath in H. rewrite H. rewrite bool_decide_eq_true_2 by eauto.
  cbv beta iota. by rewrite H.
Qed.

Lemma addPerformanceSection_run (out : Outside) (recommendations : string) (st : State) :
  recommendations ≠ EmptyString →
  addPerformanceSection out (Some recommendations) st =
  (Returned tt,
   emit (ConsoleLog "✅ Created AI-generated performance recommendations")
     (set_docs (insert performancePath (perfContent (locale_date out) recommendations))
        (emit (WriteFile performancePath (perfContent (locale_date out) recommendations))
           st))).
Proof. intros Hne. by destruct recommendations. Qed.

(** X11. The overview grows with every enhancement, the performance page
    does not.  Two enhancements of an existing overview, one after the
    other, leave the old content followed by both sections of insights, in
    order.  Two calls of [addPerformanceSection] leave the page of the
    second: the page is created if it does not exist and replaced if it
    does. *)
Theorem overview_accumulates_performance_is_replaced :
  (∀ (first second current : string) (st : State),
     first ≠ EmptyString → second ≠ EmptyString →
     docs st !! overviewPath = Some current →
     ∃ st',
       (enhanceArchitectureOverview (Some first) >>
        enhanceArchitectureOverview (Some second)) st = (Returned tt, st') ∧
       docs st' =
         <[overviewPath := current +:+ insights_heading +:+ first +:+
                           insights_heading +:+ second]> (docs st)) ∧
  (∀ (out : Outside) (first second : string) (st : State),
     first ≠ EmptyString → second ≠ EmptyString →
     ∃ st',
       (addPerformanceSection out (Some first) >>
        addPerformanceSection out (Some second)) st = (Returned tt, st') ∧
       docs st' = <[performancePath := perfContent (locale_date out) second]> (docs st)).
Proof.
  split.
  - intros first second current st H1 H2 H. unfold bind.
    rewrite (enhanceArchitectureOverview_run first current) by done.
    rewrite (enhanceArchitectureOverview_run second
               (current +:+ insights_heading +:+ first)).
    + eexists. split; [reflexivity|]. cbn [docs emit set_docs].
      rewrite insert_insert_eq. by rewrite !append_assoc.
    + done.
    + cbn [docs emit set_docs]. apply lookup_insert_eq.
  - intros out first second st H1 H2. unfold bind.
    rewrite !addPerformanceSection_run by done.
    eexists. split; [reflexivity|]. cbn [docs emit set_docs]. apply insert_insert_eq.
Qed.

Lemma overview_accumulates_performance_is_replaced_witness :
  ∃ st',
    (enhanceArchitectureOverview (Some "Use caching.") >>
     enhanceArchitectureOverview (Some "Split the bundle.")) two_pages = (Returned tt, st') ∧
    docs st' =
      <[overviewPath := "# Overview" +:+ insights_heading +:+ "Use caching." +:+
                        insights_heading +:+ "Split the bundle."]> (docs two_pages).
Proof.
  destruct overview_accumulates_performance_is_replaced as [H _].
  by apply (H "Use caching." "Split the bundle." "# Overview" two_pages).
Defined.

Lemma enhanceApiPage_run (change : string * string) (st : State) :
  ∃ st' lines,
    enhanceApiPage change st = (Returned tt, st') ∧
    docs st' = docs st ∧ doc_dirs st' = doc_dirs st ∧ calls st' = calls st ∧
    events st' = events st ++ (ConsoleLog <$> lines) ∧
    length lines ≤ 1.
Proof.
  cbv [enhanceApiPage bind gets].
  destruct (doc_dirs st !! _) as [names|].
  - eexists _, [_]. split; [reflexivity|]. by split_and!.
  - exists st, []. split; [reflexivity|]. rewrite app_nil_r. split_and!; try done.
    simpl. lia.
Qed.

Lemma for_each_enhanceApiPage (changes : list (string * string)) (st : State) :
  ∃ st' lines,
    for_each enhanceApiPage changes st = (Returned tt, st') ∧
    docs st' = docs st ∧ doc_dirs st' = doc_dirs st ∧ calls st' = calls st ∧
    events st' = events st ++ (ConsoleLog <$> lines) ∧
    length lines ≤ length changes.
Proof.
  revert st. induction changes as [|change changes IH]; intros st.
  - exists st, []. simpl. by rewrite app_nil_r.
  - cbn [for_each]. unfold bind.
    destruct (enhanceApiPage_run change st) as (st1 & l1 & -> & Hd1 & Hdd1 & Hc1 & He1 & Hl1).
    destruct (IH st1) as (st' & lines & -> & Hd & Hdd & Hc & He & Hl).
    exists st', (l1 ++ lines). split; [done|]. split_and!; try congruence.
    + by rewrite He, He1, fmap_app, app_assoc.
    + rewrite length_app. simpl. lia.
Qed.

(** What [updateApiDocumentation] prints. *)
Lemma updateApiDocumentation_prints (st : State) :
  ∃ st' lines,
    updateApiDocumentation st = (Returned tt, st') ∧
    events st' =
      events st ++
      ConsoleLog "📡 Updating API documentation based on type changes..." ::
      (ConsoleLog <$> lines).
Proof.
  unfold updateApiDocumentation.
  unfold bind at 1, console_log at 1, modify at 1. unfold bind at 1.
  set (st0 := emit (ConsoleLog "📡 Updating API documentation based on type changes...") st).
  destruct (readTypesFile_run st0) as (typesContent & -> & _ & _).
  destruct (for_each_enhanceApiPage (extractTypeChanges typesContent) st0)
    as (st' & lines & -> & _ & _ & _ & He & _).
  exists st', lines. split; [done|].
  rewrite He. cbn [events emit st0]. by rewrite <- app_assoc.
Qed.

(** X12. A change of the types file leads to no change of a page:
    [updateApiDocumentation] always returns, sends no request, writes
    nothing and only prints, at most one line per namespace found besides
    its first line; without a types file it prints its first line only. *)
Theorem api_update_only_prints (st : State) :
  ∃ st' lines,
    updateApiDocumentation st = (Returned tt, st') ∧
    docs st' = docs st ∧ doc_dirs st' = doc_dirs st ∧ calls st' = calls st ∧
    events st' =
      events st ++
      ConsoleLog "📡 Updating API documentation based on type changes..." ::
      (ConsoleLog <$> lines) ∧
    (∀ typesContent, docs st !! "types/generated.d.ts" = Some typesContent →
                     length lines ≤ length (extractTypeChanges typesContent)) ∧
    (docs st !! "types/generated.d.ts" = None → lines = []).
Proof.
  unfold updateApiDocumentation.
  unfold bind at 1, console_log at 1, modify at 1. unfold bind at 1.
  set (st0 := emit (ConsoleLog "📡 Updating API documentation based on type changes...") st).
  destruct (readTypesFile_run st0) as (typesContent & -> & Hnone & Hsome).
  destruct (for_each_enhanceApiPage (extractTypeChanges typesContent) st0)
    as (st' & lines & -> & Hd & Hdd & Hc & He & Hl).
  exists st', lines. split_and!; try done.
  - rewrite He. cbn [events emit st0]. by rewrite <- app_assoc.
  - intros data Hdata. by rewrite <- (Hsome data Hdata).
  - intros H. rewrite (Hnone H) in Hl. simpl in Hl. destruct lines; [done|simpl in Hl; lia].
Qed.

End EnhancerPages.

(** ** The watcher and the enhancer it starts *)

Section WatcherAndEnhancer.
Import Enhancer EnhancerSpec EnhancerFrame.

Lemma split_go_piece (m : string) :
  JS.includes nl m = false → JS.split_go nl 0 m = (m, []).
Proof.
  intros H. rewrite <- (append_nil_r m) at 1.
  rewrite split_go_pre by (by eapply (starts_nowhere_char nl "010" EmptyString)).
  cbn. by rewrite append_nil_r.
Qed.

(** Joining names with line breaks and splitting at them gives the names
    back, when there is a name and no name holds a line break. *)
Lemma split_join_nl (ms : list string) :
  ms ≠ [] → Forall (λ m, JS.includes nl m = false) ms →
  JS.split nl (JS.join nl ms) = ms.
Proof.
  induction ms as [|m ms IH]; [done|]. intros _ Hall.
  apply Forall_cons in Hall as [Hm Hall]. destruct ms as [|m2 ms].
  - cbn [JS.join]. unfold JS.split. by rewrite split_go_piece.
  - change (JS.join nl (m :: m2 :: ms)) with (m +:+ nl +:+ JS.join nl (m2 :: ms)).
    specialize (IH ltac:(done) Hall). unfold JS.split in *.
    rewrite split_go_pre by (by eapply (starts_nowhere_char nl "010" EmptyString)).
    rewrite split_go_sep by done.
    destruct (JS.split_go nl 0 (JS.join nl (m2 :: ms))) as [h t].
    cbn. by rewrite append_nil_r, IH.
Qed.

Lemma changedModules_of_join (ms : list string) :
  Forall (λ m, JS.includes nl m = false) ms →
  changedModules_of (Some (JS.join nl ms)) = filter (λ m, JS.truthy m = true) ms.
Proof.
  intros H. unfold changedModules_of. destruct ms as [|m ms]; [done|].
  by rewrite split_join_nl.
Qed.

Lemma enhancer_env_lookup (analysis : Watcher.Analysis) (e : gmap string string) :
  WatcherSpec.enhancer_env analysis e !! "ANTHROPIC_API_KEY" = e !! "ANTHROPIC_API_KEY" ∧
  WatcherSpec.enhancer_env analysis e !! "CHANGED_MODULES" =
    Some (JS.join nl (Watcher.modules analysis)).
Proof.
  unfold WatcherSpec.enhancer_env. split.
  - by rewrite !lookup_insert_ne.
  - rewrite lookup_insert_ne by done. apply lookup_insert_eq.
Qed.

(** X13. The list of changed modules survives the way from the watcher
    to the enhancer: [CHANGED_MODULES] is the module names joined by line
    breaks, and the enhancer, splitting at line breaks and dropping empty
    pieces, reads back the names that are not empty, in order, provided
    that no name holds a line break.  An empty list is read back as
    empty. *)
Theorem changed_modules_round_trip :
  (∀ ms, Forall (λ m, JS.includes nl m = false) ms →
         changedModules_of (Some (JS.join nl ms)) = filter (λ m, JS.truthy m = true) ms) ∧
  (∀ (wout : Watcher.Outside) (analysis : Watcher.Analysis) (wst : Watcher.State),
     Watcher.env_truthy "ANTHROPIC_API_KEY" wst = true →
     Forall (λ m, JS.includes nl m = false) (Watcher.modules analysis) →
     let env' := Watcher.env (Watcher.aiEnhancedUpdate wout analysis wst).2 in
     ∀ (out : Outside) (st : State),
       ∃ this st', constructor out env' st = (Returned this, st') ∧
                   changedModules this =
                   filter (λ m, JS.truthy m = true) (Watcher.modules analysis)).
Proof.
  split; [apply changedModules_of_join|].
  intros wout analysis wst Hkey Hall env' out st.
  destruct (aiEnhancedUpdate_run wout analysis wst) as (st1 & evs & Hrun & _ & _ & _ & _ & Henv).
  assert (Hno : WatcherSpec.no_api_key wst = false).
  { unfold WatcherSpec.no_api_key. by rewrite Hkey. }
  rewrite Hno in Henv.
  assert (Henv' : env' = WatcherSpec.enhancer_env analysis (Watcher.env wst)).
  { unfold env'. by rewrite Hrun. }
  destruct (enhancer_env_lookup analysis (Watcher.env wst)) as [Hk Hm].
  unfold constructor. rewrite Henv', Hk, Hm.
  unfold Watcher.env_truthy in Hkey.
  replace (Boolean_env (Watcher.env wst !! "ANTHROPIC_API_KEY")) with true.
  eexists _, _. split; [reflexivity|]. cbn [changedModules]. by apply changedModules_of_join.
Qed.

Lemma changed_modules_round_trip_witness :
  changedModules_of (Some (JS.join nl ["sales"; "school"])) =
  filter (λ m, JS.truthy m = true) ["sales"; "school"].
Proof.
  destruct changed_modules_round_trip as [H _]. apply (H ["sales"; "school"]).
  repeat constructor.
Defined.

(** X4. The watcher starts the enhancer when one of the keys
    [ANTHROPIC_API_KEY] and [OPENAI_API_KEY] is set, but the enhancer
    works with the first only.  Without any key [aiEnhancedUpdate] runs no
    command and leaves the environment alone.  With a key it sets the two
    variables and runs the enhancer first.  Whenever [ANTHROPIC_API_KEY] is
    not set, an enhancer whose environment is the one the watcher leaves
    (nothing else supplying the key) prints the error of its constructor
    and does nothing else. *)
Theorem ai_update_accepts_a_key_the_enhancer_rejects
    (wout : Watcher.Outside) (analysis : Watcher.Analysis) (wst : Watcher.State) :
  ∃ wst' cmds,
    Watcher.aiEnhancedUpdate wout analysis wst = (Returned tt, wst') ∧
    WatcherTrace.commands_of (Watcher.events wst') =
      WatcherTrace.commands_of (Watcher.events wst) ++ cmds ∧
    (Watcher.env_truthy "ANTHROPIC_API_KEY" wst = false →
     Watcher.env_truthy "OPENAI_API_KEY" wst = false →
     cmds = [] ∧ Watcher.env wst' = Watcher.env wst) ∧
    (Watcher.env_truthy "ANTHROPIC_API_KEY" wst = true ∨
     Watcher.env_truthy "OPENAI_API_KEY" wst = true →
     (∃ rest, cmds = WatcherSpec.enhance_cmd :: rest) ∧
     Watcher.env wst' = WatcherSpec.enhancer_env analysis (Watcher.env wst)) ∧
    (Watcher.env_truthy "ANTHROPIC_API_KEY" wst = false →
     ∀ (out : Outside) (JSON_stringify : json → string) (fuel : nat) (st : State),
       main out JSON_stringify fuel (Watcher.env wst') st =
       (Returned tt, emit (ConsoleError EmptyString key_error) st)).
Proof.
  destruct (aiEnhancedUpdate_runs wout analysis wst)
    as (wst' & cmds & Hrun & [C _ _ _ _ _] & Hno & Hkey).
  exists wst', cmds. split; [done|]. split; [done|].
  unfold WatcherSpec.no_api_key in Hno, Hkey. split_and!.
  - intros H1 H2. apply Hno. by rewrite H1, H2.
  - intros H. destruct Hkey as [He Hc]; [|by split].
    destruct H as [-> | ->]; [done|]. apply andb_false_r.
  - intros H out JSON_stringify fuel st. apply main_without_key.
    assert (Watcher.env wst' !! "ANTHROPIC_API_KEY" =
            Watcher.env wst !! "ANTHROPIC_API_KEY") as ->.
    { destruct (Watcher.env_truthy "OPENAI_API_KEY" wst) eqn:E.
      - destruct Hkey as [-> _]; [by rewrite H|].
        apply enhancer_env_lookup.
      - destruct Hno as [_ ->]; [by rewrite H|done]. }
    exact H.
Qed.

Example openai_key_starts_a_failing_enhancer :
  WatcherTrace.commands_of
    (Watcher.events (Watcher.aiEnhancedUpdate WatcherSpec.working_outside
                       (Watcher.mkAnalysis ["sales"] false false false)
                       WatcherTrace.openai_only).2) =
  [ "node scripts/enhance-with-ai.js"; "git status --porcelain"; "git add .";
    WatcherTrace.commit_command WatcherSpec.working_outside "🤖 AI-enhanced docs update"
      (Watcher.mkAnalysis ["sales"] false false false) 2 ].
Proof. reflexivity. Qed.

End WatcherAndEnhancer.

Section ModuleAnalysis.
Import Enhancer EnhancerSpec EnhancerFrame.

Lemma endsWith_append (a p : string) : JS.endsWith p (a +:+ p) = true.
Proof.
  induction a as [|c a IH].
  - rewrite append_nil_l. destruct p; cbn [JS.endsWith]; by rewrite decide_True.
  - rewrite append_cons. cbn [JS.endsWith]. by destruct (decide _).
Qed.

(** Removing the first occurrence of a text that does not start earlier. *)
Lemma remove_first_append (pat base rest : string) :
  starts_nowhere pat base (pat +:+ rest) →
  remove_first pat (base +:+ pat +:+ rest) = base +:+ rest.
Proof.
  induction base as [|c base IH]; intros H.
  - rewrite !append_nil_l. destruct (pat +:+ rest) as [|x s] eqn:E.
    + destruct pat, rest; done.
    + cbn [remove_first]. rewrite <- E, startsWith_append. apply drop_string_append.
  - rewrite !append_cons. cbn [remove_first].
    change (String c (base +:+ pat +:+ rest)) with (String c base +:+ pat +:+ rest).
    rewrite (H EmptyString (String c base)) by done.
    f_equal. apply IH. intros a b Hab Hb.
    apply (H (String c a) b); [by rewrite Hab|done].
Qed.

Lemma tsx_name (base : string) :
  JS.includes ".tsx" (base +:+ ".ts") = false →
  remove_first ".tsx" (base +:+ ".tsx") = base.
Proof.
  intros H. rewrite <- (append_nil_r (base +:+ ".tsx")), append_assoc.
  rewrite remove_first_append; [apply append_nil_r|].
  intros a b -> Hb.
  change (".tsx" +:+ EmptyString) with (".ts" +:+ "x").
  rewrite <- append_assoc, startsWith_append_long.
  - rewrite append_assoc in H. by eapply includes_false_suffix.
  - rewrite length_append. destruct b; [done|]. simpl. lia.
Qed.

(** X20. The analysis of a module lists the [.tsx] entries of its
    [entities] directory or fails on them.  For a module whose name is a
    path segment and whose [entities] is a directory: when all entries
    that end in [.tsx] are files, the analysis returns one summary for each
    of them, in the order of the directory, and nothing for the other
    entries; a file [base.tsx] is listed under the name [base] (when
    [.tsx] does not occur earlier in the name: the first occurrence is
    what is removed).  When one of them is a directory, the analysis
    throws the error of reading the first such entry, and
    [enhanceModuleDocumentation], which analyses before it looks for the
    page, throws it after its first line: no request is sent and nothing
    is written, whether the page exists or not. *)
Theorem module_analysis_lists_tsx_entities
    (out : Outside) (JSON_stringify : json → string) (moduleName : string)
    (entries files : list (string * Entry)) :
  is_segment moduleName = true →
  lookup_module out moduleName = Some (Dir entries) →
  assoc "entities" entries = Some (Dir files) →
  let tsx := filter (λ f, JS.endsWith ".tsx" f.1 = true) files in
  (Forall (λ f, is_file f.2 = true) tsx →
   analyzeModuleCode out moduleName =
     Returned (analysis_of ((λ f, entitySummary f.1 (content_of f.2)) <$> tsx))) ∧
  (∀ base content,
     JS.includes ".tsx" (base +:+ ".ts") = false →
     entitySummary (base +:+ ".tsx") content =
       JObject [ ("name", JString base);
                 ("hasRelationships", JBool (JS.includes "relationships:" content));
                 ("fieldCount", JNumber (JS.String_of_nat (extractFieldCount content))) ]) ∧
  (∀ before file after,
     tsx = before ++ file :: after →
     Forall (λ f, is_file f.2 = true) before → is_file file.2 = false →
     analyzeModuleCode out moduleName = Thrown eisdir ∧
     ∀ fuel st,
       enhanceModuleDocumentation out JSON_stringify fuel moduleName st =
         (Thrown eisdir, announced moduleName st)).
Proof.
  intros _ Hmodule Hentities tsx.
  assert (Hrun : analyzeModuleCode out moduleName =
                 match map_outcome readEntity tsx with
                 | Returned summaries => Returned (analysis_of summaries)
                 | Thrown e => Thrown e
                 | Unfinished => Unfinished
                 end).
  { unfold analyzeModuleCode. by rewrite Hmodule, Hentities. }
  split_and!.
  - intros Hfiles. rewrite Hrun.
    rewrite (map_outcome_returned readEntity (λ f, entitySummary f.1 (content_of f.2)));
      [done|].
    intros f Hf. apply readEntity_file. by eapply Forall_forall in Hfiles.
  - intros base content Hbase. unfold entitySummary. by rewrite tsx_name.
  - intros before file after Htsx Hbefore Hfile.
    assert (Hthrown : analyzeModuleCode out moduleName = Thrown eisdir).
    { rewrite Hrun, Htsx.
      rewrite (map_outcome_thrown readEntity (λ f, entitySummary f.1 (content_of f.2))
                 before after file eisdir); [done| |by apply readEntity_directory].
      intros f Hf. apply readEntity_file. by eapply Forall_forall in Hbefore. }
    split; [done|]. intros fuel st. by apply enhanceModuleDocumentation_thrown.
Qed.

Lemma module_analysis_lists_tsx_entities_witness :
  let tsx := filter (λ f, JS.endsWith ".tsx" f.1 = true) legacy_entities in
  (Forall (λ f, is_file f.2 = true) tsx →
   analyzeModuleCode answering "legacy" =
     Returned (analysis_of ((λ f, entitySummary f.1 (content_of f.2)) <$> tsx))) ∧
  (∀ base content,
     JS.includes ".tsx" (base +:+ ".ts") = false →
     entitySummary (base +:+ ".tsx") content =
       JObject [ ("name", JString base);
                 ("hasRelationships", JBool (JS.includes "relationships:" content));
                 ("fieldCount", JNumber (JS.String_of_nat (extractFieldCount content))) ]) ∧
  (∀ before file after,
     tsx = before ++ file :: after →
     Forall (λ f, is_file f.2 = true) before → is_file file.2 = false →
     analyzeModuleCode answering "legacy" = Thrown eisdir ∧
     ∀ fuel st,
       enhanceModuleDocumentation answering stringify_stub fuel "legacy" st =
         (Thrown eisdir, announced "legacy" st)).
Proof.
  apply (module_analysis_lists_tsx_entities answering stringify_stub "legacy"
           [("entities", Dir legacy_entities)] legacy_entities); reflexivity.
Defined.

(** The module [legacy] has a directory among its entities: its page
    exists, and its enhancement throws before a request is sent. *)
Example directory_among_entities :
  enhanceModuleDocumentation answering stringify_stub 3 "legacy" legacy_page =
  (Thrown eisdir,
   mkState {[ "modules/legacy.mdx" := "# Legacy" ]} ∅
     [ConsoleLog "🔧 Enhancing legacy module documentation..."] 0).
Proof. vm_compute. reflexivity. Qed.

Example first_extension_is_removed :
  remove_first ".tsx" "order.tsx.backup.tsx" = "order.backup.tsx".
Proof. reflexivity. Qed.

End ModuleAnalysis.

Section OverviewPages.
Import Enhancer EnhancerSpec EnhancerFrame.
Context (out : Outside) (JSON_stringify : json → string).

(** Enhancing the overview sends nothing and leaves the other pages. *)
Lemma enhanceArchitectureOverview_quiet (insights : option string) (st : State) :
  ∃ st',
    enhanceArchitectureOverview insights st = (Returned tt, st') ∧
    calls st' = calls st ∧
    requests_of (events st') = requests_of (events st) ∧
    sleeps_of (events st') = sleeps_of (events st) ∧
    (∀ p, p ≠ overviewPath → docs st' !! p = docs st !! p).
Proof.
  destruct insights as [[|c text]|]; try (by exists st).
  destruct (docs st !! overviewPath) as [current|] eqn:E.
  - rewrite (enhanceArchitectureOverview_run (String c text) current) by done.
    eexists. split; [reflexivity|]. cbn [calls events docs emit set_docs].
    rewrite !requests_of_app, !sleeps_of_app. cbn. rewrite !app_nil_r.
    split_and!; try done. intros p Hp. by apply lookup_insert_ne.
  - exists st. split; [|done].
    cbv [enhanceArchitectureOverview bind existsSync gets]. unfold overviewPath in E.
    rewrite E. by rewrite bool_decide_eq_false_2 by (by intros [? ?]).
Qed.

(** X21. The two requests of [updateOverviewPages] do not depend on each
    other.  When neither is rate-limited, the insights are requested, then
    the recommendations, whatever the first request gave: a failure of the
    first leaves the overview alone and does not keep the second from
    being sent.  The performance page holds the recommendations when the
    second answer is a non-empty text, and is as before otherwise. *)
Theorem overview_pages_ask_twice (fuel : nat) (st : State) :
  let first := claude_request (insightsPrompt JSON_stringify (analyzeFullCodebase out)) in
  let second := claude_request performancePrompt in
  ¬ rate_limited out (calls st) first →
  ¬ rate_limited out (S (calls st)) second →
  0 < fuel →
  ∃ st',
    updateOverviewPages out JSON_stringify fuel st = (Returned tt, st') ∧
    calls st' = S (S (calls st)) ∧
    requests_of (events st') = requests_of (events st) ++ [first; second] ∧
    sleeps_of (events st') = sleeps_of (events st) ∧
    (reply_text (api_reply out (calls st) first) = None →
     docs st' !! overviewPath = docs st !! overviewPath) ∧
    match reply_text (api_reply out (S (calls st)) second) with
    | Some (String c text) =>
        docs st' !! performancePath =
        Some (perfContent (locale_date out) (String c text))
    | _ => docs st' !! performancePath = docs st !! performancePath
    end.
Proof.
  intros first second H1 H2 Hfuel. destruct fuel as [|fuel]; [lia|].
  unfold updateOverviewPages.
  unfold bind at 1, console_log at 1, modify at 1.
  set (st0 := emit (ConsoleLog "📊 Updating overview pages with AI insights...") st).
  unfold bind at 1, generateArchitectureInsights.
  destruct (callClaude_answered out fuel
              (insightsPrompt JSON_stringify (analyzeFullCodebase out)) st0 H1)
    as (st1 & -> & Hc1 & Hd1 & _ & Hr1 & Hs1 & _).
  fold first in Hr1 |- *. change (calls st0) with (calls st) in Hc1 |- *.
  change (docs st0) with (docs st) in Hd1.
  assert (Hr0 : requests_of (events st0) = requests_of (events st)).
  { unfold st0. cbn [events emit]. rewrite requests_of_app. cbn. apply app_nil_r. }
  assert (Hs0 : sleeps_of (events st0) = sleeps_of (events st)).
  { unfold st0. cbn [events emit]. rewrite sleeps_of_app. cbn. apply app_nil_r. }
  set (insights := reply_text (api_reply out (calls st) first)) in *.
  assert (Hov : ∃ st2,
            (match insights with
             | Some (String c text) => enhanceArchitectureOverview insights
             | _ => ret tt
             end) st1 = (Returned tt, st2) ∧
            calls st2 = calls st1 ∧
            requests_of (events st2) = requests_of (events st1) ∧
            sleeps_of (events st2) = sleeps_of (events st1) ∧
            (∀ p, p ≠ overviewPath → docs st2 !! p = docs st1 !! p) ∧
            (insights = None → docs st2 = docs st1)).
  { destruct insights as [[|c text]|] eqn:Ei; try (by exists st1).
    destruct (enhanceArchitectureOverview_quiet (Some (String c text)) st1)
      as (st2 & ? & ? & ? & ? & ?). exists st2. by split_and!. }
  destruct Hov as (st2 & Hrun2 & Hc2 & Hr2 & Hs2 & Hd2 & Hnone).
  unfold bind at 1. rewrite Hrun2.
  unfold bind at 1, generatePerformanceRecommendations.
  assert (H2' : ¬ rate_limited out (calls st2) second) by (by rewrite Hc2, Hc1).
  destruct (callClaude_answered out fuel performancePrompt st2 H2')
    as (st3 & -> & Hc3 & Hd3 & _ & Hr3 & Hs3 & _).
  fold second in Hr3 |- *. rewrite Hc2, Hc1.
  assert (Hreq : requests_of (events st3) = requests_of (events st) ++ [first; second]).
  { rewrite Hr3, Hr2, Hr1, Hr0, <- app_assoc. done. }
  assert (Hsl : sleeps_of (events st3) = sleeps_of (events st)).
  { by rewrite Hs3, Hs2, Hs1, Hs0. }
  assert (Hov3 : insights = None → docs st3 !! overviewPath = docs st !! overviewPath).
  { intros Hi. by rewrite Hd3, (Hnone Hi), Hd1. }
  assert (Hperf : docs st3 !! performancePath = docs st !! performancePath).
  { rewrite Hd3, Hd2 by done. by rewrite Hd1. }
  destruct (reply_text (api_reply out (S (calls st)) second)) as [[|c text]|].
  - exists st3. split_and!; try done. lia.
  - rewrite addPerformanceSection_run by done. eexists. split; [reflexivity|].
    cbn [calls events docs emit set_docs].
    rewrite !requests_of_app, !sleeps_of_app. cbn. rewrite !app_nil_r.
    split_and!; try done; [lia| |apply lookup_insert_eq].
    intros Hi. rewrite lookup_insert_ne by done. by apply Hov3.
  - exists st3. split_and!; try done. lia.
Qed.

End OverviewPages.

Section OverviewPagesRun.
Import Enhancer EnhancerSpec EnhancerFrame.

Lemma overview_pages_ask_twice_witness :
  ∃ st',
    updateOverviewPages refusing stringify_stub 1 two_pages = (Returned tt, st') ∧
    calls st' = S (S (calls two_pages)) ∧
    requests_of (events st') =
      requests_of (events two_pages) ++
      [ claude_request (insightsPrompt stringify_stub (analyzeFullCodebase refusing));
        claude_request performancePrompt ] ∧
    sleeps_of (events st') = sleeps_of (events two_pages) ∧
    (reply_text (api_reply refusing (calls two_pages)
                   (claude_request (insightsPrompt stringify_stub
                                      (analyzeFullCodebase refusing)))) = None →
     docs st' !! overviewPath = docs two_pages !! overviewPath) ∧
    match reply_text (api_reply refusing (S (calls two_pages))
                        (claude_request performancePrompt)) with
    | Some (String c text) =>
        docs st' !! performancePath =
        Some (perfContent (locale_date refusing) (String c text))
    | _ => docs st' !! performancePath = docs two_pages !! performancePath
    end.
Proof.
  apply (overview_pages_ask_twice refusing stringify_stub 1 two_pages);
    [by vm_compute|by vm_compute|lia].
Defined.

End OverviewPagesRun.

(** ** The AI enhancer: what the type flag decides *)

Section TypeFlagGate.
Import Enhancer EnhancerSpec EnhancerFrame.
Context (out : Outside) (JSON_stringify : json → string).

Lemma prints_refl (E : Event → Prop) (st : State) : prints E st st.
Proof. exists []. by rewrite app_nil_r. Qed.

Lemma prints_trans (E : Event → Prop) (st1 st2 st3 : State) :
  prints E st1 st2 → prints E st2 st3 → prints E st1 st3.
Proof.
  intros (e1 & H1 & F1) (e2 & H2 & F2). exists (e1 ++ e2).
  rewrite H2, H1, app_assoc. split; [done|]. by apply Forall_app.
Qed.

Lemma prints_emit (E : Event → Prop) (e : Event) (st : State) : E e → prints E st (emit e st).
Proof. intros H. exists [e]. split; [done|]. by apply Forall_singleton. Qed.

Lemma prints_same (E : Event → Prop) (st st' : State) : events st' = events st → prints E st st'.
Proof. intros H. exists []. by rewrite app_nil_r. Qed.

Local Ltac quiet :=
  repeat first
    [ apply prints_refl
    | (apply prints_same; reflexivity)
    | (apply prints_emit; intros ?; discriminate)
    | eapply prints_trans; [|apply prints_emit; intros ?; discriminate]
    | eapply prints_trans; [|apply prints_same; reflexivity] ].

Lemma callClaude_quiet (fuel : nat) (prompt : string) :
  keeps (prints not_api_update) (callClaude out fuel prompt).
Proof.
  induction fuel as [|fuel IH]; intros st; [apply prints_refl|].
  rewrite callClaude_step.
  destruct (api_reply out (calls st) (claude_request prompt)) as [[|text blocks]|status message].
  - cbn [snd]. unfold after_failure, count_call. quiet.
  - cbn [snd]. unfold after_answer, count_call. quiet.
  - destruct (bool_decide (status = Some 429)).
    + eapply prints_trans; [|apply IH]. unfold after_rate_limit, count_call. quiet.
    + cbn [snd]. unfold after_failure, count_call. quiet.
Qed.

Lemma writeFileSync_quiet (p data : string) :
  keeps (prints not_api_update) (writeFileSync p data).
Proof. intros st. cbv [writeFileSync bind modify]. cbn [snd]. unfold set_docs. quiet. Qed.

Lemma messages_create_quiet (request : Request) :
  keeps (prints not_api_update) (messages_create out request).
Proof.
  intros st. cbv [messages_create bind gets modify].
  destruct (api_reply out (calls st) request); cbn [snd]; unfold count_call; quiet.
Qed.

Lemma testConnection_quiet : keeps (prints not_api_update) (testConnection out).
Proof.
  unfold testConnection, console_log, console_error.
  apply keeps_try_catch; [apply prints_trans| |].
  - apply keeps_bind; [apply prints_trans|apply keeps_modify; intros st; quiet|]. intros _.
    apply keeps_bind; [apply prints_trans|apply messages_create_quiet|]. intros blocks.
    apply keeps_bind; [apply prints_trans|apply keeps_modify; intros st; quiet|]. intros _.
    destruct blocks; [apply keeps_throw, prints_refl|].
    apply keeps_modify. intros st. quiet.
  - intros e.
    apply keeps_bind; [apply prints_trans|apply keeps_modify; intros st; quiet|]. intros _.
    apply keeps_throw, prints_refl.
Qed.

Lemma enhanceModuleDocumentation_quiet (fuel : nat) (moduleName : string) :
  keeps (prints not_api_update)
        (enhanceModuleDocumentation out JSON_stringify fuel moduleName).
Proof.
  unfold enhanceModuleDocumentation, console_log, readModuleDoc, existsSync, readFileSync,
    writeModuleDoc.
  apply keeps_bind; [apply prints_trans|apply keeps_modify; intros st; quiet|]. intros _.
  apply keeps_bind; [apply prints_trans|intros st; apply prints_refl|]. intros moduleCode.
  apply keeps_bind; [apply prints_trans| |].
  { apply keeps_bind; [apply prints_trans|apply keeps_gets, prints_refl|]. intros [|].
    - apply keeps_bind; [apply prints_trans|apply keeps_gets, prints_refl|].
      intros [d|]; [apply keeps_ret|apply keeps_throw]; apply prints_refl.
    - apply keeps_ret, prints_refl. }
  intros currentDoc. destruct (negb (JS.truthy currentDoc)).
  { apply keeps_modify. intros st. quiet. }
  apply keeps_bind; [apply prints_trans|apply callClaude_quiet|].
  intros [[|c text]|]; try (apply keeps_ret, prints_refl).
  apply keeps_bind; [apply prints_trans|apply writeFileSync_quiet|]. intros _.
  apply keeps_modify. intros st. quiet.
Qed.

Lemma updateOverviewPages_quiet (fuel : nat) :
  keeps (prints not_api_update) (updateOverviewPages out JSON_stringify fuel).
Proof.
  unfold updateOverviewPages, console_log.
  apply keeps_bind; [apply prints_trans|apply keeps_modify; intros st; quiet|]. intros _.
  apply keeps_bind; [apply prints_trans|apply callClaude_quiet|]. intros insights.
  apply keeps_bind; [apply prints_trans| |].
  { destruct insights as [[|c text]|]; try (apply keeps_ret, prints_refl).
    unfold enhanceArchitectureOverview, existsSync, readFileSync, console_log.
    apply keeps_bind; [apply prints_trans|apply keeps_gets, prints_refl|]. intros [|].
    - apply keeps_bind; [apply prints_trans| |].
      + apply keeps_bind; [apply prints_trans|apply keeps_gets, prints_refl|].
        intros [d|]; [apply keeps_ret|apply keeps_throw]; apply prints_refl.
      + intros current. apply keeps_bind; [apply prints_trans|apply writeFileSync_quiet|].
        intros _. apply keeps_modify. intros st. quiet.
    - apply keeps_ret, prints_refl. }
  intros _. apply keeps_bind; [apply prints_trans|apply callClaude_quiet|].
  intros recommendations.
  destruct recommendations as [[|c text]|]; try (apply keeps_ret, prints_refl).
  unfold addPerformanceSection, console_log.
  apply keeps_bind; [apply prints_trans|apply writeFileSync_quiet|]. intros _.
  apply keeps_modify. intros st. quiet.
Qed.

Lemma for_each_quiet {A} (f : A → Eff State unit) (l : list A) :
  (∀ x, keeps (prints not_api_update) (f x)) →
  keeps (prints not_api_update) (for_each f l).
Proof.
  intros H. induction l as [|x l IH]; [apply keeps_ret, prints_refl|].
  cbn [for_each]. apply keeps_bind; [apply prints_trans|apply H|]. by intros _.
Qed.

Lemma enhanceDocumentation_quiet (fuel : nat) (this : Enhancer) :
  typesChanged this = false →
  keeps (prints not_api_update) (enhanceDocumentation out JSON_stringify fuel this).
Proof.
  intros Et. unfold enhanceDocumentation, console_log, console_error. rewrite Et.
  apply keeps_bind; [apply prints_trans|apply keeps_modify; intros st; quiet|]. intros _.
  apply keeps_try_catch; [apply prints_trans| |].
  - apply keeps_bind; [apply prints_trans|apply testConnection_quiet|]. intros _.
    apply keeps_bind; [apply prints_trans|apply keeps_ret, prints_refl|]. intros _.
    apply keeps_bind; [apply prints_trans| |].
    { apply for_each_quiet. intros m. apply enhanceModuleDocumentation_quiet. }
    intros _. apply keeps_bind; [apply prints_trans|apply updateOverviewPages_quiet|].
    intros _. apply keeps_modify. intros st. quiet.
  - intros e.
    apply keeps_bind; [apply prints_trans|apply keeps_modify; intros st; quiet|]. intros _.
    apply keeps_throw, prints_refl.
Qed.

(** With the flag on and a connection, the line is printed. *)
Lemma enhanceDocumentation_updates (fuel : nat) (this : Enhancer) (st : State)
    (text : string) (blocks : list string) :
  typesChanged this = true →
  api_reply out (calls st) test_request = ApiMessage (text :: blocks) →
  ∃ before after,
    events (enhanceDocumentation out JSON_stringify fuel this st).2 =
    events st ++ before ++ ConsoleLog api_update_line :: after.
Proof.
  intros Et Hreply. unfold enhanceDocumentation.
  unfold bind at 1, console_log at 1, modify at 1. unfold try_catch.
  unfold bind at 1.
  set (st0 := emit (ConsoleLog "🎯 Starting AI-powered documentation enhancement...") st).
  assert (Htest : ∃ st1 evs, testConnection out st0 = (Returned tt, st1) ∧
                             events st1 = events st ++ evs).
  { cbv [testConnection try_catch bind console_log modify messages_create gets].
    cbn [calls emit st0]. fold test_request. rewrite Hreply.
    eexists _, [_; _; _; _; _]. split; [reflexivity|].
    unfold st0. cbn [events emit count_call]. by rewrite <- !app_assoc. }
  destruct Htest as (st1 & evs1 & -> & He1). rewrite Et. unfold bind at 1.
  destruct (updateApiDocumentation_prints st1) as (st2 & lines & -> & He2).
  set (rest := (for_each (enhanceModuleDocumentation out JSON_stringify fuel)
                  (changedModules this) >>
                updateOverviewPages out JSON_stringify fuel >>
                console_log "✅ AI enhancement completed successfully!")).
  assert (Hrest : ∃ evs, events (rest st2).2 = events st2 ++ evs).
  { destruct (keeps_bind (touches (owned this)) (touches_trans _)
                (for_each (enhanceModuleDocumentation out JSON_stringify fuel)
                   (changedModules this))
                (λ _, updateOverviewPages out JSON_stringify fuel >>
                      console_log "✅ AI enhancement completed successfully!")) with
      (st := st2) as [_ _ _ _ _ (evs & H & _)].
    - apply keeps_for_each. intros m Hm.
      eapply keeps_mono; [|apply enhanceModuleDocumentation_keeps].
      intros p ->. right. right. by exists m.
    - intros _. apply tk_bind.
      + eapply keeps_mono; [|apply updateOverviewPages_keeps].
        intros p [->| ->]; [by left|right; by left].
      + intros _. apply keeps_console_log.
    - by exists evs. }
  destruct Hrest as [evs3 He3]. fold rest.
  destruct (rest st2) as [[[]|e|] st3]; cbn [snd] in *.
  - exists evs1, ((ConsoleLog <$> lines) ++ evs3).
    rewrite He3, He2, He1. by rewrite <- !app_assoc.
  - cbv [bind console_error modify throw]. cbn [snd events emit].
    exists evs1, ((ConsoleLog <$> lines) ++ evs3 ++
                  [ConsoleError "❌ AI enhancement failed:" e]).
    rewrite He3, He2, He1. by rewrite <- !app_assoc.
  - exists evs1, ((ConsoleLog <$> lines) ++ evs3).
    rewrite He3, He2, He1. by rewrite <- !app_assoc.
Qed.

(** X22. The type flag decides whether the API documentation is looked
    at.  A run of an enhancer whose flag is off never prints the first
    line of [updateApiDocumentation], however it goes; a run whose flag is
    on prints it once the connection test has passed. *)
Theorem type_flag_gates_api_update (fuel : nat) (this : Enhancer) (st : State) :
  ∃ new,
    events (enhanceDocumentation out JSON_stringify fuel this st).2 = events st ++ new ∧
    (typesChanged this = false → ConsoleLog api_update_line ∉ new) ∧
    (typesChanged this = true →
     ∀ text blocks, api_reply out (calls st) test_request = ApiMessage (text :: blocks) →
                    ConsoleLog api_update_line ∈ new).
Proof.
  assert (Hrun : ∃ new, events (enhanceDocumentation out JSON_stringify fuel this st).2 =
                        events st ++ new).
  { destruct (enhanceDocumentation_keeps out JSON_stringify fuel this st)
      as [_ _ _ _ _ (new & H & _)]. by exists new. }
  destruct Hrun as [new Hnew]. exists new. split; [done|]. split.
  - intros Et Hin.
    destruct (enhanceDocumentation_quiet fuel this Et st) as (evs & He & Hall).
    rewrite Hnew in He. apply app_inv_head in He. subst evs.
    rewrite Forall_forall in Hall. by apply (Hall _ Hin).
  - intros Et text blocks Hreply.
    destruct (enhanceDocumentation_updates fuel this st text blocks Et Hreply)
      as (before & after & He).
    rewrite Hnew in He. apply app_inv_head in He. rewrite He.
    apply elem_of_app. right. apply list_elem_of_here.
Qed.

End TypeFlagGate.

(** ** The documentation generator: directories, pages and navigation *)

Section Paths.
Import Generator GeneratorSpec GeneratorPages.




Lemma elem_of_concat {A} (x : A) (ls : list (list A)) :
  x ∈ concat ls ↔ ∃ l, x ∈ l ∧ l ∈ ls.
Proof.
  induction ls as [|l ls IH]; cbn.
  - split; [by intros ?%elem_of_nil|]. by intros (? & _ & ?%elem_of_nil).
  - rewrite elem_of_app, IH. split.
    + intros [?|(l' & ? & ?)]; [exists l|exists l']; split; try done.
      * apply list_elem_of_here.
      * by apply list_elem_of_further.
    + intros (l' & Hx & [->|?]%elem_of_cons); [by left|right; by exists l'].
Qed.



End Paths.

Section GeneratorOutcome.
Import Generator GeneratorSpec GeneratorPages.
Context (config : Config).
Context (JSON_parse : string → option json) (JSON_stringify : json → string).



End GeneratorOutcome.

Section GeneratorManifest.
Import Generator GeneratorSpec GeneratorPages.





End GeneratorManifest.

Section GeneratorTree.
Import Generator GeneratorSpec GeneratorPages.
Context (config : Config).

Lemma existsSync_covered (p : string) (st : State) :
  existsSync p st = (Returned true, st) ↔ covered (files st) (dirs st) p.
Proof.
  unfold existsSync, gets, covered. split.
  - intros [= H]. by apply bool_decide_eq_true in H.
  - intros H. by rewrite bool_decide_eq_true_2.
Qed.

Lemma module_directories (module : ModuleDescriptor) :
  module ∈ modules config →
  "modules/" +:+ name module ∈ directories config ∧
  "api-reference/" +:+ name module ∈ directories config.
Proof.
  intros H. unfold directories. rewrite !elem_of_app, !elem_of_concat.
  split; right; eexists; (split; [|apply list_elem_of_fmap; by exists module]).
  - apply list_elem_of_here.
  - apply list_elem_of_further, list_elem_of_here.
Qed.

(** A listed path at which there is no file is a directory afterwards. *)
Lemma make_dirs_created (f : gmap string string) (ds : gset string) (dir : string) :
  dir ∈ directories config → f !! in_docs config dir = None →
  in_docs config dir ∈ make_dirs config f ds.
Proof.
  intros Hdir Hnone.
  destruct (make_dirs_covers config f (directories config) ds dir Hdir) as [H|[d H]];
    [exact H|congruence].
Qed.

(** X16. After [createDirectoryStructure] every directory of the tree is
    there: when none of the listed paths, nor a path above one of them, is
    a file, then the seven sections and, for every module of the
    configuration, its directory under [modules] and under
    [api-reference] are directories afterwards.  Nothing is printed, no
    file is touched and no directory is removed; where all of them exist
    already, nothing is created. *)
Theorem directories_exist_after_creation (st : State) :
  Forall (λ dir, files st !! in_docs config dir = None ∧
                 Forall (λ above, files st !! above = None)
                        (ancestors (in_docs config dir)))
         (directories config) →
  ∃ st',
    createDirectoryStructure config st = (Returned tt, st') ∧
    files st' = files st ∧ events st' = events st ∧ exitCode st' = exitCode st ∧
    dirs st ⊆ dirs st' ∧
    (∀ dir, dir ∈ directories config →
            in_docs config dir ∈ dirs st' ∧
            existsSync (in_docs config dir) st' = (Returned true, st')) ∧
    (∀ section, section ∈ ["architecture"; "frontend"; "backend"; "modules";
                           "components"; "testing"; "api-reference"] →
                in_docs config section ∈ dirs st') ∧
    (∀ module, module ∈ modules config →
       in_docs config ("modules/" +:+ name module) ∈ dirs st' ∧
       in_docs config ("api-reference/" +:+ name module) ∈ dirs st') ∧
    ((∀ dir, dir ∈ directories config →
             existsSync (in_docs config dir) st = (Returned true, st)) →
     dirs st' = dirs st).
Proof.
  intros Hfree. rewrite Forall_forall in Hfree.
  destruct (createDirectoryStructure_run config st) as (st' & Hrun & Hf & Hd & He & Hx).
  assert (Hall : ∀ dir, dir ∈ directories config → in_docs config dir ∈ dirs st').
  { intros dir Hdir. rewrite Hd. apply make_dirs_created; [done|].
    by destruct (Hfree dir Hdir). }
  exists st'. split_and!; try done.
  - rewrite Hd. apply make_dirs_subseteq.
  - intros dir Hdir. split; [by apply Hall|].
    apply existsSync_covered. left. by apply Hall.
  - intros section Hs. apply Hall. unfold directories. apply elem_of_app. by left.
  - intros module Hm. destruct (module_directories module Hm). split; by apply Hall.
  - intros H. rewrite Hd. apply make_dirs_fixed. intros dir Hdir.
    by apply existsSync_covered, H.
Qed.

End GeneratorTree.

Section GeneratorTreeRun.
Import Generator GeneratorSpec GeneratorPages.

Lemma directories_exist_after_creation_witness :
  ∃ st',
    createDirectoryStructure small_config manifest_only = (Returned tt, st') ∧
    files st' = files manifest_only ∧ events st' = events manifest_only ∧
    exitCode st' = exitCode manifest_only ∧
    dirs manifest_only ⊆ dirs st' ∧
    (∀ dir, dir ∈ directories small_config →
            in_docs small_config dir ∈ dirs st' ∧
            existsSync (in_docs small_config dir) st' = (Returned true, st')) ∧
    (∀ section, section ∈ ["architecture"; "frontend"; "backend"; "modules";
                           "components"; "testing"; "api-reference"] →
                in_docs small_config section ∈ dirs st') ∧
    (∀ module, module ∈ modules small_config →
       in_docs small_config ("modules/" +:+ name module) ∈ dirs st' ∧
       in_docs small_config ("api-reference/" +:+ name module) ∈ dirs st') ∧
    ((∀ dir, dir ∈ directories small_config →
             existsSync (in_docs small_config dir) manifest_only =
             (Returned true, manifest_only)) →
     dirs st' = dirs manifest_only).
Proof.
  apply (directories_exist_after_creation small_config manifest_only).
  apply (bool_decide_unpack _). by vm_compute.
Defined.

(** A file in the place of a directory is left as it is: the path exists,
    and it is not a directory. *)
Example file_instead_of_directory :
  let st' := (createDirectoryStructure small_config file_in_place).2 in
  existsSync "frontend" st' = (Returned true, st') ∧
  files st' !! "frontend" = Some "notes" ∧
  bool_decide ("frontend" ∈ dirs st') = false ∧
  bool_decide ("backend" ∈ dirs st') = true.
Proof. by vm_compute. Qed.

End GeneratorTreeRun.

Section GeneratorLinks.
Import Generator GeneratorSpec GeneratorPages.
Context (config : Config).
Context (JSON_parse : string → option json) (JSON_stringify : json → string).






End GeneratorLinks.

Section NavigationFrame.
Import Generator GeneratorSpec GeneratorPages.

Lemma findApiTab_first (tabs : list json) (i : nat) :
  findApiTab tabs = Returned (Some i) →
  ∀ j t, j < i → tabs !! j = Some t → is_api_tab t = false.
Proof.
  revert i. induction tabs as [|tab tabs IH]; intros i; [done|].
  rewrite findApiTab_cons. destruct (is_api_tab tab) eqn:E.
  - destruct tab; try done. intros [= <-] j t Hj. lia.
  - destruct tab; try done;
      (destruct (findApiTab tabs) as [[i'|]|e|] eqn:F; try done;
       intros [= <-] j t Hj Ht; destruct j as [|j];
       [by injection Ht as <-|apply (IH i' eq_refl j); [lia|done]]).
Qed.

Lemma set_member_keys (key : string) (v : json) (ms : list (string * json)) :
  is_Some (member key ms) → (set_member key v ms).*1 = ms.*1.
Proof.
  induction ms as [|[k x] ms IH]; cbn; intros H; [by destruct H|].
  destruct (decide (k = key)) as [->|Hne]; cbn; [done|]. by rewrite IH.
Qed.

Lemma is_api_tab_member (tab : list (string * json)) :
  is_api_tab (JObject tab) = true → member "tab" tab = Some (JString "API Reference").
Proof.
  cbn [is_api_tab]. destruct (member "tab" tab) as [[| | |s| |]|]; try done.
  by intros ->%bool_decide_eq_true.
Qed.

(** X18. Updating the navigation replaces the groups of the first API
    Reference tab and nothing else: the manifest keeps its keys in their
    order and the values of all keys but [navigation]; the navigation keeps
    all but [tabs]; the tabs keep their number, and every other tab is as
    it was; the API Reference tab keeps all its properties but [groups],
    which is the generated list. *)
Theorem navigation_update_keeps_the_rest (config : Config) (docsConfig docsConfig' : json) :
  updateNavigation config docsConfig = Returned (Some docsConfig') →
  ∃ ms nav tabs i tab,
    docsConfig = JObject ms ∧ member "navigation" ms = Some (JObject nav) ∧
    member "tabs" nav = Some (JArray tabs) ∧ tabs !! i = Some (JObject tab) ∧
    member "tab" tab = Some (JString "API Reference") ∧
    (∀ j t, j < i → tabs !! j = Some t → is_api_tab t = false) ∧
    ∃ ms' nav' tabs' tab',
      docsConfig' = JObject ms' ∧ member "navigation" ms' = Some (JObject nav') ∧
      member "tabs" nav' = Some (JArray tabs') ∧ tabs' !! i = Some (JObject tab') ∧
      ms'.*1 = ms.*1 ∧ (∀ k, k ≠ "navigation" → member k ms' = member k ms) ∧
      nav'.*1 = nav.*1 ∧ (∀ k, k ≠ "tabs" → member k nav' = member k nav) ∧
      length tabs' = length tabs ∧ (∀ j, j ≠ i → tabs' !! j = tabs !! j) ∧
      member "groups" tab' = Some (apiGroups config) ∧
      (∀ k, k ≠ "groups" → member k tab' = member k tab).
Proof.
  unfold updateNavigation.
  destruct docsConfig as [| | | | |ms]; try done.
  destruct (member "navigation" ms) as [[| | | | |nav]|] eqn:Hnav; try done.
  destruct (member "tabs" nav) as [[| | | |tabs|]|] eqn:Htabs; try done.
  destruct (findApiTab tabs) as [[i|]|e|] eqn:Hfind; try done.
  destruct (tabs !! i) as [[| | | | |tab]|] eqn:Hi; try done.
  intros [= <-].
  destruct (findApiTab_found tabs i Hfind) as (t & Ht & Hapi).
  rewrite Hi in Ht. injection Ht as <-.
  exists ms, nav, tabs, i, tab. split_and!; try done.
  { by apply is_api_tab_member. }
  { by apply findApiTab_first. }
  eexists _, _, _, _. split; [reflexivity|]. split_and!.
  - apply member_set_member_eq.
  - apply member_set_member_eq.
  - apply list_lookup_insert_eq. by eapply lookup_lt_Some.
  - apply set_member_keys. by rewrite Hnav.
  - intros k Hk. by apply member_set_member_ne.
  - apply set_member_keys. by rewrite Htabs.
  - intros k Hk. by apply member_set_member_ne.
  - apply length_insert.
  - intros j Hj. by apply list_lookup_insert_ne.
  - apply member_set_member_eq.
  - intros k Hk. by apply member_set_member_ne.
Qed.

Lemma navigation_update_keeps_the_rest_witness :
  ∃ ms nav tabs i tab,
    manifest = JObject ms ∧ member "navigation" ms = Some (JObject nav) ∧
    member "tabs" nav = Some (JArray tabs) ∧ tabs !! i = Some (JObject tab) ∧
    member "tab" tab = Some (JString "API Reference") ∧
    (∀ j t, j < i → tabs !! j = Some t → is_api_tab t = false) ∧
    ∃ ms' nav' tabs' tab',
      manifest_updated = JObject ms' ∧ member "navigation" ms' = Some (JObject nav') ∧
      member "tabs" nav' = Some (JArray tabs') ∧ tabs' !! i = Some (JObject tab') ∧
      ms'.*1 = ms.*1 ∧ (∀ k, k ≠ "navigation" → member k ms' = member k ms) ∧
      nav'.*1 = nav.*1 ∧ (∀ k, k ≠ "tabs" → member k nav' = member k nav) ∧
      length tabs' = length tabs ∧ (∀ j, j ≠ i → tabs' !! j = tabs !! j) ∧
      member "groups" tab' = Some (apiGroups small_config) ∧
      (∀ k, k ≠ "groups" → member k tab' = member k tab).
Proof. apply (navigation_update_keeps_the_rest small_config manifest manifest_updated). reflexivity. Defined.

End NavigationFrame.

Section ModulePages.
Import Generator GeneratorSpec GeneratorPages.
Context (config : Config).
Context (JSON_parse : string → option json) (JSON_stringify : json → string).






End ModulePages.

Section ModulePagesRun.
Import Generator GeneratorSpec GeneratorPages.


End ModulePagesRun.

Section GeneratedCounts.
Import Generator GeneratorSpec GeneratorPages.
Context (config : Config).
Context (JSON_parse : string → option json) (JSON_stringify : json → string).





End GeneratedCounts.

Section GeneratedCountsRun.
Import Generator GeneratorSpec GeneratorPages.



End GeneratedCountsRun.
